(** * Gemini Legion: the turn-orchestration service

    A shallow embedding of [services/legionApiService.ts] (the class
    [LegionApiService]), of the records of [types.ts], and of the two
    helpers of [constants.ts] and [services/geminiService.ts] the service
    calls.  Mutable fields of the class are threaded through an explicit
    state; observer callbacks, model requests and clock readings are
    recorded in that state so that statements can talk about them.

    The callers of the service are embedded as far as they are pure:
    the message handlers of [App.tsx], and the helpers of
    [components/ChannelForm.tsx] and [components/ApiKeyManager.tsx]. *)

From Stdlib Require Import QArith Qcanon.
From Stdlib Require Import Sorted Permutation.
From stdpp Require Import base numbers gmap strings list pretty.

Local Open Scope string_scope.
Local Open Scope stdpp_scope.
Local Open Scope list_scope.

(** ** [types.ts] *)

Module ApiKey.
Record t := mk { id : string; name : string; key : string }.
End ApiKey.

Module SelectedKeyInfo.
Inductive Method := Assigned | Load_Balanced | None_.
Record t := mk { key : string; name : string; method : Method }.
(** the text of the string literal each method stands for *)
Definition method_text (m : Method) : string :=
  match m with
  | Assigned => "Assigned"
  | Load_Balanced => "Load Balanced"
  | None_ => "None"
  end.
End SelectedKeyInfo.

(** [PerceptionPlan extends MinionDiaryState]: the fields of both
    interfaces in one record.  The only diary values the service ever
    stores are plans. *)
Module PerceptionPlan.
Record OpinionUpdate := mkUpdate {
  participantName : string;
  newScore : Z;
  reasonForChange : string }.
Inductive Action := SPEAK | STAY_SILENT.
Record t := mk {
  perceptionAnalysis : string;
  opinionUpdates : list OpinionUpdate;
  finalOpinions : gmap string Z;
  selectedResponseMode : string;
  personalNotes : option string;
  action : Action;
  responsePlan : string;
  predictedResponseTime : Z }.
End PerceptionPlan.

Module MinionConfig.
Inductive Provider := google.
Record t := mk {
  id : string;
  name : string;
  provider : Provider;
  model_id : string;
  model_name : option string;
  system_prompt_persona : string;
  temperature : Qc;                      (* params.temperature *)
  apiKeyId : option string;
  opinionScores : gmap string Z;
  lastDiaryState : option PerceptionPlan.t;
  status : option string;
  currentTask : option string }.
(** [minion.opinionScores = scores] *)
Definition with_opinionScores (scores : gmap string Z) (m : t) : t :=
  mk (id m) (name m) (provider m) (model_id m) (model_name m) (system_prompt_persona m)
     (temperature m) (apiKeyId m) scores (lastDiaryState m) (status m) (currentTask m).
(** [minion.lastDiaryState = diary] *)
Definition with_lastDiaryState (diary : option PerceptionPlan.t) (m : t) : t :=
  mk (id m) (name m) (provider m) (model_id m) (model_name m) (system_prompt_persona m)
     (temperature m) (apiKeyId m) (opinionScores m) diary (status m) (currentTask m).
(** [minion.apiKeyId = pin] *)
Definition with_apiKeyId (pin : option string) (m : t) : t :=
  mk (id m) (name m) (provider m) (model_id m) (model_name m) (system_prompt_persona m)
     (temperature m) pin (opinionScores m) (lastDiaryState m) (status m) (currentTask m).
End MinionConfig.

Inductive MessageSender := User | AI | System.

Module ChatMessageData.
Record t := mk {
  id : string;
  channelId : string;
  senderType : MessageSender;
  senderName : string;
  content : string;
  timestamp : Z;
  internalDiary : option PerceptionPlan.t;
  isError : option bool;
  replyToMessageId : option string;
  isProcessing : option bool;
  isApiKeyLog : option bool }.
(** [{ ...m, content: newContent }] *)
Definition with_content (newContent : string) (m : t) : t :=
  mk (id m) (channelId m) (senderType m) (senderName m) newContent (timestamp m)
     (internalDiary m) (isError m) (replyToMessageId m) (isProcessing m) (isApiKeyLog m).
End ChatMessageData.

Module Channel.
Inductive ChannelType := user_minion_group | minion_minion_auto | system_log.
Inductive DelayType := fixed | random.
Record t := mk {
  id : string;
  name : string;
  description : option string;
  type : ChannelType;
  members : list string;
  isPrivate : option bool;
  isAutoModeActive : option bool;
  autoModeDelayType : option DelayType;
  autoModeFixedDelay : option Z;
  autoModeRandomDelay : option (Z * Z) }.
(** [c.members = ms] *)
Definition with_members (ms : list string) (c : t) : t :=
  mk (id c) (name c) (description c) (type c) ms (isPrivate c) (isAutoModeActive c)
     (autoModeDelayType c) (autoModeFixedDelay c) (autoModeRandomDelay c).
End Channel.

(** [ChannelPayload]: a channel without its id. *)
Module ChannelPayload.
Record t := mk {
  name : string;
  description : option string;
  type : Channel.ChannelType;
  members : list string;
  isPrivate : option bool;
  isAutoModeActive : option bool;
  autoModeDelayType : option Channel.DelayType;
  autoModeFixedDelay : option Z;
  autoModeRandomDelay : option (Z * Z) }.
End ChannelPayload.

(** One settled perception promise: [{ minion, plan, error }]. *)
Module PerceptionOutcome.
Record t := mk {
  minion : MinionConfig.t;
  plan : option PerceptionPlan.t;
  error : option string }.
End PerceptionOutcome.

(** ** The state of the class and of its surroundings *)

Record LegionApiService := mkService {
  minionConfigs : list MinionConfig.t;
  channels : list Channel.t;
  messages : gmap string (list ChatMessageData.t);
  apiKeys : list ApiKey.t;
  apiKeyRoundRobinIndex : nat }.

(** What the service does to the outside: the four observer callbacks of
    a batch and the two requests to the model client, each request
    labelled with the name of the minion it is made for. *)
Inductive Event :=
| onMinionResponse (message : ChatMessageData.t)
| onMinionResponseChunk (channelId messageId chunk : string)
| onMinionProcessingUpdate (minionName : string) (isProcessing : bool)
| onSystemMessage (message : ChatMessageData.t)
| callGeminiApiForJson_request (minionName prompt model : string) (temperature : Qc) (apiKey : string)
| callGeminiAPIStream_request (minionName prompt model : string) (temperature : Qc) (apiKey : string).

Record World := mkWorld {
  this : LegionApiService;
  localStorage : gmap string string;
  observed : list Event;            (* oldest first *)
  clock : nat;                      (* readings of Date.now() so far *)
  requests : nat }.                 (* requests to the model so far *)

Inductive Exception :=
| Error (message : string)
| TypeError (message : string).

Inductive Result (A : Type) :=
| Ok (a : A)
| Throw (e : Exception).
Arguments Ok {A} a.
Arguments Throw {A} e.

(** A method body: it may change the world and either returns or throws;
    what it did before throwing stays done. *)
Definition M (A : Type) : Type := World → Result A * World.

Global Instance M_ret : MRet M := λ A a w, (Ok a, w).
Global Instance M_bind : MBind M := λ A B f m w,
  match m w with
  | (Ok a, w') => f a w'
  | (Throw e, w') => (Throw e, w')
  end.

Definition throw {A} (e : Exception) : M A := λ w, (Throw e, w).
Definition get_this : M LegionApiService := λ w, (Ok (this w), w).
Definition set_this (s : LegionApiService) : M unit := λ w,
  (Ok tt, mkWorld s (localStorage w) (observed w) (clock w) (requests w)).
Definition emit (e : Event) : M unit := λ w,
  (Ok tt, mkWorld (this w) (localStorage w) (observed w ++ [e]) (clock w) (requests w)).

(** [xs.forEach(f)] and [xs.map(f)] with an effectful callback. *)
Fixpoint forEach {A} (f : A → M unit) (xs : list A) : M unit :=
  match xs with
  | [] => mret tt
  | x :: xs' => _ ← f x; forEach f xs'
  end.

Fixpoint mapM {A B} (f : A → M B) (xs : list A) : M (list B) :=
  match xs with
  | [] => mret []
  | x :: xs' => y ← f x; ys ← mapM f xs'; mret (y :: ys)
  end.

Fixpoint foldM {A B} (f : B → A → M B) (b : B) (xs : list A) : M B :=
  match xs with
  | [] => mret b
  | x :: xs' => b' ← f b x; foldM f b' xs'
  end.

(** [xs.findIndex(p)], [None] for -1 *)
Fixpoint findIndex {A} (p : A → bool) (xs : list A) : option nat :=
  match xs with
  | [] => None
  | x :: xs' => if p x then Some 0%nat else S <$> findIndex p xs'
  end.

(** [xs.sort(compareFn)]: the sort of the language is stable; elements
    that compare equal keep their order. *)
Fixpoint sort_insert {A} (compareFn : A → A → Z) (x : A) (xs : list A) : list A :=
  match xs with
  | [] => [x]
  | y :: xs' => if (compareFn x y <=? 0)%Z then x :: y :: xs'
                else y :: sort_insert compareFn x xs'
  end.
Fixpoint Array_sort {A} (compareFn : A → A → Z) (xs : list A) : list A :=
  match xs with
  | [] => []
  | x :: xs' => sort_insert compareFn x (Array_sort compareFn xs')
  end.

(** [lines.join('\n')] *)
Definition newline : string := String (Ascii.ascii_of_nat 10) EmptyString.
Fixpoint join (sep : string) (lines : list string) : string :=
  match lines with
  | [] => EmptyString
  | [l] => l
  | l :: ls => l +:+ sep +:+ join sep ls
  end.

(** JavaScript truthiness of a string and of an optional string. *)
Definition truthy (s : string) : bool := negb (bool_decide (s = EmptyString)).
Definition truthy_opt (o : option string) : bool :=
  match o with Some s => truthy s | None => false end.

(** Field updates of the service record. *)
Definition with_minionConfigs (ms : list MinionConfig.t) (s : LegionApiService) :=
  mkService ms (channels s) (messages s) (apiKeys s) (apiKeyRoundRobinIndex s).
Definition with_channels (cs : list Channel.t) (s : LegionApiService) :=
  mkService (minionConfigs s) cs (messages s) (apiKeys s) (apiKeyRoundRobinIndex s).
Definition with_messages (ms : gmap string (list ChatMessageData.t)) (s : LegionApiService) :=
  mkService (minionConfigs s) (channels s) ms (apiKeys s) (apiKeyRoundRobinIndex s).
Definition with_apiKeys (ks : list ApiKey.t) (s : LegionApiService) :=
  mkService (minionConfigs s) (channels s) (messages s) ks (apiKeyRoundRobinIndex s).
Definition with_apiKeyRoundRobinIndex (i : nat) (s : LegionApiService) :=
  mkService (minionConfigs s) (channels s) (messages s) (apiKeys s) i.

(** [this.messages[channelId] || []] *)
Definition messages_of (s : LegionApiService) (channelId : string) : list ChatMessageData.t :=
  default [] (messages s !! channelId).

(** ** The surroundings: clock, JSON, prompt templates, model client *)

(** [JSON.stringify] and [JSON.parse] at one type.  [JSON_parse text] is
    [Some v] where [JSON.parse] reads [text] as a value of the shape of
    [T], and [None] where [JSON.parse] throws.  A text that [JSON.parse]
    reads as a value of another shape (the text [null] where an array is
    expected, say) has no counterpart at the type: the code goes on with
    that value and may throw a [TypeError] later.  What is said of
    reading the store is therefore said of entries that are absent, that
    [JSON.parse] rejects, or that hold a value of the expected shape. *)
Class Json (T : Type) := {
  JSON_stringify : T → string;
  JSON_parse : string → option T }.

(** What [callGeminiApiForJson] resolves to. *)
Module PerceptionReply.
Record t := mk { plan : option PerceptionPlan.t; error : option string }.
End PerceptionReply.

(** How a stream of the model ends. *)
Inductive StreamEnd :=
| stream_complete
| stream_throws (message : string).

(** The calls [callGeminiAPIStream] makes to its two callbacks. *)
Inductive StreamCallback :=
| onStreamChunk (chunkText : string) (isFinal : bool)
| onError (errorMessage : string).

(** Everything the service cannot decide itself.  The clock is read by
    position ([Date_now n] is reading number [n]); the model answers
    request number [n] with a reply that may depend on all it is sent.
    The two prompt templates of [constants.ts] take the values that the
    source hands them through [JSON.stringify]. *)
Record Environment := mkEnv {
  Date_now : nat → Z;
  PERCEPTION_AND_PLANNING_PROMPT_TEMPLATE :
    string → string → option PerceptionPlan.t → gmap string Z →
    string → string → Channel.ChannelType → string;
  RESPONSE_GENERATION_PROMPT_TEMPLATE :
    string → string → string → PerceptionPlan.t → string;
  generateContent : nat → string → string → Qc → string → PerceptionReply.t;
  generateContentStream : nat → string → string → Qc → string → list string * StreamEnd }.

Section Service.

Context (env : Environment).
Context {json_minions : Json (list MinionConfig.t)}.
Context {json_channels : Json (list Channel.t)}.
Context {json_messages : Json (gmap string (list ChatMessageData.t))}.
Context {json_apiKeys : Json (list ApiKey.t)}.

(** [Date.now()] *)
Definition now : M Z := λ w,
  (Ok (Date_now env (clock w)),
   mkWorld (this w) (localStorage w) (observed w) (S (clock w)) (requests w)).

(** The number of the next request to the model. *)
Definition next_request : M nat := λ w,
  (Ok (requests w),
   mkWorld (this w) (localStorage w) (observed w) (clock w) (S (requests w))).

Definition localStorage_setItem (key value : string) : M unit := λ w,
  (Ok tt, mkWorld (this w) (<[key := value]> (localStorage w)) (observed w) (clock w) (requests w)).
Definition localStorage_removeItem (key : string) : M unit := λ w,
  (Ok tt, mkWorld (this w) (delete key (localStorage w)) (observed w) (clock w) (requests w)).
Definition localStorage_getItem (key : string) : M (option string) := λ w,
  (Ok (localStorage w !! key), w).

(** *** Storage helpers (lines 17-39) *)

Definition getStoredData {T} `{Json T} (key : string) (defaultValue : T) : M T :=
  saved ← localStorage_getItem key;
  match saved with
  | None => mret defaultValue
  | Some saved =>
    if bool_decide (saved = "undefined") then mret defaultValue
    else match JSON_parse saved with
         | Some v => mret v
         | None =>
           t ← now;
           _ ← localStorage_setItem (key +:+ "_corrupted_" +:+ pretty t) saved;
           _ ← localStorage_removeItem key;
           mret defaultValue
         end
  end.

Definition setStoredData {T} `{Json T} (key : string) (data : T) : M unit :=
  localStorage_setItem key (JSON_stringify data).

Definition LEGION_COMMANDER_NAME : string := "Steven".
Definition MINION_CONFIGS_STORAGE_KEY : string := "gemini_legion_minion_configs_v3".
Definition CHAT_HISTORY_STORAGE_KEY : string := "gemini_legion_chat_history_v3".
Definition CHANNELS_STORAGE_KEY : string := "gemini_legion_channels_v4".
Definition API_KEYS_STORAGE_KEY : string := "gemini_legion_api_keys_v1".

Definition saveState : M unit :=
  s ← get_this;
  _ ← setStoredData MINION_CONFIGS_STORAGE_KEY (minionConfigs s);
  _ ← setStoredData CHANNELS_STORAGE_KEY (channels s);
  _ ← setStoredData CHAT_HISTORY_STORAGE_KEY (messages s);
  setStoredData API_KEYS_STORAGE_KEY (apiKeys s).

(** *** The constructor (lines 58-77)

    The four collections are read at their types; see [Json] for the
    entries this covers. *)

Definition getInitialChannels (minions : list MinionConfig.t) : list Channel.t :=
  [ Channel.mk "general" "#general" (Some "General discussion with all Minions.")
      Channel.user_minion_group (LEGION_COMMANDER_NAME :: (MinionConfig.name <$> minions))
      None None None None None;
    Channel.mk "legion_ops_log" "#legion_ops_log" (Some "Automated Legion operational logs.")
      Channel.system_log [] None None None None None ].

Definition constructor : M unit :=
  minions ← getStoredData MINION_CONFIGS_STORAGE_KEY [];
  chans ← getStoredData CHANNELS_STORAGE_KEY (getInitialChannels minions);
  msgs ← getStoredData CHAT_HISTORY_STORAGE_KEY (∅ : gmap string (list ChatMessageData.t));
  keys ← getStoredData API_KEYS_STORAGE_KEY [];
  msgs ← (match msgs !! "legion_ops_log" with
          | Some _ => mret msgs
          | None =>
            t1 ← now;
            t2 ← now;
            mret (<["legion_ops_log" :=
                     [ChatMessageData.mk ("sys-init-" +:+ pretty t1) "legion_ops_log" System
                        "LegionOS" "Legion Command Interface Initialized." t2
                        None None None None None]]> msgs)
          end);
  set_this (mkService minions chans msgs keys 0).

(** *** API key management (lines 87-132) *)

Definition getApiKeys : M (list ApiKey.t) :=
  s ← get_this; mret (apiKeys s).

(** [s.trim()] on a string of ASCII characters: the white space removed
    is that of ASCII (space and the codes 9 to 13).  [String.prototype.trim]
    also removes the white space beyond ASCII (U+00A0, U+FEFF, U+2028 and
    the like); a statement that says a string is kept after trimming is
    therefore made for [ascii_only] strings. *)
Definition is_space (c : Ascii.ascii) : bool :=
  let n := Ascii.nat_of_ascii c in
  bool_decide (n = 32%nat) || (bool_decide (9 ≤ n)%nat && bool_decide (n ≤ 13)%nat).
Fixpoint trim_start (s : string) : string :=
  match s with
  | String c s' => if is_space c then trim_start s' else s
  | EmptyString => EmptyString
  end.
Fixpoint trim_end (s : string) : string :=
  match s with
  | String c s' =>
    match trim_end s' with
    | EmptyString => if is_space c then EmptyString else String c EmptyString
    | t => String c t
    end
  | EmptyString => EmptyString
  end.
Definition trim (s : string) : string := trim_end (trim_start s).

Definition addApiKey (name key : string) : M unit :=
  if negb (truthy (trim name)) || negb (truthy (trim key))
  then throw (Error "API Key and Name cannot be empty.")
  else
    t ← now;
    s ← get_this;
    _ ← set_this (with_apiKeys (apiKeys s ++ [ApiKey.mk ("key-" +:+ pretty t) name key]) s);
    saveState.

Definition clear_pin (id : string) (minion : MinionConfig.t) : MinionConfig.t :=
  if bool_decide (MinionConfig.apiKeyId minion = Some id)
  then MinionConfig.with_apiKeyId None minion
  else minion.

Definition deleteApiKey (id : string) : M unit :=
  s ← get_this;
  _ ← set_this (with_minionConfigs (clear_pin id <$> minionConfigs s) s);
  s ← get_this;
  _ ← set_this (with_apiKeys (filter (λ k, ApiKey.id k ≠ id) (apiKeys s)) s);
  saveState.

(** [this.apiKeys.find(k => k.id === id)] *)
Definition find_key (id : string) (keys : list ApiKey.t) : option ApiKey.t :=
  List.find (λ k, bool_decide (ApiKey.id k = id)) keys.

(** The pin in effect: [minion?.apiKeyId] when it is truthy and names a
    key of the pool. *)
Definition pinned_key (minion : option MinionConfig.t) (keys : list ApiKey.t) : option ApiKey.t :=
  match minion with
  | Some m =>
    match MinionConfig.apiKeyId m with
    | Some id => if truthy id then find_key id keys else None
    | None => None
    end
  | None => None
  end.

(** Lines 109-120.  The cursor is advanced before the fields of the
    chosen key are read, so a cursor beyond the pool first moves and
    then raises the [TypeError] of reading a field of [undefined]. *)
Definition _selectApiKey (minion : option MinionConfig.t) : M SelectedKeyInfo.t :=
  s ← get_this;
  match pinned_key minion (apiKeys s) with
  | Some specificKey =>
    mret (SelectedKeyInfo.mk (ApiKey.key specificKey) (ApiKey.name specificKey)
            SelectedKeyInfo.Assigned)
  | None =>
    if bool_decide (0 < length (apiKeys s))%nat then
      let keyInfo := apiKeys s !! apiKeyRoundRobinIndex s in
      _ ← set_this (with_apiKeyRoundRobinIndex
                      ((apiKeyRoundRobinIndex s + 1) mod length (apiKeys s))%nat s);
      match keyInfo with
      | Some keyInfo =>
        mret (SelectedKeyInfo.mk (ApiKey.key keyInfo) (ApiKey.name keyInfo)
                SelectedKeyInfo.Load_Balanced)
      | None => throw (TypeError "Cannot read properties of undefined (reading 'key')")
      end
    else mret (SelectedKeyInfo.mk EmptyString "N/A" SelectedKeyInfo.None_)
  end.

(** [`${minionName} is using key '${keyInfo.name}' (${keyInfo.method})
    for ${stage}.`] *)
Definition key_log_text (minionName : string) (keyInfo : SelectedKeyInfo.t)
    (stage : string) : string :=
  minionName +:+ " is using key '" +:+ SelectedKeyInfo.name keyInfo +:+ "' (" +:+
  SelectedKeyInfo.method_text (SelectedKeyInfo.method keyInfo) +:+ ") for " +:+
  stage +:+ ".".

Definition _createApiKeyLogMessage (channelId minionName : string)
    (keyInfo : SelectedKeyInfo.t) (stage : string) : M ChatMessageData.t :=
  t1 ← now;
  t2 ← now;
  mret (ChatMessageData.mk ("sys-keylog-" +:+ minionName +:+ "-" +:+ pretty t1)
          channelId System "System" (key_log_text minionName keyInfo stage)
          t2 None None None None (Some true)).

(** *** Minion management (lines 135-181)

    Opinion maps are values here.  In the source the map of a minion, the
    [finalOpinions] of its last plan and the [finalOpinions] of the
    [internalDiary] of the message stored with that plan are one object
    after [updateMinionState], so that the assignment in place of
    [addMinion] and the [delete] of [deleteMinion] reach the plan as
    well.  That sharing is not tracked.  What is stated of the state
    after a creation or a removal therefore leaves out the diaries of
    the minions that remain and of the stored messages ([forget_diary],
    [forget_internalDiary]); the maps of opinions themselves, and all
    else, are as in the source. *)

Definition getMinions : M (list MinionConfig.t) :=
  s ← get_this; mret (minionConfigs s).


(** [delete minion.opinionScores[name]] *)
Definition delete_opinion (name : string) (minion : MinionConfig.t) : MinionConfig.t :=
  MinionConfig.with_opinionScores (delete name (MinionConfig.opinionScores minion)) minion.


Definition updateMinion (updatedConfig : MinionConfig.t) : M MinionConfig.t :=
  s ← get_this;
  match findIndex (λ m, bool_decide (MinionConfig.id m = MinionConfig.id updatedConfig))
                  (minionConfigs s) with
  | None => throw (Error "Minion not found for update.")
  | Some index =>
    _ ← set_this (with_minionConfigs (<[index := updatedConfig]> (minionConfigs s)) s);
    _ ← saveState;
    mret updatedConfig
  end.

(** Lines 171-181.  As in [addMinion], the entry is deleted from the map
    as a value; an object that shares the map is not followed. *)
Definition deleteMinion (id : string) : M unit :=
  s ← get_this;
  match List.find (λ m, bool_decide (MinionConfig.id m = id)) (minionConfigs s) with
  | None => mret tt
  | Some minionToDelete =>
    _ ← set_this (with_minionConfigs (filter (λ m, MinionConfig.id m ≠ id) (minionConfigs s)) s);
    s ← get_this;
    _ ← set_this (with_minionConfigs
                    (delete_opinion (MinionConfig.name minionToDelete) <$> minionConfigs s) s);
    s ← get_this;
    _ ← set_this (with_channels
                    ((λ c, Channel.with_members
                             (filter (λ name, name ≠ MinionConfig.name minionToDelete)
                                     (Channel.members c)) c) <$> channels s) s);
    saveState
  end.

(** *** Channel management (lines 184-214) *)

Definition getChannels : M (list Channel.t) :=
  s ← get_this; mret (channels s).

Definition addChannel (channelData : ChannelPayload.t) : M Channel.t :=
  t ← now;
  let newChannel :=
    Channel.mk ("channel-" +:+ pretty t) (ChannelPayload.name channelData)
      (Some (default EmptyString (ChannelPayload.description channelData)))
      (ChannelPayload.type channelData) (ChannelPayload.members channelData)
      (Some false) (Some false) (Some Channel.fixed) (Some 5%Z) (Some (3%Z, 10%Z)) in
  s ← get_this;
  _ ← set_this (with_channels (channels s ++ [newChannel]) s);
  s ← get_this;
  _ ← (match messages s !! Channel.id newChannel with
       | None => set_this (with_messages (<[Channel.id newChannel := []]> (messages s)) s)
       | Some _ => mret tt
       end);
  _ ← saveState;
  mret newChannel.

(** [{...existingChannel, ...updatedChannelData}]: a property the update
    carries replaces the existing one. *)
Definition spread {A} (existing updated : option A) : option A :=
  match updated with Some v => Some v | None => existing end.
Definition spread_channel (existingChannel updatedChannelData : Channel.t) : Channel.t :=
  Channel.mk (Channel.id updatedChannelData) (Channel.name updatedChannelData)
    (spread (Channel.description existingChannel) (Channel.description updatedChannelData))
    (Channel.type updatedChannelData) (Channel.members updatedChannelData)
    (spread (Channel.isPrivate existingChannel) (Channel.isPrivate updatedChannelData))
    (spread (Channel.isAutoModeActive existingChannel) (Channel.isAutoModeActive updatedChannelData))
    (spread (Channel.autoModeDelayType existingChannel) (Channel.autoModeDelayType updatedChannelData))
    (spread (Channel.autoModeFixedDelay existingChannel) (Channel.autoModeFixedDelay updatedChannelData))
    (spread (Channel.autoModeRandomDelay existingChannel) (Channel.autoModeRandomDelay updatedChannelData)).

Definition updateChannel (updatedChannelData : Channel.t) : M Channel.t :=
  s ← get_this;
  match findIndex (λ c, bool_decide (Channel.id c = Channel.id updatedChannelData)) (channels s) with
  | None => throw (Error "Channel not found for update.")
  | Some index =>
    let merged := match channels s !! index with
                  | Some existingChannel => spread_channel existingChannel updatedChannelData
                  | None => updatedChannelData
                  end in
    _ ← set_this (with_channels (<[index := merged]> (channels s)) s);
    _ ← saveState;
    mret merged
  end.

(** *** Message management (lines 217-219, 413-431) *)

Definition getMessages (channelId : string) : M (list ChatMessageData.t) :=
  s ← get_this; mret (messages_of s channelId).

Definition updateMinionState (minionId : string) (plan : PerceptionPlan.t) : M unit :=
  s ← get_this;
  match findIndex (λ m, bool_decide (MinionConfig.id m = minionId)) (minionConfigs s) with
  | Some minionIndex =>
    set_this (with_minionConfigs
                (alter (λ m, MinionConfig.with_lastDiaryState (Some plan)
                               (MinionConfig.with_opinionScores
                                  (PerceptionPlan.finalOpinions plan) m))
                       minionIndex (minionConfigs s)) s)
  | None => mret tt
  end.

Definition deleteMessage (channelId messageId : string) : M unit :=
  s ← get_this;
  _ ← set_this (with_messages
                  (<[channelId := filter (λ m, ChatMessageData.id m ≠ messageId)
                                         (messages_of s channelId)]> (messages s)) s);
  saveState.

Definition editMessage (channelId messageId newContent : string) : M unit :=
  s ← get_this;
  _ ← set_this (with_messages
                  (<[channelId := (λ m, if bool_decide (ChatMessageData.id m = messageId)
                                        then ChatMessageData.with_content newContent m
                                        else m) <$> messages_of s channelId]> (messages s)) s);
  saveState.

(** *** [formatChatHistoryForLLM] of [constants.ts] *)

Definition senderPrefix (msg : ChatMessageData.t) : string :=
  match ChatMessageData.senderType msg with
  | User => "[COMMANDER " +:+ ChatMessageData.senderName msg +:+ "]"
  | AI => "[MINION " +:+ ChatMessageData.senderName msg +:+ "]"
  | System => "[" +:+ ChatMessageData.senderName msg +:+ "]"
  end.

Definition formatChatHistoryForLLM (messages : list ChatMessageData.t)
    (currentChannelId : string) : string :=
  let inChannel := filter (λ msg, ChatMessageData.channelId msg = currentChannelId) messages in
  let historyLines :=
    (λ msg, senderPrefix msg +:+ ": " +:+ ChatMessageData.content msg)
      <$> drop (length inChannel - 15) inChannel in
  if bool_decide (length historyLines = 0%nat)
  then "This is the beginning of the conversation in channel " +:+ currentChannelId +:+ "."
  else join newline historyLines.

(** *** The two entry points of [services/geminiService.ts]

    Each returns at once when it is given no key; otherwise it sends one
    request.  What the request comes back with is the environment's. *)

Definition callGeminiApiForJson (minionName prompt model : string) (temperature : Qc)
    (apiKey : string) : M PerceptionReply.t :=
  if negb (truthy apiKey)
  then mret (PerceptionReply.mk None (Some "API Key not provided for JSON API call."))
  else
    n ← next_request;
    _ ← emit (callGeminiApiForJson_request minionName prompt model temperature apiKey);
    mret (generateContent env n prompt model temperature apiKey).

Definition callGeminiAPIStream (minionName prompt model : string) (temperature : Qc)
    (apiKey : string) : M (list StreamCallback) :=
  if negb (truthy apiKey)
  then mret [onError "API Key not provided for streaming."]
  else
    n ← next_request;
    _ ← emit (callGeminiAPIStream_request minionName prompt model temperature apiKey);
    let '(chunks, ending) := generateContentStream env n prompt model temperature apiKey in
    mret (((λ chunkText, onStreamChunk chunkText false) <$> chunks) ++
          [match ending with
           | stream_complete => onStreamChunk EmptyString true
           | stream_throws message => onError ("Gemini API Stream Error: " +:+ message)
           end]).

(** *** The response stage (lines 363-411) *)

(** [this.messages[channelId] = (this.messages[channelId] || []).map(m =>
    m.id === messageId ? errorMsg : m)] *)
Definition replace_by_id (channelId messageId : string) (errorMsg : ChatMessageData.t) : M unit :=
  s ← get_this;
  set_this (with_messages
              (<[channelId := (λ m, if bool_decide (ChatMessageData.id m = messageId)
                                    then errorMsg else m) <$> messages_of s channelId]>
                 (messages s)) s).

(** One call of the stream client to a callback of [runStreamingResponse];
    [accumulatedContent] is the variable the callbacks close over. *)
Definition on_stream_callback (channelId messageId : string) (minion : MinionConfig.t)
    (plan : PerceptionPlan.t) (accumulatedContent : string) (cb : StreamCallback) : M string :=
  match cb with
  | onStreamChunk chunk false =>
    _ ← emit (onMinionResponseChunk channelId messageId chunk);
    mret (accumulatedContent +:+ chunk)
  | onStreamChunk _ true =>
    let finalContent := trim accumulatedContent in
    t ← now;
    let finalMessage :=
      ChatMessageData.mk messageId channelId AI (MinionConfig.name minion) finalContent t
        (Some plan) None None (Some false) None in
    _ ← emit (onMinionResponse finalMessage);
    _ ← updateMinionState (MinionConfig.id minion) plan;
    s ← get_this;
    let existingMessages := messages_of s channelId in
    let updated :=
      match findIndex (λ m, bool_decide (ChatMessageData.id m = messageId)) existingMessages with
      | Some msgIndex => <[msgIndex := finalMessage]> existingMessages
      | None => existingMessages ++ [finalMessage]
      end in
    _ ← set_this (with_messages (<[channelId := updated]> (messages s)) s);
    mret accumulatedContent
  | onError errorMessage =>
    t ← now;
    let errorMsg :=
      ChatMessageData.mk messageId channelId AI (MinionConfig.name minion)
        ("Error: " +:+ errorMessage) t None (Some true) None (Some false) None in
    _ ← emit (onMinionResponse errorMsg);
    _ ← replace_by_id channelId messageId errorMsg;
    mret accumulatedContent
  end.

Definition runStreamingResponse (channelId messageId : string) (minion : MinionConfig.t)
    (plan : PerceptionPlan.t) (prompt : string) (keyInfo : SelectedKeyInfo.t) : M unit :=
  if negb (truthy (SelectedKeyInfo.key keyInfo)) then
    t ← now;
    let errorMsg :=
      ChatMessageData.mk messageId channelId AI (MinionConfig.name minion)
        "Error: No API key available for response generation." t None (Some true) None
        (Some false) None in
    _ ← emit (onMinionResponse errorMsg);
    replace_by_id channelId messageId errorMsg
  else
    callbacks ← callGeminiAPIStream (MinionConfig.name minion) prompt
                  (MinionConfig.model_id minion) (MinionConfig.temperature minion)
                  (SelectedKeyInfo.key keyInfo);
    _ ← foldM (on_stream_callback channelId messageId minion plan) EmptyString callbacks;
    mret tt.

(** *** A batch triggered by the commander (lines 221-293) *)

(** [this.minionConfigs.filter(minion =>
    activeChannel.members.includes(minion.name))] (lines 231 and 305) *)
Definition minionsInChannel_of (activeChannel : Channel.t) (s : LegionApiService)
    : list MinionConfig.t :=
  filter (λ minion, MinionConfig.name minion ∈ Channel.members activeChannel)
         (minionConfigs s).

(** A system notice: [{ id, channelId, senderType: System, senderName:
    'System', content, timestamp, isError }], the id and the timestamp
    each from a reading of the clock. *)
Definition system_notice (idPrefix channelId content : string) (isError : option bool)
    : M ChatMessageData.t :=
  t1 ← now;
  t2 ← now;
  mret (ChatMessageData.mk (idPrefix +:+ pretty t1) channelId System "System" content t2
          None isError None None None).

(** The callback of [minionsInChannel.map] (lines 237-249). *)
Definition handleUserMessage_perception (channelId initialChatHistory : string)
    (userMessage : ChatMessageData.t) (activeChannel : Channel.t)
    (minion : MinionConfig.t) : M PerceptionOutcome.t :=
  keyInfo ← _selectApiKey (Some minion);
  log ← _createApiKeyLogMessage channelId (MinionConfig.name minion) keyInfo "Perception";
  _ ← emit (onSystemMessage log);
  if negb (truthy (SelectedKeyInfo.key keyInfo))
  then mret (PerceptionOutcome.mk minion None (Some "No API key available."))
  else
    let perceptionPrompt :=
      PERCEPTION_AND_PLANNING_PROMPT_TEMPLATE env (MinionConfig.name minion)
        (MinionConfig.system_prompt_persona minion) (MinionConfig.lastDiaryState minion)
        (MinionConfig.opinionScores minion) initialChatHistory
        (ChatMessageData.senderName userMessage) (Channel.type activeChannel) in
    reply ← callGeminiApiForJson (MinionConfig.name minion) perceptionPrompt
              (MinionConfig.model_id minion) (MinionConfig.temperature minion)
              (SelectedKeyInfo.key keyInfo);
    mret (PerceptionOutcome.mk minion (PerceptionReply.plan reply) (PerceptionReply.error reply)).

(** The plan of an outcome the batch goes on with: [error || !plan]
    sends every other outcome to the diagnostic. *)
Definition usable_plan (r : PerceptionOutcome.t) : option PerceptionPlan.t :=
  if truthy_opt (PerceptionOutcome.error r) then None else PerceptionOutcome.plan r.

(** The body of the loop over the settled outcomes (lines 254-265). *)
Definition handleUserMessage_outcome (channelId : string)
    (minionsWhoWillSpeak : list (MinionConfig.t * PerceptionPlan.t))
    (r : PerceptionOutcome.t) : M (list (MinionConfig.t * PerceptionPlan.t)) :=
  let minion := PerceptionOutcome.minion r in
  match usable_plan r with
  | None =>
    notice ← system_notice ("sys-err-" +:+ MinionConfig.id minion +:+ "-") channelId
               ("Error during " +:+ MinionConfig.name minion +:+ "'s perception stage: " +:+
                (if truthy_opt (PerceptionOutcome.error r)
                 then default EmptyString (PerceptionOutcome.error r)
                 else "No plan returned."))
               (Some true);
    _ ← emit (onSystemMessage notice);
    mret minionsWhoWillSpeak
  | Some plan =>
    _ ← updateMinionState (MinionConfig.id minion) plan;
    match PerceptionPlan.action plan with
    | PerceptionPlan.SPEAK => mret (minionsWhoWillSpeak ++ [(minion, plan)])
    | PerceptionPlan.STAY_SILENT =>
      notice ← system_notice ("sys-silent-" +:+ MinionConfig.id minion +:+ "-") channelId
                 (MinionConfig.name minion +:+ " chose to remain silent.") None;
      _ ← emit (onSystemMessage notice);
      mret minionsWhoWillSpeak
    end
  end.

(** [(a, b) => a.plan.predictedResponseTime - b.plan.predictedResponseTime] *)
Definition by_predictedResponseTime (a b : MinionConfig.t * PerceptionPlan.t) : Z :=
  (PerceptionPlan.predictedResponseTime a.2 - PerceptionPlan.predictedResponseTime b.2)%Z.

(** The body of the loop over the speakers (lines 277-291); it returns
    the next [dynamicChatHistory]. *)
Definition handleUserMessage_speaker (channelId dynamicChatHistory : string)
    (speaker : MinionConfig.t * PerceptionPlan.t) : M string :=
  let '(minion, plan) := speaker in
  t1 ← now;
  let tempMessageId := "ai-" +:+ MinionConfig.id minion +:+ "-" +:+ pretty t1 in
  t2 ← now;
  let tempStreamingMessage :=
    ChatMessageData.mk tempMessageId channelId AI (MinionConfig.name minion) EmptyString t2
      None None None (Some true) None in
  _ ← emit (onMinionResponse tempStreamingMessage);
  let responseGenPrompt :=
    RESPONSE_GENERATION_PROMPT_TEMPLATE env (MinionConfig.name minion)
      (MinionConfig.system_prompt_persona minion) dynamicChatHistory plan in
  keyInfo ← _selectApiKey (Some minion);
  log ← _createApiKeyLogMessage channelId (MinionConfig.name minion) keyInfo "Response";
  _ ← emit (onSystemMessage log);
  _ ← runStreamingResponse channelId tempMessageId minion plan responseGenPrompt keyInfo;
  s ← get_this;
  let finalMessage :=
    List.find (λ m, bool_decide (ChatMessageData.id m = tempMessageId)) (messages_of s channelId) in
  _ ← emit (onMinionProcessingUpdate (MinionConfig.name minion) false);
  mret (match finalMessage with
        | Some m => dynamicChatHistory +:+ newline +:+ "[MINION " +:+ MinionConfig.name minion
                      +:+ "]: " +:+ ChatMessageData.content m
        | None => dynamicChatHistory
        end).

(** Lines 235-251: every minion of the channel is marked as processing
    and perceives; the batch goes on when all perceptions have settled. *)
Definition handleUserMessage_perceive (channelId initialChatHistory : string)
    (userMessage : ChatMessageData.t) (activeChannel : Channel.t)
    (minionsInChannel : list MinionConfig.t) : M (list PerceptionOutcome.t) :=
  _ ← forEach (λ m, emit (onMinionProcessingUpdate (MinionConfig.name m) true))
              minionsInChannel;
  mapM (handleUserMessage_perception channelId initialChatHistory userMessage activeChannel)
       minionsInChannel.

(** Lines 252-292: what the batch does with the settled perceptions. *)
Definition handleUserMessage_schedule (channelId initialChatHistory : string)
    (minionsInChannel : list MinionConfig.t)
    (perceptionResults : list PerceptionOutcome.t) : M unit :=
  minionsWhoWillSpeak ← foldM (handleUserMessage_outcome channelId) [] perceptionResults;
  _ ← forEach (λ m,
         if existsb (λ speaker : MinionConfig.t * PerceptionPlan.t,
                       bool_decide (MinionConfig.id speaker.1 = MinionConfig.id m))
                    minionsWhoWillSpeak
         then mret tt
         else emit (onMinionProcessingUpdate (MinionConfig.name m) false))
       minionsInChannel;
  let sorted := Array_sort by_predictedResponseTime minionsWhoWillSpeak in
  _ ← foldM (handleUserMessage_speaker channelId) initialChatHistory sorted;
  saveState.

Definition handleUserMessage (channelId : string) (userMessage : ChatMessageData.t) : M unit :=
  s ← get_this;
  _ ← set_this (with_messages
                  (<[channelId := messages_of s channelId ++ [userMessage]]> (messages s)) s);
  s ← get_this;
  match List.find (λ c, bool_decide (Channel.id c = channelId)) (channels s) with
  | None => mret tt
  | Some activeChannel =>
    let minionsInChannel := minionsInChannel_of activeChannel s in
    if bool_decide (length minionsInChannel = 0%nat) then mret tt
    else
      let initialChatHistory := formatChatHistoryForLLM (messages_of s channelId) channelId in
      perceptionResults ←
        handleUserMessage_perceive channelId initialChatHistory userMessage activeChannel
          minionsInChannel;
      handleUserMessage_schedule channelId initialChatHistory minionsInChannel
        perceptionResults
  end.

(** *** An autonomous batch (lines 295-361) *)

(** The callback of [minionsInChannel.map] (lines 318-327). *)
Definition triggerNextAutoChatTurn_perception (channelId chatHistory : string)
    (lastMessage : ChatMessageData.t) (activeChannel : Channel.t)
    (minion : MinionConfig.t) : M PerceptionOutcome.t :=
  if bool_decide (MinionConfig.name minion = ChatMessageData.senderName lastMessage)
  then mret (PerceptionOutcome.mk minion None (Some "Cannot respond to self."))
  else
    keyInfo ← _selectApiKey (Some minion);
    log ← _createApiKeyLogMessage channelId (MinionConfig.name minion) keyInfo "Perception";
    _ ← emit (onSystemMessage log);
    if negb (truthy (SelectedKeyInfo.key keyInfo))
    then mret (PerceptionOutcome.mk minion None (Some "No API key available."))
    else
      let prompt :=
        PERCEPTION_AND_PLANNING_PROMPT_TEMPLATE env (MinionConfig.name minion)
          (MinionConfig.system_prompt_persona minion) (MinionConfig.lastDiaryState minion)
          (MinionConfig.opinionScores minion) chatHistory
          (ChatMessageData.senderName lastMessage) (Channel.type activeChannel) in
      reply ← callGeminiApiForJson (MinionConfig.name minion) prompt
                (MinionConfig.model_id minion) (MinionConfig.temperature minion)
                (SelectedKeyInfo.key keyInfo);
      mret (PerceptionOutcome.mk minion (PerceptionReply.plan reply) (PerceptionReply.error reply)).

(** [results.filter(r => !!r.plan && r.plan.action === 'SPEAK')], each
    kept outcome with its plan. *)
Definition speaking (results : list PerceptionOutcome.t)
    : list (MinionConfig.t * PerceptionPlan.t) :=
  omap (λ r, match PerceptionOutcome.plan r with
             | Some plan =>
               match PerceptionPlan.action plan with
               | PerceptionPlan.SPEAK => Some (PerceptionOutcome.minion r, plan)
               | PerceptionPlan.STAY_SILENT => None
               end
             | None => None
             end) results.

Definition ALL_SILENT_NOTICE : string := "All minions chose to remain silent this turn.".

(** Lines 316-329: every minion of the channel is marked as processing
    and perceives; the batch goes on when all perceptions have settled. *)
Definition triggerNextAutoChatTurn_perceive (channelId chatHistory : string)
    (lastMessage : ChatMessageData.t) (activeChannel : Channel.t)
    (minionsInChannel : list MinionConfig.t) : M (list PerceptionOutcome.t) :=
  _ ← forEach (λ m, emit (onMinionProcessingUpdate (MinionConfig.name m) true))
              minionsInChannel;
  mapM (triggerNextAutoChatTurn_perception channelId chatHistory lastMessage activeChannel)
       minionsInChannel.

(** Lines 330-360: what the batch does with the settled perceptions. *)
Definition triggerNextAutoChatTurn_schedule (channelId chatHistory : string)
    (minionsInChannel : list MinionConfig.t) (results : list PerceptionOutcome.t) : M unit :=
  let speakers := Array_sort by_predictedResponseTime (speaking results) in
  _ ← forEach (λ m, emit (onMinionProcessingUpdate (MinionConfig.name m) false))
              minionsInChannel;
  match head speakers with
  | None =>
    notice ← system_notice "sys-auto-silent-" channelId ALL_SILENT_NOTICE None;
    _ ← emit (onSystemMessage notice);
    saveState
  | Some (minion, plan) =>
    _ ← emit (onMinionProcessingUpdate (MinionConfig.name minion) true);
    t1 ← now;
    let tempMessageId := "ai-" +:+ MinionConfig.id minion +:+ "-" +:+ pretty t1 in
    t2 ← now;
    let placeholderMessage :=
      ChatMessageData.mk tempMessageId channelId AI (MinionConfig.name minion)
        EmptyString t2 None None None (Some true) None in
    _ ← emit (onMinionResponse placeholderMessage);
    let responsePrompt :=
      RESPONSE_GENERATION_PROMPT_TEMPLATE env (MinionConfig.name minion)
        (MinionConfig.system_prompt_persona minion) chatHistory plan in
    keyInfo ← _selectApiKey (Some minion);
    log ← _createApiKeyLogMessage channelId (MinionConfig.name minion) keyInfo "Response";
    _ ← emit (onSystemMessage log);
    _ ← runStreamingResponse channelId tempMessageId minion plan responsePrompt keyInfo;
    _ ← emit (onMinionProcessingUpdate (MinionConfig.name minion) false);
    saveState
  end.

Definition triggerNextAutoChatTurn (channelId : string) : M unit :=
  s ← get_this;
  match List.find (λ c, bool_decide (Channel.id c = channelId)) (channels s) with
  | None => mret tt
  | Some activeChannel =>
    if negb (bool_decide (Channel.isAutoModeActive activeChannel = Some true)) then mret tt
    else
      let minionsInChannel := minionsInChannel_of activeChannel s in
      if bool_decide (length minionsInChannel < 2)%nat then
        notice ← system_notice "sys-auto-err-" channelId
                   "Auto-mode paused. Requires at least 2 minions in the channel." None;
        emit (onSystemMessage notice)
      else
        let currentMessages := messages_of s channelId in
        let chatHistory := formatChatHistoryForLLM currentMessages channelId in
        match last currentMessages with
        | None => mret tt
        | Some lastMessage =>
          results ←
            triggerNextAutoChatTurn_perceive channelId chatHistory lastMessage activeChannel
              minionsInChannel;
          triggerNextAutoChatTurn_schedule channelId chatHistory minionsInChannel results
        end
  end.

End Service.

(** ** Concrete surroundings and states, used to run the model *)

(** JSON at [bool]: the two literals. *)
Definition json_bool : Json bool := {|
  JSON_stringify := λ b : bool, if b then "true" else "false";
  JSON_parse := λ s : string, if bool_decide (s = "true") then Some true
                     else if bool_decide (s = "false") then Some false else None |}.

(** A serialisation that keeps nothing; the statements below do not
    read what [saveState] writes. *)
Definition json_blank (T : Type) : Json T := {|
  JSON_stringify := λ _ : T, "null";
  JSON_parse := λ _ : string, None |}.

Definition plan_with (scores : gmap string Z) (action : PerceptionPlan.Action)
    (predictedResponseTime : Z) : PerceptionPlan.t :=
  PerceptionPlan.mk "analysis" [] scores "Neutral" None action "plan" predictedResponseTime.

Definition minion_named (name : string) (pin : option string) : MinionConfig.t :=
  MinionConfig.mk ("id-" +:+ name) name MinionConfig.google "gemini-2.5-flash" None
    "persona" (Q2Qc 1) pin ∅ None (Some "Idle") None.

Definition empty_service : LegionApiService := mkService [] [] ∅ [] 0.
Definition world_of (s : LegionApiService) : World := mkWorld s ∅ [] 0 0.

(** A clock that ticks once per reading and a model that is silent. *)
Definition env_silent : Environment :=
  mkEnv (λ n, Z.of_nat n)
        (λ _ _ _ _ _ _ _, "perceive")
        (λ _ _ _ _, "respond")
        (λ _ _ _ _ _, PerceptionReply.mk
                        (Some (plan_with {[ "Steven" := 70%Z ]} PerceptionPlan.STAY_SILENT 100))
                        None)
        (λ _ _ _ _ _, (["Hello "; "there. "], stream_complete)).

Definition key_a : ApiKey.t := ApiKey.mk "key-1" "first" "SECRET-A".
Definition key_b : ApiKey.t := ApiKey.mk "key-2" "second" "SECRET-B".
Definition key_c : ApiKey.t := ApiKey.mk "key-3" "third" "SECRET-C".

(** [k] selections with no minion given, one after the other. *)
Definition select_times (k : nat) : M (list SelectedKeyInfo.t) :=
  mapM (λ _ : unit, _selectApiKey None) (replicate k tt).

Definition load_balanced (k : ApiKey.t) : SelectedKeyInfo.t :=
  SelectedKeyInfo.mk (ApiKey.key k) (ApiKey.name k) SelectedKeyInfo.Load_Balanced.

(** Three keys, two selections, then the third key is deleted: the
    cursor stays at 2 over a pool of 2. *)
Definition pool_after_delete : M unit :=
  _ ← set_this (mkService [] [] ∅ [key_a; key_b; key_c] 0);
  _ ← _selectApiKey None;
  _ ← _selectApiKey None;
  @deleteApiKey (json_blank (list MinionConfig.t)) (json_blank (list Channel.t))
    (json_blank (gmap string (list ChatMessageData.t))) (json_blank (list ApiKey.t)) "key-3".

(** The world with the cursor of the pool moved. *)
Definition set_cursor (i : nat) (w : World) : World :=
  mkWorld (with_apiKeyRoundRobinIndex i (this w)) (localStorage w) (observed w) (clock w)
    (requests w).

(** What a selection through a pin hands out. *)
Definition assigned (k : ApiKey.t) : SelectedKeyInfo.t :=
  SelectedKeyInfo.mk (ApiKey.key k) (ApiKey.name k) SelectedKeyInfo.Assigned.

(** A pool of three keys with the cursor on the second. *)
Definition world_pool : World := world_of (mkService [] [] ∅ [key_a; key_b; key_c] 1).

(** The world in which [localStorage] holds [stored] and nothing else. *)
Definition world_storing (stored : gmap string string) : World :=
  mkWorld empty_service stored [] 0 0.

Section Stored.
Context {json_minions : Json (list MinionConfig.t)}.
Context {json_channels : Json (list Channel.t)}.
Context {json_messages : Json (gmap string (list ChatMessageData.t))}.
Context {json_apiKeys : Json (list ApiKey.t)}.

(** [localStorage] after [saveState] has written the four collections. *)
Definition saved_storage (s : LegionApiService) (store : gmap string string)
    : gmap string string :=
  <[API_KEYS_STORAGE_KEY := JSON_stringify (apiKeys s)]>
    (<[CHAT_HISTORY_STORAGE_KEY := JSON_stringify (messages s)]>
       (<[CHANNELS_STORAGE_KEY := JSON_stringify (channels s)]>
          (<[MINION_CONFIGS_STORAGE_KEY := JSON_stringify (minionConfigs s)]> store))).

(** The world once [saveState] has run. *)
Definition saved (w : World) : World :=
  mkWorld (this w) (saved_storage (this w) (localStorage w)) (observed w) (clock w)
    (requests w).

End Stored.

(** The four serialisations used when the model is run. *)
Definition run_deleteMinion := @deleteMinion (json_blank (list MinionConfig.t))
  (json_blank (list Channel.t)) (json_blank (gmap string (list ChatMessageData.t)))
  (json_blank (list ApiKey.t)).

Definition hello_message : ChatMessageData.t :=
  ChatMessageData.mk "user-1" "general" User "Steven" "Hello." 1 None None None None None.

(** One minion, the general channel with it as a member, one message. *)
Definition service_one : LegionApiService :=
  mkService [minion_named "Alpha" None]
    [Channel.mk "general" "#general" None Channel.user_minion_group ["Steven"; "Alpha"]
       None None None None None]
    {[ "general" := [hello_message] ]} [key_a] 0.

(** ** Relating the world before a method to the world after it *)

(** [m] takes every world to one that [I] relates it to, and what it
    returns, when it returns, satisfies [Q]. *)
Definition guarantees {A} (I : relation World) (Q : A → Prop) (m : M A) : Prop :=
  ∀ w, I w (m w).2 ∧ ∀ a, (m w).1 = Ok a → Q a.

(** The callbacks and requests since [w] all satisfy [P]. *)
Definition trace_grows (P : Event → Prop) : relation World :=
  λ w w', ∃ events, observed w' = observed w ++ events ∧ Forall P events.

(** The stored channel transcripts are the same. *)
Definition same_messages : relation World :=
  λ w w', messages (this w') = messages (this w).

(** Relations that the book-keeping of a method cannot break: they are
    preorders and do not look at the store, the clock, the request
    counter or the cursor of the key pool. *)
Class Lenient (I : relation World) := {
  lenient_preorder :: PreOrder I;
  lenient_bookkeeping : ∀ w store c r, I w (mkWorld (this w) store (observed w) c r);
  lenient_cursor : ∀ w i, I w (set_cursor i w) }.

(** Relations that allow a callback or request [e] to be recorded. *)
Definition Emits (I : relation World) (e : Event) : Prop :=
  ∀ w, I w (mkWorld (this w) (localStorage w) (observed w ++ [e]) (clock w) (requests w)).

(** Relations that allow the minions to change. *)
Definition MinionsFree (I : relation World) : Prop :=
  ∀ w ms,
    I w (mkWorld (with_minionConfigs ms (this w)) (localStorage w) (observed w) (clock w)
           (requests w)).

(** Relations that allow the transcripts to change. *)
Definition MessagesFree (I : relation World) : Prop :=
  ∀ w ms,
    I w (mkWorld (with_messages ms (this w)) (localStorage w) (observed w) (clock w)
           (requests w)).

(** ** Kinds of callbacks and requests *)

(** What the perception made for the minion [name] shows: the audit
    entry for its key and the request to the model. *)
Definition perception_event (name : string) (e : Event) : Prop :=
  match e with
  | onSystemMessage log =>
    ChatMessageData.isApiKeyLog log = Some true ∧ ChatMessageData.isError log = None ∧
    ∃ keyInfo stage, ChatMessageData.content log = key_log_text name keyInfo stage
  | callGeminiApiForJson_request n _ _ _ _ => n = name
  | _ => False
  end.

(** What the streaming of a response of the minion [name] shows. *)
Definition response_event (name : string) (e : Event) : Prop :=
  match e with
  | onMinionResponse m => ChatMessageData.senderName m = name
  | onMinionResponseChunk _ _ _ => True
  | callGeminiAPIStream_request n _ _ _ _ => n = name
  | _ => False
  end.

(** A request made for the minion [name], or a message delivered as
    spoken by it. *)
Definition on_behalf_of (name : string) (e : Event) : Prop :=
  match e with
  | callGeminiApiForJson_request n _ _ _ _ => n = name
  | callGeminiAPIStream_request n _ _ _ _ => n = name
  | onMinionResponse m => ChatMessageData.senderName m = name
  | _ => False
  end.

(** A system notice flagged as an error. *)
Definition error_diagnostic (e : Event) : Prop :=
  match e with
  | onSystemMessage m => ChatMessageData.isError m = Some true
  | _ => False
  end.

(** The four serialisations and the environment used when a batch of
    the model is run. *)
Definition run_triggerNextAutoChatTurn (env : Environment) :=
  @triggerNextAutoChatTurn env (json_blank (list MinionConfig.t))
    (json_blank (list Channel.t)) (json_blank (gmap string (list ChatMessageData.t)))
    (json_blank (list ApiKey.t)).
Definition run_handleUserMessage (env : Environment) :=
  @handleUserMessage env (json_blank (list MinionConfig.t))
    (json_blank (list Channel.t)) (json_blank (gmap string (list ChatMessageData.t)))
    (json_blank (list ApiKey.t)).

(** Two minions in an autonomous channel whose last message is the
    commander's, and one key. *)
Definition swarm_channel : Channel.t :=
  Channel.mk "swarm" "#swarm" None Channel.minion_minion_auto ["Alpha"; "Bravo"]
    None (Some true) None None None.
Definition swarm_opening : ChatMessageData.t :=
  ChatMessageData.mk "user-1" "swarm" User "Steven" "Introduce yourselves." 1
    None None None None None.
Definition service_swarm : LegionApiService :=
  mkService [minion_named "Alpha" None; minion_named "Bravo" None] [swarm_channel]
    {[ "swarm" := [swarm_opening] ]} [key_a] 0.

(** The same channel after Alpha has spoken. *)
Definition alpha_line : ChatMessageData.t :=
  ChatMessageData.mk "ai-id-Alpha-7" "swarm" AI "Alpha" "Alpha reporting." 8
    None None None (Some false) None.
Definition service_swarm_after_alpha : LegionApiService :=
  with_messages {[ "swarm" := [swarm_opening; alpha_line] ]} service_swarm.

(** A model in which every minion wants to speak, after 100 ms. *)
Definition env_talkative : Environment :=
  mkEnv (λ n, Z.of_nat n)
        (λ _ _ _ _ _ _ _, "perceive")
        (λ _ _ _ _, "respond")
        (λ _ _ _ _ _, PerceptionReply.mk
                        (Some (plan_with {[ "Steven" := 70%Z ]} PerceptionPlan.SPEAK 100))
                        None)
        (λ _ _ _ _ _, (["Hello "; "there. "], stream_complete)).

(** What the claim on self-triggering rules out: anything done for the
    minion [name], and any error notice. *)
Definition spares (name : string) (e : Event) : Prop :=
  ¬ on_behalf_of name e ∧ ¬ error_diagnostic e.

(** The outcome the autonomous batch makes up for the author of the last
    message. *)
Definition cannot_respond_to_self (minion : MinionConfig.t) : PerceptionOutcome.t :=
  PerceptionOutcome.mk minion None (Some "Cannot respond to self.").

(** The notice that every minion stayed silent. *)
Definition all_silent_notice (e : Event) : Prop :=
  match e with
  | onSystemMessage m => ChatMessageData.content m = ALL_SILENT_NOTICE
  | _ => False
  end.

Global Instance all_silent_notice_dec (e : Event) : Decision (all_silent_notice e).
Proof. destruct e; cbn; apply _. Defined.

(** What only a response stage shows. *)
Definition response_stage (e : Event) : Prop :=
  match e with
  | onMinionResponse _ | onMinionResponseChunk _ _ _
  | callGeminiAPIStream_request _ _ _ _ _ => True
  | _ => False
  end.

(** The SPEAK set of a batch triggered by the commander: the outcomes
    with a usable plan whose action is SPEAK. *)
Definition speaking_usable (results : list PerceptionOutcome.t)
    : list (MinionConfig.t * PerceptionPlan.t) :=
  omap (λ r, match usable_plan r with
             | Some plan =>
               match PerceptionPlan.action plan with
               | PerceptionPlan.SPEAK => Some (PerceptionOutcome.minion r, plan)
               | PerceptionPlan.STAY_SILENT => None
               end
             | None => None
             end) results.

(** Neither the all-silent notice nor anything of a response stage. *)
Definition quiet (e : Event) : Prop := ¬ all_silent_notice e ∧ ¬ response_stage e.

(** The notices of a trace: the system messages shown that are not the
    audit entry for a key. *)
Definition notices (events : list Event) : list ChatMessageData.t :=
  omap (λ e, match e with
             | onSystemMessage m =>
               if bool_decide (ChatMessageData.isApiKeyLog m = Some true) then None else Some m
             | _ => None
             end) events.

(** The notice that the batch of the commander shows for the settled
    perception [r] of a minion that will not speak (lines 255-264): that
    the minion chose to remain silent, or, with [isError], what went
    wrong in its perception. *)
Definition silence_notice (channelId : string) (r : PerceptionOutcome.t)
    (notice : ChatMessageData.t) : Prop :=
  let minion := PerceptionOutcome.minion r in
  ChatMessageData.channelId notice = channelId ∧
  ChatMessageData.senderType notice = System ∧
  ChatMessageData.senderName notice = "System" ∧
  match usable_plan r with
  | Some plan =>
    PerceptionPlan.action plan = PerceptionPlan.STAY_SILENT ∧
    ChatMessageData.content notice = MinionConfig.name minion +:+ " chose to remain silent." ∧
    ChatMessageData.isError notice = None
  | None =>
    ChatMessageData.content notice
      = "Error during " +:+ MinionConfig.name minion +:+ "'s perception stage: " +:+
        (if truthy_opt (PerceptionOutcome.error r)
         then default EmptyString (PerceptionOutcome.error r)
         else "No plan returned.") ∧
    ChatMessageData.isError notice = Some true
  end.

(** Neither the all-silent notice, nor anything of a response stage, nor
    a notice. *)
Definition discreet (e : Event) : Prop := quiet e ∧ notices [e] = [].

(** The world with more callbacks and requests on record. *)
Definition record (events : list Event) (w : World) : World :=
  mkWorld (this w) (localStorage w) (observed w ++ events) (clock w) (requests w).

(** The world once [handleUserMessage] has pushed the message of the
    commander (lines 225-226). *)
Definition posted (channelId : string) (userMessage : ChatMessageData.t) (w : World) : World :=
  mkWorld (with_messages
             (<[channelId := messages_of (this w) channelId ++ [userMessage]]>
                (messages (this w))) (this w))
    (localStorage w) (observed w) (clock w) (requests w).


(** A method that returns in every world. *)
Definition never_throws {A} (m : M A) : Prop := ∀ w, ∃ a, (m w).1 = Ok a.

(** The [n] characters a string ends with lie after its first
    [length - n]. *)
Fixpoint string_drop (n : nat) (s : string) : string :=
  match n, s with
  | O, _ => s
  | S n', String _ s' => string_drop n' s'
  | S _, EmptyString => EmptyString
  end.

(** Whether the apostrophe occurs in a string. *)
Fixpoint has_apostrophe (s : string) : bool :=
  match s with
  | EmptyString => false
  | String c s' => bool_decide (Ascii.nat_of_ascii c = 39%nat) || has_apostrophe s'
  end.

(** What a method returned, or the default when it threw. *)
Definition returned {A} (default : A) (r : Result A) : A :=
  match r with Ok a => a | Throw _ => default end.

Definition general_channel : Channel.t :=
  Channel.mk "general" "#general" None Channel.user_minion_group ["Steven"; "Alpha"]
    None None None None None.
Definition second_message : ChatMessageData.t :=
  ChatMessageData.mk "user-2" "general" User "Steven" "Anyone there?" 2
    None None None None None.

(** The perception phases of the two batches on the concrete states. *)
Definition swarm_perceive : M (list PerceptionOutcome.t) :=
  triggerNextAutoChatTurn_perceive env_silent "swarm"
    (formatChatHistoryForLLM [swarm_opening] "swarm") swarm_opening swarm_channel
    [minion_named "Alpha" None; minion_named "Bravo" None].
Definition general_perceive : M (list PerceptionOutcome.t) :=
  handleUserMessage_perceive env_silent "general"
    (formatChatHistoryForLLM [hello_message; second_message] "general") second_message
    general_channel [minion_named "Alpha" None].

(** ** What a trace delivers *)

(** The messages handed to [onMinionResponse], oldest first. *)
Definition delivered (events : list Event) : list ChatMessageData.t :=
  omap (λ e, match e with onMinionResponse m => Some m | _ => None end) events.

(** The placeholders among them: the messages still in progress. *)
Definition placeholders (events : list Event) : list ChatMessageData.t :=
  filter (λ m, ChatMessageData.isProcessing m = Some true) (delivered events).

(** The finalized responses among them: the messages that carry the
    diary of their speaker. *)
Definition finalized (events : list Event) : list ChatMessageData.t :=
  filter (λ m, is_Some (ChatMessageData.internalDiary m)) (delivered events).

(** The plans the finalized responses carry. *)
Definition finalized_plans (events : list Event) : list PerceptionPlan.t :=
  omap ChatMessageData.internalDiary (delivered events).

(** Not a message handed to [onMinionResponse]. *)
Definition undelivered (e : Event) : Prop :=
  match e with onMinionResponse _ => False | _ => True end.

(** The minions after [updateMinionState]. *)
Definition updated_minions (minionId : string) (plan : PerceptionPlan.t)
    (minions : list MinionConfig.t) : list MinionConfig.t :=
  match findIndex (λ m, bool_decide (MinionConfig.id m = minionId)) minions with
  | Some minionIndex =>
    alter (λ m, MinionConfig.with_lastDiaryState (Some plan)
                  (MinionConfig.with_opinionScores (PerceptionPlan.finalOpinions plan) m))
          minionIndex minions
  | None => minions
  end.

(** The id of the placeholder of a speaker whose turn starts when the
    clock has been read [n] times. *)
Definition tempMessageId_at (env : Environment) (minion : MinionConfig.t) (n : nat) : string :=
  "ai-" +:+ MinionConfig.id minion +:+ "-" +:+ pretty (Date_now env n).

(** How the stream of request number [n] ends for a speaker. *)
Definition stream_ending (env : Environment) (n : nat) (prompt : string)
    (minion : MinionConfig.t) (key : string) : StreamEnd :=
  (generateContentStream env n prompt (MinionConfig.model_id minion)
     (MinionConfig.temperature minion) key).2.

(** The latency order of the speakers. *)
Definition no_slower (a b : MinionConfig.t * PerceptionPlan.t) : Prop :=
  (PerceptionPlan.predictedResponseTime a.2 ≤ PerceptionPlan.predictedResponseTime b.2)%Z.

(** A model whose streams break off after the first chunk. *)
Definition env_broken_stream : Environment :=
  mkEnv (λ n, Z.of_nat n)
        (λ _ _ _ _ _ _ _, "perceive")
        (λ _ _ _ _, "respond")
        (λ _ _ _ _ _, PerceptionReply.mk
                        (Some (plan_with {[ "Steven" := 70%Z ]} PerceptionPlan.SPEAK 100))
                        None)
        (λ _ _ _ _ _, (["Hel"], stream_throws "connection reset")).

Definition speak_plan : PerceptionPlan.t :=
  plan_with {[ "Steven" := 70%Z ]} PerceptionPlan.SPEAK 100.

(** What happens before the speakers take their turns: nothing is
    delivered through [onMinionResponse] and no transcript changes. *)
Definition backstage : relation World :=
  λ w w', trace_grows undelivered w w' ∧ same_messages w w'.

(** The ids of the placeholders of a trace are new to the messages
    [stored] and differ from each other. *)
Definition fresh_ids (stored : list ChatMessageData.t) (events : list Event) : Prop :=
  NoDup (ChatMessageData.id <$> placeholders events) ∧
  ∀ p x, p ∈ placeholders events → x ∈ stored → ChatMessageData.id x ≠ ChatMessageData.id p.

(** What the turn of the speaker [minion] shows, [messageId] being the
    id of its placeholder: the messages spoken by the minion under that
    id, the chunks for that id, the audit entry for the key of its
    response, the request for its stream, and the report that it has
    stopped processing.  Nothing of a perception is among it. *)
Definition turn_event (channelId : string) (minion : MinionConfig.t) (messageId : string)
    (e : Event) : Prop :=
  match e with
  | onMinionResponse m =>
    ChatMessageData.id m = messageId ∧
    ChatMessageData.senderName m = MinionConfig.name minion
  | onMinionResponseChunk c i _ => c = channelId ∧ i = messageId
  | onMinionProcessingUpdate name isProcessing =>
    name = MinionConfig.name minion ∧ isProcessing = false
  | onSystemMessage log =>
    ChatMessageData.isApiKeyLog log = Some true ∧
    ∃ keyInfo,
      ChatMessageData.content log = key_log_text (MinionConfig.name minion) keyInfo "Response"
  | callGeminiAPIStream_request name _ _ _ _ => name = MinionConfig.name minion
  | callGeminiApiForJson_request _ _ _ _ _ => False
  end.

(** One turn of the loop over the speakers (lines 277-291): the run of
    the body of the loop from the world [w] and the history
    [dynamicChatHistory] to the world [w'], showing [trace] and ending
    in [r].  All that the turn shows is the speaker's own, and the first
    of it is the placeholder.  When the
    selection of a key throws, the turn ends there.  Otherwise the turn
    delivers one more message, not in progress, and then reports that
    the speaker has stopped processing.  With a usable key and a stream
    that completes, the stream was requested with the prompt made from
    the history, the message carries the plan and is no error, and,
    when the id of the placeholder is new to the channel, the message
    is stored at the end of the channel and its text is added to the
    history.  With no usable key or a stream that throws, the message
    is an error message, and, when the id is new to the channel, the
    channel and the history are as they were. *)
Definition speaker_turn (env : Environment) (channelId dynamicChatHistory : string)
    (speaker : MinionConfig.t * PerceptionPlan.t) (w : World) (trace : list Event)
    (r : Result string) (w' : World) : Prop :=
  let minion := speaker.1 in
  let plan := speaker.2 in
  let tempMessageId := tempMessageId_at env minion (clock w) in
  let prompt := RESPONSE_GENERATION_PROMPT_TEMPLATE env (MinionConfig.name minion)
                  (MinionConfig.system_prompt_persona minion) dynamicChatHistory plan in
  let fresh := ∀ x, x ∈ messages_of (this w) channelId → ChatMessageData.id x ≠ tempMessageId in
  handleUserMessage_speaker env channelId dynamicChatHistory speaker w = (r, w') ∧
  observed w' = observed w ++ trace ∧
  Forall (turn_event channelId minion tempMessageId) trace ∧
  (∀ c, c ≠ channelId → messages_of (this w') c = messages_of (this w) c) ∧
  ∃ p,
    head trace = Some (onMinionResponse p) ∧
    ChatMessageData.isProcessing p = Some true ∧
    ChatMessageData.internalDiary p = None ∧
    match r with
    | Throw e =>
      (_selectApiKey (Some minion) w).1 = Throw e ∧
      trace = [onMinionResponse p] ∧
      messages_of (this w') channelId = messages_of (this w) channelId
    | Ok dynamicChatHistory' =>
      ∃ keyInfo m,
        (_selectApiKey (Some minion) w).1 = Ok keyInfo ∧
        delivered trace = [p; m] ∧
        last trace = Some (onMinionProcessingUpdate (MinionConfig.name minion) false) ∧
        ChatMessageData.isProcessing m = Some false ∧
        (truthy (SelectedKeyInfo.key keyInfo) = true →
         stream_ending env (requests w) prompt minion (SelectedKeyInfo.key keyInfo)
           = stream_complete →
         callGeminiAPIStream_request (MinionConfig.name minion) prompt
           (MinionConfig.model_id minion) (MinionConfig.temperature minion)
           (SelectedKeyInfo.key keyInfo) ∈ trace ∧
         ChatMessageData.internalDiary m = Some plan ∧
         ChatMessageData.isError m = None ∧
         (fresh →
          messages_of (this w') channelId = messages_of (this w) channelId ++ [m] ∧
          dynamicChatHistory'
            = dynamicChatHistory +:+ newline +:+ "[MINION " +:+ MinionConfig.name minion
                +:+ "]: " +:+ ChatMessageData.content m)) ∧
        ((truthy (SelectedKeyInfo.key keyInfo) = false ∨
          ∃ message,
            stream_ending env (requests w) prompt minion (SelectedKeyInfo.key keyInfo)
              = stream_throws message) →
         ChatMessageData.internalDiary m = None ∧
         ChatMessageData.isError m = Some true ∧
         (fresh →
          messages_of (this w') channelId = messages_of (this w) channelId ∧
          dynamicChatHistory' = dynamicChatHistory))
    end.

(** The loop over the speakers as a chain of turns, one speaker after
    the other: every turn starts in the world and with the history in
    which the turn before it ended, the first in [w] with
    [dynamicChatHistory]; a turn that throws is the last.  [turns] are
    the traces of the turns, [r] is how the last turn ended and [w'] is
    where. *)
Inductive speaker_turns (env : Environment) (channelId : string)
  : string → list (MinionConfig.t * PerceptionPlan.t) → World → list (list Event) →
    Result string → World → Prop :=
| speaker_turns_done dynamicChatHistory w :
    speaker_turns env channelId dynamicChatHistory [] w [] (Ok dynamicChatHistory) w
| speaker_turns_thrown dynamicChatHistory speaker speakers w trace e w' :
    speaker_turn env channelId dynamicChatHistory speaker w trace (Throw e) w' →
    speaker_turns env channelId dynamicChatHistory (speaker :: speakers) w [trace] (Throw e) w'
| speaker_turns_next dynamicChatHistory speaker speakers w trace dynamicChatHistory' w1
    turns r w' :
    speaker_turn env channelId dynamicChatHistory speaker w trace (Ok dynamicChatHistory') w1 →
    speaker_turns env channelId dynamicChatHistory' speakers w1 turns r w' →
    speaker_turns env channelId dynamicChatHistory (speaker :: speakers) w (trace :: turns) r w'.

(** A model in which the minion asked first wants to speak after 300 ms
    and every minion asked later after 100 ms. *)
Definition env_staggered : Environment :=
  mkEnv (λ n, Z.of_nat n)
        (λ _ _ _ _ _ _ _, "perceive")
        (λ _ _ _ _, "respond")
        (λ n _ _ _ _, PerceptionReply.mk
                        (Some (plan_with {[ "Steven" := 70%Z ]} PerceptionPlan.SPEAK
                                 (if bool_decide (n = 0%nat) then 300 else 100)))
                        None)
        (λ _ _ _ _ _, (["Hello "; "there. "], stream_complete)).

(** Alpha and Bravo in the general channel, one key, one message. *)
Definition pair_channel : Channel.t :=
  Channel.mk "general" "#general" None Channel.user_minion_group ["Steven"; "Alpha"; "Bravo"]
    None None None None None.
Definition service_pair : LegionApiService :=
  mkService [minion_named "Alpha" None; minion_named "Bravo" None] [pair_channel]
    {[ "general" := [hello_message] ]} [key_a] 0.
Definition pair_perceive : M (list PerceptionOutcome.t) :=
  handleUserMessage_perceive env_staggered "general"
    (formatChatHistoryForLLM [hello_message; second_message] "general") second_message
    pair_channel [minion_named "Alpha" None; minion_named "Bravo" None].

(** The plan every minion gets from [env_silent]. *)
Definition silent_plan : PerceptionPlan.t :=
  plan_with {[ "Steven" := 70%Z ]} PerceptionPlan.STAY_SILENT 100.

Definition swarm_second : ChatMessageData.t :=
  ChatMessageData.mk "user-2" "swarm" User "Steven" "Anyone there?" 2
    None None None None None.

(** ** Further concrete values and predicates *)

(** A minion and a message without their diaries: what is compared where
    the plan of a diary may have been written to through the map of
    opinions it shares with its minion. *)
Definition forget_diary (m : MinionConfig.t) : MinionConfig.t :=
  MinionConfig.with_lastDiaryState None m.
Definition forget_internalDiary (m : ChatMessageData.t) : ChatMessageData.t :=
  ChatMessageData.mk (ChatMessageData.id m) (ChatMessageData.channelId m)
    (ChatMessageData.senderType m) (ChatMessageData.senderName m) (ChatMessageData.content m)
    (ChatMessageData.timestamp m) None (ChatMessageData.isError m)
    (ChatMessageData.replyToMessageId m) (ChatMessageData.isProcessing m)
    (ChatMessageData.isApiKeyLog m).

(** A string of characters of ASCII only: every code is below 128. *)
Fixpoint ascii_only (s : string) : bool :=
  match s with
  | EmptyString => true
  | String c s' => bool_decide (Ascii.nat_of_ascii c < 128)%nat && ascii_only s'
  end.

(** A string of ASCII white space only; a string that is [blank] is also
    white space only for [String.prototype.trim]. *)
Fixpoint blank (s : string) : bool :=
  match s with
  | EmptyString => true
  | String c s' => is_space c && blank s'
  end.

(** Every pin of a minion names a key of the pool. *)
Definition pins_valid (s : LegionApiService) : Prop :=
  ∀ m pin, m ∈ minionConfigs s → MinionConfig.apiKeyId m = Some pin →
           ∃ k, k ∈ apiKeys s ∧ ApiKey.id k = pin.

(** What [getStoredData] has to read under [key]: the entry is absent or
    the text [undefined], and [value] is the default, or the entry is a
    text that [JSON.parse] reads as [value], a value of the expected
    shape. *)
Definition typed_entry {T} `{Json T} (store : gmap string string) (key : string)
    (defaultValue value : T) : Prop :=
  match store !! key with
  | None => value = defaultValue
  | Some text =>
    if bool_decide (text = "undefined") then value = defaultValue
    else JSON_parse text = Some value
  end.

(** A serialisation that knows one value. *)
Definition json_only {T : Type} (v : T) : Json T := {|
  JSON_stringify := λ _ : T, "data";
  JSON_parse := λ _ : string, Some v |}.

(** Saving one value and loading it again. *)
Definition save_then_load {T} `{Json T} (env : Environment) (key : string) (data defaultValue : T)
    : M T :=
  _ ← setStoredData key data;
  getStoredData env key defaultValue.

(** A service whose log channel has its history, as after start-up. *)
Definition service_logged : LegionApiService :=
  mkService [minion_named "Alpha" (Some "key-1")] [general_channel]
    {[ "legion_ops_log" := []; "general" := [hello_message] ]} [key_a; key_b] 1.

(** Saving the state and constructing the service anew. *)
Definition reload {json_minions : Json (list MinionConfig.t)}
    {json_channels : Json (list Channel.t)}
    {json_messages : Json (gmap string (list ChatMessageData.t))}
    {json_apiKeys : Json (list ApiKey.t)} (env : Environment) : M unit :=
  _ ← saveState;
  constructor env.

Definition run_reload := @reload (json_only (minionConfigs service_logged))
  (json_only (channels service_logged)) (json_only (messages service_logged))
  (json_only (apiKeys service_logged)).
Definition run_addApiKey := @addApiKey env_silent (json_blank (list MinionConfig.t))
  (json_blank (list Channel.t)) (json_blank (gmap string (list ChatMessageData.t)))
  (json_blank (list ApiKey.t)).
Definition run_deleteApiKey := @deleteApiKey (json_blank (list MinionConfig.t))
  (json_blank (list Channel.t)) (json_blank (gmap string (list ChatMessageData.t)))
  (json_blank (list ApiKey.t)).
Definition run_updateMinion := @updateMinion (json_blank (list MinionConfig.t))
  (json_blank (list Channel.t)) (json_blank (gmap string (list ChatMessageData.t)))
  (json_blank (list ApiKey.t)).
Definition run_addChannel := @addChannel env_silent (json_blank (list MinionConfig.t))
  (json_blank (list Channel.t)) (json_blank (gmap string (list ChatMessageData.t)))
  (json_blank (list ApiKey.t)).
Definition run_updateChannel := @updateChannel (json_blank (list MinionConfig.t))
  (json_blank (list Channel.t)) (json_blank (gmap string (list ChatMessageData.t)))
  (json_blank (list ApiKey.t)).

(** The fields of a minion that a perception plan does not touch. *)
Definition identity_of (m : MinionConfig.t) :=
  (MinionConfig.id m, MinionConfig.name m, MinionConfig.model_id m,
   MinionConfig.system_prompt_persona m, MinionConfig.temperature m, MinionConfig.apiKeyId m).

(** An autonomous channel with a single minion among its members. *)
Definition solo_channel : Channel.t :=
  Channel.mk "solo" "#solo" None Channel.minion_minion_auto ["Alpha"; "Zulu"]
    None (Some true) None None None.
Definition service_solo : LegionApiService :=
  mkService [minion_named "Alpha" None; minion_named "Bravo" None] [solo_channel]
    {[ "solo" := [hello_message] ]} [key_a] 0.

(** The notice of line 307, made at the clock of [w]. *)
Definition auto_paused_notice (env : Environment) (channelId : string) (w : World)
    : ChatMessageData.t :=
  ChatMessageData.mk ("sys-auto-err-" +:+ pretty (Date_now env (clock w))) channelId System
    "System" "Auto-mode paused. Requires at least 2 minions in the channel."
    (Date_now env (S (clock w))) None None None None None.

(** The message [constructor] puts into an absent operations log. *)
Definition init_message (env : Environment) (w : World) : ChatMessageData.t :=
  ChatMessageData.mk ("sys-init-" +:+ pretty (Date_now env (clock w))) "legion_ops_log" System
    "LegionOS" "Legion Command Interface Initialized." (Date_now env (S (clock w)))
    None None None None None.

Definition run_constructor := @constructor env_silent (json_blank (list MinionConfig.t))
  (json_blank (list Channel.t)) (json_blank (gmap string (list ChatMessageData.t)))
  (json_blank (list ApiKey.t)).

(** The autonomous channel of two minions before anything has been said. *)
Definition service_mute : LegionApiService :=
  mkService [minion_named "Alpha" None; minion_named "Bravo" None] [swarm_channel] ∅ [key_a] 0.

(** ** What a batch may show and what it leaves alone *)

(** A secret of the pool that is not the empty string. *)
Definition pooled (pool : list ApiKey.t) (apiKey : string) : Prop :=
  apiKey ≠ EmptyString ∧ ∃ k, k ∈ pool ∧ ApiKey.key k = apiKey.

(** The callbacks and requests of a batch on the channel [channelId]
    over the pool [pool]: requests carry a secret of the pool, messages
    and chunks are addressed to the channel, messages handed to
    [onMinionResponse] are a minion's and those handed to
    [onSystemMessage] are the system's. *)
Definition permitted (pool : list ApiKey.t) (channelId : string) (e : Event) : Prop :=
  match e with
  | callGeminiApiForJson_request _ _ _ _ apiKey => pooled pool apiKey
  | callGeminiAPIStream_request _ _ _ _ apiKey => pooled pool apiKey
  | onMinionResponse m =>
    ChatMessageData.channelId m = channelId ∧ ChatMessageData.senderType m = AI
  | onMinionResponseChunk c _ _ => c = channelId
  | onSystemMessage m =>
    ChatMessageData.channelId m = channelId ∧ ChatMessageData.senderType m = System
  | onMinionProcessingUpdate _ _ => True
  end.

(** The minions after any number of calls of [updateMinionState] whose
    id and plan satisfy [S]. *)
Inductive diary_updates (S : string → PerceptionPlan.t → Prop) (ms : list MinionConfig.t)
    : list MinionConfig.t → Prop :=
| diary_same : diary_updates S ms ms
| diary_update ms' minionId plan :
    diary_updates S ms ms' → S minionId plan →
    diary_updates S ms (updated_minions minionId plan ms').

(** The first minion with the id has the plan as its diary and the
    final opinions of the plan as its opinions. *)
Definition diary_stored (minionId : string) (plan : PerceptionPlan.t)
    (minions : list MinionConfig.t) : Prop :=
  ∃ m, List.find (λ m, bool_decide (MinionConfig.id m = minionId)) minions = Some m ∧
       MinionConfig.lastDiaryState m = Some plan ∧
       MinionConfig.opinionScores m = PerceptionPlan.finalOpinions plan.

(** The channels and the pool are the same, the minions differ by
    diary updates within [S], and the histories of the channels other
    than [channelId] are the same. *)
Definition frame (S : string → PerceptionPlan.t → Prop) (channelId : string)
    : relation World :=
  λ w w',
    channels (this w') = channels (this w) ∧
    apiKeys (this w') = apiKeys (this w) ∧
    diary_updates S (minionConfigs (this w)) (minionConfigs (this w')) ∧
    ∀ c, c ≠ channelId → messages (this w') !! c = messages (this w) !! c.

Definition batch_step (S : string → PerceptionPlan.t → Prop) (channelId : string)
    : relation World :=
  λ w w', frame S channelId w w' ∧ trace_grows (permitted (apiKeys (this w)) channelId) w w'.

(** From a world whose pool is [pool], [m] makes a step of a batch on
    [channelId], and what it returns, when it returns, satisfies [Q]. *)
Definition keeps {A} (S : string → PerceptionPlan.t → Prop) (pool : list ApiKey.t)
    (channelId : string) (Q : A → Prop) (m : M A) : Prop :=
  ∀ w, apiKeys (this w) = pool →
       batch_step S channelId w (m w).2 ∧ ∀ a, (m w).1 = Ok a → Q a.

(** The plans that the outcomes let the batch go on with, by minion id. *)
Definition plan_of_outcome (results : list PerceptionOutcome.t) (minionId : string)
    (plan : PerceptionPlan.t) : Prop :=
  ∃ r, r ∈ results ∧ usable_plan r = Some plan ∧
       MinionConfig.id (PerceptionOutcome.minion r) = minionId.

(** The settled perceptions of the two minions of [service_pair]: Alpha
    wants to speak, Bravo stays silent. *)
Definition pair_results : list PerceptionOutcome.t :=
  [PerceptionOutcome.mk (minion_named "Alpha" None) (Some speak_plan) None;
   PerceptionOutcome.mk (minion_named "Bravo" None) (Some silent_plan) None].
Definition run_handleUserMessage_schedule (env : Environment) :=
  @handleUserMessage_schedule env (json_blank (list MinionConfig.t))
    (json_blank (list Channel.t)) (json_blank (gmap string (list ChatMessageData.t)))
    (json_blank (list ApiKey.t)).

(** ** The message state of [App.tsx] (lines 102-149, 191-199)

    The state [messages] of the component and the functional updates
    the callbacks of a batch make to it. *)
Module App.

(** [{ ...old, ...message }] at the type of messages: an optional
    property is the one of [message] when it has one. *)
Definition spread_message (old message : ChatMessageData.t) : ChatMessageData.t :=
  ChatMessageData.mk (ChatMessageData.id message) (ChatMessageData.channelId message)
    (ChatMessageData.senderType message) (ChatMessageData.senderName message)
    (ChatMessageData.content message) (ChatMessageData.timestamp message)
    (spread (ChatMessageData.internalDiary old) (ChatMessageData.internalDiary message))
    (spread (ChatMessageData.isError old) (ChatMessageData.isError message))
    (spread (ChatMessageData.replyToMessageId old) (ChatMessageData.replyToMessageId message))
    (spread (ChatMessageData.isProcessing old) (ChatMessageData.isProcessing message))
    (spread (ChatMessageData.isApiKeyLog old) (ChatMessageData.isApiKeyLog message)).

(** [prevMessages[channelId] || []] *)
Definition channelMessages_of (prevMessages : gmap string (list ChatMessageData.t))
    (channelId : string) : list ChatMessageData.t :=
  default [] (prevMessages !! channelId).

Definition handleMessageAdd (channelId : string) (message : ChatMessageData.t)
    (prevMessages : gmap string (list ChatMessageData.t))
    : gmap string (list ChatMessageData.t) :=
  let channelMessages := channelMessages_of prevMessages channelId in
  if existsb (λ m, bool_decide (ChatMessageData.id m = ChatMessageData.id message))
             channelMessages
  then prevMessages
  else <[channelId := channelMessages ++ [message]]> prevMessages.

Definition handleMessageChunk (channelId messageId chunk : string)
    (prevMessages : gmap string (list ChatMessageData.t))
    : gmap string (list ChatMessageData.t) :=
  <[channelId :=
      (λ m, if bool_decide (ChatMessageData.id m = messageId)
            then ChatMessageData.with_content (ChatMessageData.content m +:+ chunk) m
            else m) <$> channelMessages_of prevMessages channelId]> prevMessages.

Definition handleMessageUpsert (message : ChatMessageData.t)
    (prevMessages : gmap string (list ChatMessageData.t))
    : gmap string (list ChatMessageData.t) :=
  let channelMessages := channelMessages_of prevMessages (ChatMessageData.channelId message) in
  match findIndex (λ m, bool_decide (ChatMessageData.id m = ChatMessageData.id message))
                  channelMessages with
  | Some existingMsgIndex =>
    <[ChatMessageData.channelId message :=
        alter (λ old, spread_message old message) existingMsgIndex channelMessages]>
      prevMessages
  | None =>
    <[ChatMessageData.channelId message := channelMessages ++ [message]]> prevMessages
  end.

(** The callbacks [handleSendMessage] and [runAutoChatTurn] hand to the
    service, as updates of [messages]; the indicator of a minion at
    work is another state, and requests do not reach the component. *)
Definition on_event (e : Event) (prevMessages : gmap string (list ChatMessageData.t))
    : gmap string (list ChatMessageData.t) :=
  match e with
  | onMinionResponse message => handleMessageUpsert message prevMessages
  | onMinionResponseChunk channelId messageId chunk =>
    handleMessageChunk channelId messageId chunk prevMessages
  | onSystemMessage systemMessage =>
    handleMessageAdd (ChatMessageData.channelId systemMessage) systemMessage prevMessages
  | _ => prevMessages
  end.

(** The updates of a sequence of callbacks, applied in order. *)
Definition replay (events : list Event) (prevMessages : gmap string (list ChatMessageData.t))
    : gmap string (list ChatMessageData.t) :=
  foldl (λ st e, on_event e st) prevMessages events.

(** No two messages shown in one channel have the same id. *)
Definition unique_ids (st : gmap string (list ChatMessageData.t)) : Prop :=
  ∀ channelId, NoDup (ChatMessageData.id <$> channelMessages_of st channelId).

End App.

(** ** [components/ChannelForm.tsx] (lines 39-60) *)
Module ChannelForm.

Record State := mkState {
  name : string;
  description : string;
  type : Channel.ChannelType;
  selectedMembers : list string }.

(** The payload handed to [onSave]; [id] is [initialChannel?.id]. *)
Record Payload := mkPayload {
  payload_id : option string;
  payload_name : string;
  payload_description : string;
  payload_type : Channel.ChannelType;
  payload_members : list string }.

Definition handleMemberToggle (memberName : string) (prev : list string) : list string :=
  if bool_decide (memberName ∈ prev)
  then filter (λ m, m ≠ memberName) prev
  else prev ++ [memberName].

(** [Array.from(new Set(xs))]: the first occurrence of every element,
    in the order of [xs]. *)
Fixpoint Array_from_Set (xs : list string) : list string :=
  match xs with
  | [] => []
  | x :: xs' => x :: filter (λ y, y ≠ x) (Array_from_Set xs')
  end.

(** [name.startsWith('#')] *)
Definition startsWith_hash (s : string) : bool :=
  match s with
  | String c _ => bool_decide (Ascii.nat_of_ascii c = 35%nat)
  | EmptyString => false
  end.

(** [handleSubmit]: [None] when it returns without calling [onSave]. *)
Definition handleSubmit (initialChannel : option Channel.t) (st : State) : option Payload :=
  if negb (truthy (trim (name st))) then None
  else Some (mkPayload (Channel.id <$> initialChannel)
               (if startsWith_hash (name st) then name st else "#" +:+ name st)
               (description st) (type st)
               (match type st with
                | Channel.system_log => []
                | _ => Array_from_Set (selectedMembers st)
                end)).

End ChannelForm.

(** ** [components/ApiKeyManager.tsx] (lines 33-36) *)
Module ApiKeyManager.

(** Lengths and positions count characters; the secrets are ASCII. *)
Definition maskApiKey (key : string) : string :=
  if (String.length key <? 8)%nat then "***"
  else String.substring 0 4 key +:+ "..." +:+ String.substring (String.length key - 4) 4 key.

End ApiKeyManager.

Definition processing_message : ChatMessageData.t :=
  ChatMessageData.mk "ai-1" "general" AI "Alpha" EmptyString 3 None None None (Some true) None.

(** The callbacks and requests made between two worlds. *)
Definition shown_since (w w' : World) : list Event :=
  drop (length (observed w)) (observed w').
(** * Properties *)
Ltac run := unfold mbind, M_bind, mret, M_ret, get_this, set_this, throw; cbn beta iota.

Lemma selectApiKey_unpinned_in_range (w : World) (k : ApiKey.t) :
  apiKeys (this w) !! apiKeyRoundRobinIndex (this w) = Some k →
  _selectApiKey None w =
    (Ok (load_balanced k),
     set_cursor ((apiKeyRoundRobinIndex (this w) + 1) mod length (apiKeys (this w))) w).
Proof.
  intros Hk. unfold _selectApiKey. run. cbn [pinned_key].
  assert (0 < length (apiKeys (this w)))%nat as Hlen.
  { apply lookup_lt_Some in Hk. lia. }
  rewrite bool_decide_eq_true_2 by exact Hlen.
  rewrite Hk. reflexivity.
Qed.

Lemma set_cursor_same (w : World) : set_cursor (apiKeyRoundRobinIndex (this w)) w = w.
Proof. destruct w as [[]]. reflexivity. Qed.

Lemma set_cursor_twice i j w : set_cursor j (set_cursor i w) = set_cursor j w.
Proof. reflexivity. Qed.

Lemma select_times_unfold (keys : list ApiKey.t) (n i : nat) (w : World) :
  apiKeys (this w) = keys → apiKeyRoundRobinIndex (this w) = i →
  (i < length keys)%nat →
  ∃ selected,
    select_times n w = (Ok selected, set_cursor ((i + n) mod length keys) w) ∧
    length selected = n ∧
    ∀ j, (j < n)%nat → selected !! j = load_balanced <$> keys !! ((i + j) mod length keys).
Proof.
  revert i w. induction n as [|n IH]; intros i w Hkeys Hi Hlt.
  - exists []. split; [|split; [done|intros j Hj; lia]].
    unfold select_times. cbn. rewrite Nat.add_0_r, Nat.mod_small by done.
    unfold mret, M_ret. by rewrite <- Hi, set_cursor_same.
  - destruct (lookup_lt_is_Some_2 keys i Hlt) as [k Hk].
    pose (w1 := set_cursor ((i + 1) mod length keys) w).
    destruct (IH ((i + 1) mod length keys) w1) as (rest & Hrun & Hlen & Hnth).
    { done. } { done. } { apply Nat.mod_upper_bound. lia. }
    exists (load_balanced k :: rest). split; [|split].
    + unfold select_times in *. cbn [replicate mapM]. unfold mbind at 1, M_bind at 1.
      rewrite (selectApiKey_unpinned_in_range w k) by (by rewrite Hkeys, Hi).
      rewrite Hkeys, Hi. fold w1. unfold mbind, M_bind. rewrite Hrun.
      unfold mret, M_ret. f_equal. unfold w1. rewrite set_cursor_twice. f_equal.
      rewrite Nat.Div0.add_mod_idemp_l. f_equal. lia.
    + cbn. by rewrite Hlen.
    + intros [|j] Hj.
      * cbn. rewrite Nat.add_0_r, Nat.mod_small by done. by rewrite Hk.
      * cbn. rewrite Hnth by lia. rewrite Nat.Div0.add_mod_idemp_l.
        do 3 f_equal. lia.
Qed.

Lemma round_robin_in_range (w : World) :
  (apiKeyRoundRobinIndex (this w) < length (apiKeys (this w)))%nat →
  select_times (length (apiKeys (this w))) w =
    (Ok (load_balanced <$> rotate (apiKeyRoundRobinIndex (this w)) (apiKeys (this w))), w).
Proof.
  intros Hlt.
  destruct (select_times_unfold (apiKeys (this w)) (length (apiKeys (this w)))
              (apiKeyRoundRobinIndex (this w)) w eq_refl eq_refl Hlt)
    as (selected & Hrun & Hlen & Hnth).
  rewrite Hrun. f_equal.
  - f_equal. apply list_eq. intros j.
    destruct (decide (j < length (apiKeys (this w)))%nat) as [Hj|Hj].
    + rewrite Hnth by done. rewrite list_lookup_fmap. f_equal.
      rewrite lookup_rotate_r by done. unfold rotate_nat_add.
      f_equal. by rewrite <- Nat2Z.inj_add, <- Nat2Z.inj_mod, Nat2Z.id.
    + rewrite !lookup_ge_None_2; [done| |lia].
      rewrite length_fmap, length_rotate. lia.
  - rewrite <- Nat.Div0.add_mod_idemp_r. rewrite Nat.Div0.mod_same, Nat.add_0_r.
    rewrite Nat.mod_small by done. apply set_cursor_same.
Qed.

(** C3, where the code departs from the claim.  Three keys are pooled,
    two selections move the cursor to 2, and the third key is deleted:
    the pool now holds two keys and the cursor still reads 2.  The next
    selection reads past the pool and throws instead of returning a key;
    the claim promises two selections that return both keys. *)
Theorem C3_selection_throws_after_delete :
  let w := (pool_after_delete (world_of empty_service)).2 in
  apiKeys (this w) = [key_a; key_b] ∧
  apiKeyRoundRobinIndex (this w) = 2%nat ∧
  (_selectApiKey None w).1
    = Throw (TypeError "Cannot read properties of undefined (reading 'key')") ∧
  (select_times 2 w).1
    = Throw (TypeError "Cannot read properties of undefined (reading 'key')").
Proof. vm_compute. repeat split; reflexivity. Qed.

Lemma find_key_Some (pin : string) (keys : list ApiKey.t) (k : ApiKey.t) :
  find_key pin keys = Some k → k ∈ keys ∧ ApiKey.id k = pin.
Proof.
  unfold find_key. intros Hfind. apply find_some in Hfind as [Hin Hid].
  split; [by apply list_elem_of_In | by apply bool_decide_eq_true in Hid].
Qed.

Lemma find_key_None (pin : string) (keys : list ApiKey.t) :
  find_key pin keys = None → ∀ k, k ∈ keys → ApiKey.id k ≠ pin.
Proof.
  unfold find_key. intros Hfind k Hin Hid.
  apply list_elem_of_In in Hin.
  pose proof (find_none _ _ Hfind k Hin) as Hno. cbn in Hno.
  by rewrite bool_decide_eq_true_2 in Hno.
Qed.

(** C10.  A minion pinned to the id [pin]: when the pool holds a key with
    that id, selection returns the first such key tagged Assigned and the
    whole world, the cursor with it, is as before; when the pool holds no
    such key, selection is the selection made for no minion at all. *)
Theorem C10_pinned_selection (w : World) (minion : MinionConfig.t) (pin : string) :
  MinionConfig.apiKeyId minion = Some pin →
  pin ≠ EmptyString →
  match find_key pin (apiKeys (this w)) with
  | Some k =>
    k ∈ apiKeys (this w) ∧ ApiKey.id k = pin ∧
    _selectApiKey (Some minion) w = (Ok (assigned k), w)
  | None =>
    (∀ k, k ∈ apiKeys (this w) → ApiKey.id k ≠ pin) ∧
    _selectApiKey (Some minion) w = _selectApiKey None w ∧
    _selectApiKey (Some minion) w
      = _selectApiKey (Some (MinionConfig.with_apiKeyId None minion)) w
  end.
Proof.
  intros Hpin Hne.
  assert (truthy pin = true) as Htruthy.
  { unfold truthy. by rewrite bool_decide_eq_false_2. }
  destruct (find_key pin (apiKeys (this w))) as [k|] eqn:Hfind.
  - destruct (find_key_Some _ _ _ Hfind) as [Hin Hid]. split; [done|split; [done|]].
    unfold _selectApiKey. run. cbn [pinned_key]. by rewrite Hpin, Htruthy, Hfind.
  - split; [by apply find_key_None|].
    unfold _selectApiKey. run. cbn [pinned_key MinionConfig.apiKeyId MinionConfig.with_apiKeyId].
    by rewrite Hpin, Htruthy, Hfind.
Qed.

Lemma C10_pinned_selection_witness :
  _selectApiKey (Some (minion_named "Alpha" (Some "key-3"))) world_pool
    = (Ok (assigned key_c), world_pool)
  ∧ _selectApiKey (Some (minion_named "Alpha" (Some "key-9"))) world_pool
    = _selectApiKey None world_pool.
Proof.
  split.
  - exact (proj2 (proj2 (C10_pinned_selection world_pool
             (minion_named "Alpha" (Some "key-3")) "key-3" eq_refl ltac:(discriminate)))).
  - exact (proj1 (proj2 (C10_pinned_selection world_pool
             (minion_named "Alpha" (Some "key-9")) "key-9" eq_refl ltac:(discriminate)))).
Defined.

(** ** Management operations on entities that do not exist *)

Section Management.
Context (env : Environment).
Context {json_minions : Json (list MinionConfig.t)}.
Context {json_channels : Json (list Channel.t)}.
Context {json_messages : Json (gmap string (list ChatMessageData.t))}.
Context {json_apiKeys : Json (list ApiKey.t)}.

Lemma saveState_saved (w : World) : saveState w = (Ok tt, saved w).
Proof. reflexivity. Qed.

Lemma findIndex_None {A} (p : A → bool) (xs : list A) :
  (∀ x, x ∈ xs → p x = false) → findIndex p xs = None.
Proof.
  induction xs as [|x xs IH]; intros Hall; [done|]. cbn.
  rewrite (Hall x) by apply list_elem_of_here.
  rewrite IH; [done|]. intros y Hy. apply Hall. by apply list_elem_of_further.
Qed.

Lemma find_None_all {A} (p : A → bool) (xs : list A) :
  (∀ x, x ∈ xs → p x = false) → List.find p xs = None.
Proof.
  induction xs as [|x xs IH]; intros Hall; [done|]. cbn.
  rewrite (Hall x) by apply list_elem_of_here.
  apply IH. intros y Hy. apply Hall. by apply list_elem_of_further.
Qed.

Lemma filter_all {A} (P : A → Prop) `{∀ x, Decision (P x)} (xs : list A) :
  (∀ x, x ∈ xs → P x) → filter P xs = xs.
Proof.
  induction xs as [|x xs IH]; intros Hall; [done|].
  rewrite filter_cons_True by (apply Hall, list_elem_of_here).
  f_equal. apply IH. intros y Hy. apply Hall. by apply list_elem_of_further.
Qed.

Lemma fmap_unchanged {A} (f : A → A) (xs : list A) :
  (∀ x, x ∈ xs → f x = x) → f <$> xs = xs.
Proof.
  induction xs as [|x xs IH]; intros Hall; [done|]. cbn.
  rewrite (Hall x) by apply list_elem_of_here.
  f_equal. apply IH. intros y Hy. apply Hall. by apply list_elem_of_further.
Qed.



End Management.



(** ** Creation of a minion *)

Section Creation.
Context (env : Environment).
Context {json_minions : Json (list MinionConfig.t)}.
Context {json_channels : Json (list Channel.t)}.
Context {json_messages : Json (gmap string (list ChatMessageData.t))}.
Context {json_apiKeys : Json (list ApiKey.t)}.



End Creation.

(** ** Loading from storage *)

Section Loading.
Context (env : Environment).
Context {T : Type} `{Json T}.

Lemma append_same_inv (key suffix : string) : key +:+ suffix = key → suffix = EmptyString.
Proof.
  induction key as [|c key IH]; cbn; intros Heq; [done|].
  apply IH. by injection Heq.
Qed.

Lemma corrupted_key_differs (key stamp : string) : key +:+ "_corrupted_" +:+ stamp ≠ key.
Proof. intros Heq. apply append_same_inv in Heq. discriminate. Qed.

(** C8, as amended.  Nothing stored, or the literal text [undefined]
    stored: the default is returned and the store is left as it is.
    Stored text that parses: the parsed value is returned and the store
    is left as it is.  Any other stored text: the default is returned,
    the text now sits under the key followed by [_corrupted_] and the
    clock's reading, the key itself is gone, and every other entry is as
    before.  No case throws. *)
Theorem C8_getStoredData (w : World) (key : string) (defaultValue : T) :
  match localStorage w !! key with
  | None => getStoredData env key defaultValue w = (Ok defaultValue, w)
  | Some saved =>
    if bool_decide (saved = "undefined")
    then getStoredData env key defaultValue w = (Ok defaultValue, w)
    else match JSON_parse saved with
         | Some value => getStoredData env key defaultValue w = (Ok value, w)
         | None =>
           ∃ w', getStoredData env key defaultValue w = (Ok defaultValue, w') ∧
             let side := key +:+ "_corrupted_" +:+ pretty (Date_now env (clock w)) in
             localStorage w' !! side = Some saved ∧
             localStorage w' !! key = None ∧
             (∀ other, other ≠ key → other ≠ side →
                localStorage w' !! other = localStorage w !! other) ∧
             this w' = this w ∧ observed w' = observed w
         end
  end.
Proof.
  unfold getStoredData, localStorage_getItem. run.
  destruct (localStorage w !! key) as [saved|]; [|done].
  case_bool_decide; [done|].
  destruct (JSON_parse saved) as [value|]; [done|].
  eexists. split; [reflexivity|]. cbn. repeat split.
  - rewrite lookup_delete_ne by (intros Heq; symmetry in Heq; by apply corrupted_key_differs in Heq).
    apply lookup_insert_eq.
  - apply lookup_delete_eq.
  - intros other Hkey Hside. rewrite lookup_delete_ne by done. by rewrite lookup_insert_ne.
Qed.

End Loading.

(** C8 as it is written fails on the stored text [undefined]: it is
    there and [JSON.parse] rejects it, yet the load returns the default
    with the entry still in place and nothing set aside. *)
Lemma C8_undefined_is_not_quarantined :
  let w := world_storing {[ "flag" := "undefined" ]} in
  @JSON_parse bool json_bool "undefined" = None ∧
  @getStoredData env_silent bool json_bool "flag" true w = (Ok true, w) ∧
  localStorage (@getStoredData env_silent bool json_bool "flag" true w).2 !! "flag"
    = Some "undefined" ∧
  size (localStorage (@getStoredData env_silent bool json_bool "flag" true w).2) = 1%nat.
Proof. vm_compute. repeat split; reflexivity. Qed.

(** ** Reasoning about method bodies *)

Lemma bind_run {A B} (m : M A) (f : A → M B) (w : World) :
  (m ≫= f) w = match m w with
               | (Ok a, w') => f a w'
               | (Throw e, w') => (Throw e, w')
               end.
Proof. reflexivity. Qed.

Section Guarantees.
Context (env : Environment).
Context (I : relation World) `{!Lenient I}.

Lemma guarantees_weaken {A} (Q Q' : A → Prop) (m : M A) :
  (∀ a, Q a → Q' a) → guarantees I Q m → guarantees I Q' m.
Proof. intros HQ Hm w. destruct (Hm w) as [HI Hret]. split; [done|]. intros a Ha. eauto. Qed.

Lemma guarantees_ret {A} (Q : A → Prop) (a : A) : Q a → guarantees I Q (mret a).
Proof. intros HQ w. split; [reflexivity|]. intros a' [= <-]. done. Qed.

Lemma guarantees_throw {A} (Q : A → Prop) (e : Exception) : guarantees I Q (throw e).
Proof. intros w. split; [reflexivity|]. intros a' [=]. Qed.

Lemma guarantees_bind {A B} (Q : A → Prop) (R : B → Prop) (m : M A) (f : A → M B) :
  guarantees I Q m → (∀ a, Q a → guarantees I R (f a)) → guarantees I R (m ≫= f).
Proof.
  intros Hm Hf w. rewrite bind_run. destruct (Hm w) as [HI Hret].
  destruct (m w) as [[a|e] w1]; cbn in *.
  - destruct (Hf a (Hret a eq_refl) w1) as [HI' Hret']. split; [by etrans|done].
  - split; [done|]. intros b [=].
Qed.

Lemma guarantees_get_this {B} (R : B → Prop) (f : LegionApiService → M B) :
  (∀ s, guarantees I R (f s)) → guarantees I R (get_this ≫= f).
Proof. intros Hf w. rewrite bind_run. cbn. apply Hf. Qed.

Lemma guarantees_now : guarantees I (λ _, True) (now env).
Proof. intros w. split; [apply lenient_bookkeeping|done]. Qed.

Lemma guarantees_next_request : guarantees I (λ _, True) next_request.
Proof. intros w. split; [apply lenient_bookkeeping|done]. Qed.

Lemma guarantees_emit (e : Event) : Emits I e → guarantees I (λ _, True) (emit e).
Proof. intros He w. split; [apply He|done]. Qed.

Lemma guarantees_forEach {A} (f : A → M unit) (xs : list A) :
  (∀ x, x ∈ xs → guarantees I (λ _, True) (f x)) → guarantees I (λ _, True) (forEach f xs).
Proof.
  induction xs as [|x xs IH]; intros Hf; cbn [forEach].
  - by apply guarantees_ret.
  - eapply guarantees_bind; [apply Hf, list_elem_of_here|].
    intros _ _. apply IH. intros y Hy. apply Hf. by apply list_elem_of_further.
Qed.

Lemma guarantees_mapM {A B} (Q : A → B → Prop) (f : A → M B) (xs : list A) :
  (∀ x, x ∈ xs → guarantees I (Q x) (f x)) → guarantees I (Forall2 Q xs) (mapM f xs).
Proof.
  induction xs as [|x xs IH]; intros Hf; cbn [mapM].
  - apply guarantees_ret. constructor.
  - eapply guarantees_bind; [apply Hf, list_elem_of_here|].
    intros y Hy. eapply guarantees_bind.
    + apply IH. intros z Hz. apply Hf. by apply list_elem_of_further.
    + intros ys Hys. apply guarantees_ret. by constructor.
Qed.

Lemma guarantees_foldM {A B} (Q : B → Prop) (f : B → A → M B) (b : B) (xs : list A) :
  Q b → (∀ b x, x ∈ xs → Q b → guarantees I Q (f b x)) → guarantees I Q (foldM f b xs).
Proof.
  revert b. induction xs as [|x xs IH]; intros b Hb Hf; cbn [foldM].
  - by apply guarantees_ret.
  - eapply guarantees_bind; [by apply Hf; [apply list_elem_of_here|]|].
    intros b' Hb'. apply IH; [done|]. intros b'' y Hy. apply Hf. by apply list_elem_of_further.
Qed.

Lemma selectApiKey_moves_cursor (minion : option MinionConfig.t) (w : World) :
  ∃ i, (_selectApiKey minion w).2 = set_cursor i w.
Proof.
  unfold _selectApiKey. run.
  destruct (pinned_key minion (apiKeys (this w))).
  - exists (apiKeyRoundRobinIndex (this w)). cbn. by rewrite set_cursor_same.
  - case_bool_decide.
    + eexists. by destruct (apiKeys (this w) !! apiKeyRoundRobinIndex (this w)).
    + exists (apiKeyRoundRobinIndex (this w)). cbn. by rewrite set_cursor_same.
Qed.

Lemma guarantees_selectApiKey (minion : option MinionConfig.t) :
  guarantees I (λ _, True) (_selectApiKey minion).
Proof.
  intros w. split; [|done].
  destruct (selectApiKey_moves_cursor minion w) as [i ->]. apply lenient_cursor.
Qed.

Lemma guarantees_createApiKeyLogMessage (channelId minionName : string)
    (keyInfo : SelectedKeyInfo.t) (stage : string) :
  guarantees I (λ log, ChatMessageData.isApiKeyLog log = Some true ∧
                       ChatMessageData.isError log = None ∧
                       ChatMessageData.content log = key_log_text minionName keyInfo stage)
    (_createApiKeyLogMessage env channelId minionName keyInfo stage).
Proof.
  unfold _createApiKeyLogMessage.
  eapply guarantees_bind; [apply guarantees_now|]. intros t1 _.
  eapply guarantees_bind; [apply guarantees_now|]. intros t2 _.
  by apply guarantees_ret.
Qed.

Lemma guarantees_system_notice (idPrefix channelId content : string)
    (isError : option bool) :
  guarantees I (λ notice, ChatMessageData.content notice = content ∧
                          ChatMessageData.senderType notice = System ∧
                          ChatMessageData.isError notice = isError ∧
                          ChatMessageData.isApiKeyLog notice = None)
    (system_notice env idPrefix channelId content isError).
Proof.
  unfold system_notice.
  eapply guarantees_bind; [apply guarantees_now|]. intros t1 _.
  eapply guarantees_bind; [apply guarantees_now|]. intros t2 _.
  by apply guarantees_ret.
Qed.

Lemma guarantees_updateMinionState (minionId : string) (plan : PerceptionPlan.t) :
  MinionsFree I → guarantees I (λ _, True) (updateMinionState minionId plan).
Proof.
  intros Hfree w. split; [|done]. unfold updateMinionState. run.
  destruct (findIndex _ _); cbn; [apply Hfree|reflexivity].
Qed.

End Guarantees.

(** Sequencing: first the guarantee of the head, then of the rest. *)
Ltac gbind :=
  eapply guarantees_bind; try match goal with |- Lenient _ => apply _ end.
Ltac gapply lem :=
  first [apply lem | eapply lem]; try match goal with |- Lenient _ => apply _ end.
Ltac gstep lem :=
  gbind; [first [apply lem | eapply lem]; try match goal with |- Lenient _ => apply _ end
         | intros ? ?].

Global Instance trace_grows_preorder (P : Event → Prop) : PreOrder (trace_grows P).
Proof.
  split.
  - intros w. exists []. by rewrite app_nil_r.
  - intros w1 w2 w3 (e1 & H1 & HP1) (e2 & H2 & HP2). exists (e1 ++ e2). split.
    + by rewrite H2, H1, app_assoc.
    + by apply Forall_app.
Qed.

Global Instance trace_grows_lenient (P : Event → Prop) : Lenient (trace_grows P).
Proof.
  split; [apply _|..].
  - intros w store c r. exists []. cbn. by rewrite app_nil_r.
  - intros w i. exists []. cbn. by rewrite app_nil_r.
Qed.

Lemma trace_grows_minions (P : Event → Prop) : MinionsFree (trace_grows P).
Proof. intros w ms. exists []. cbn. by rewrite app_nil_r. Qed.

Lemma trace_grows_messages (P : Event → Prop) : MessagesFree (trace_grows P).
Proof. intros w ms. exists []. cbn. by rewrite app_nil_r. Qed.

Lemma trace_grows_emits (P : Event → Prop) (e : Event) : P e → Emits (trace_grows P) e.
Proof. intros HP w. exists [e]. cbn. split; [done|]. by constructor. Qed.

Global Instance same_messages_preorder : PreOrder same_messages.
Proof.
  split.
  - by intros w.
  - intros w1 w2 w3 H1 H2. unfold same_messages in *. congruence.
Qed.

Global Instance same_messages_lenient : Lenient same_messages.
Proof. split; [apply _|..]; by intros. Qed.

Lemma same_messages_minions : MinionsFree same_messages.
Proof. by intros w ms. Qed.

Lemma same_messages_emits (e : Event) : Emits same_messages e.
Proof. by intros w. Qed.

(** ** The two batches: what they show to the outside *)

Section Batches.
Context (env : Environment).
Context {json_minions : Json (list MinionConfig.t)}.
Context {json_channels : Json (list Channel.t)}.
Context {json_messages : Json (gmap string (list ChatMessageData.t))}.
Context {json_apiKeys : Json (list ApiKey.t)}.

Section Generic.
Context (I : relation World) `{!Lenient I}.

Lemma guarantees_saveState : guarantees I (λ _, True) saveState.
Proof. intros w. split; [|done]. rewrite saveState_saved. apply lenient_bookkeeping. Qed.

Lemma guarantees_callGeminiApiForJson (minionName prompt model : string) (temperature : Qc)
    (apiKey : string) :
  (∀ e, perception_event minionName e → Emits I e) →
  guarantees I (λ _, True) (callGeminiApiForJson env minionName prompt model temperature apiKey).
Proof.
  intros Hemit. unfold callGeminiApiForJson. destruct (negb (truthy apiKey)).
  - by apply guarantees_ret.
  - gstep guarantees_next_request.
    gstep guarantees_emit; [by apply Hemit|].
    by apply guarantees_ret.
Qed.

Lemma guarantees_replace_by_id (channelId messageId : string) (errorMsg : ChatMessageData.t) :
  MessagesFree I → guarantees I (λ _, True) (replace_by_id channelId messageId errorMsg).
Proof. intros Hfree w. split; [|done]. cbn. apply Hfree. Qed.

Lemma guarantees_on_stream_callback (channelId messageId : string) (minion : MinionConfig.t)
    (plan : PerceptionPlan.t) (accumulatedContent : string) (cb : StreamCallback) :
  (∀ e, response_event (MinionConfig.name minion) e → Emits I e) →
  MinionsFree I → MessagesFree I →
  guarantees I (λ _, True)
    (on_stream_callback env channelId messageId minion plan accumulatedContent cb).
Proof.
  intros Hemit Hminions Hmessages. destruct cb as [chunk [|]|errorMessage]; cbn [on_stream_callback].
  - gstep guarantees_now.
    gstep guarantees_emit; [by apply Hemit|].
    gstep guarantees_updateMinionState; [done|].
    intros w. split; [|done]. cbn. apply Hmessages.
  - gstep guarantees_emit; [by apply Hemit|]. by apply guarantees_ret.
  - gstep guarantees_now.
    gstep guarantees_emit; [by apply Hemit|].
    gstep guarantees_replace_by_id; [done|]. by apply guarantees_ret.
Qed.

Lemma guarantees_callGeminiAPIStream (minionName prompt model : string) (temperature : Qc)
    (apiKey : string) :
  (∀ e, response_event minionName e → Emits I e) →
  guarantees I (λ _, True) (callGeminiAPIStream env minionName prompt model temperature apiKey).
Proof.
  intros Hemit. unfold callGeminiAPIStream. destruct (negb (truthy apiKey)).
  - by apply guarantees_ret.
  - gstep guarantees_next_request.
    gstep guarantees_emit; [by apply Hemit|].
    destruct (generateContentStream _ _ _ _ _ _). by apply guarantees_ret.
Qed.

Lemma guarantees_runStreamingResponse (channelId messageId : string) (minion : MinionConfig.t)
    (plan : PerceptionPlan.t) (prompt : string) (keyInfo : SelectedKeyInfo.t) :
  (∀ e, response_event (MinionConfig.name minion) e → Emits I e) →
  MinionsFree I → MessagesFree I →
  guarantees I (λ _, True)
    (runStreamingResponse env channelId messageId minion plan prompt keyInfo).
Proof.
  intros Hemit Hminions Hmessages. unfold runStreamingResponse.
  destruct (negb (truthy (SelectedKeyInfo.key keyInfo))).
  - gstep guarantees_now.
    gstep guarantees_emit; [by apply Hemit|].
    by apply guarantees_replace_by_id.
  - gstep guarantees_callGeminiAPIStream; [done|].
    gbind; [|intros; by apply guarantees_ret].
    apply (guarantees_foldM I (λ _, True)); [done|].
    intros acc cb _ _. by apply guarantees_on_stream_callback.
Qed.

(** The perception of one minion in either batch. *)
Lemma guarantees_handleUserMessage_perception (channelId initialChatHistory : string)
    (userMessage : ChatMessageData.t) (activeChannel : Channel.t) (minion : MinionConfig.t) :
  (∀ e, perception_event (MinionConfig.name minion) e → Emits I e) →
  guarantees I (λ outcome, PerceptionOutcome.minion outcome = minion)
    (handleUserMessage_perception env channelId initialChatHistory userMessage activeChannel
       minion).
Proof.
  intros Hemit. unfold handleUserMessage_perception.
  gstep guarantees_selectApiKey.
  gbind; [by apply guarantees_createApiKeyLogMessage|]. intros log (Hlog & Herr & Htext).
  gstep guarantees_emit; [apply Hemit; cbn; eauto|].
  destruct (negb (truthy _)).
  - by apply guarantees_ret.
  - gstep guarantees_callGeminiApiForJson; [done|]. by apply guarantees_ret.
Qed.

Lemma guarantees_triggerNextAutoChatTurn_perception (channelId chatHistory : string)
    (lastMessage : ChatMessageData.t) (activeChannel : Channel.t) (minion : MinionConfig.t) :
  (MinionConfig.name minion ≠ ChatMessageData.senderName lastMessage →
   ∀ e, perception_event (MinionConfig.name minion) e → Emits I e) →
  guarantees I
    (λ outcome, PerceptionOutcome.minion outcome = minion ∧
                (MinionConfig.name minion = ChatMessageData.senderName lastMessage →
                 PerceptionOutcome.plan outcome = None))
    (triggerNextAutoChatTurn_perception env channelId chatHistory lastMessage activeChannel
       minion).
Proof.
  intros Hemit. unfold triggerNextAutoChatTurn_perception. case_bool_decide as Hself.
  - by apply guarantees_ret.
  - specialize (Hemit Hself).
    gstep guarantees_selectApiKey.
    gbind; [by apply guarantees_createApiKeyLogMessage|]. intros log (Hlog & Herr & Htext).
    gstep guarantees_emit; [apply Hemit; cbn; eauto|].
    destruct (negb (truthy _)).
    + by apply guarantees_ret.
    + gstep guarantees_callGeminiApiForJson; [done|]. by apply guarantees_ret.
Qed.

End Generic.

Lemma guarantees_run {A} (I : relation World) (Q : A → Prop) (m : M A) (w : World) :
  guarantees I Q m → I w (m w).2.
Proof. intros Hm. apply Hm. Qed.

(** *** Sorting the speakers *)

Lemma sort_insert_Permutation {A} (compareFn : A → A → Z) (x : A) (xs : list A) :
  sort_insert compareFn x xs ≡ₚ x :: xs.
Proof.
  induction xs as [|y xs IH]; cbn; [done|].
  destruct (compareFn x y <=? 0)%Z; [done|].
  rewrite IH. apply Permutation_swap.
Qed.

Lemma Array_sort_Permutation {A} (compareFn : A → A → Z) (xs : list A) :
  Array_sort compareFn xs ≡ₚ xs.
Proof.
  induction xs as [|x xs IH]; cbn; [done|].
  rewrite sort_insert_Permutation. by rewrite IH.
Qed.

Lemma speaking_elem (results : list PerceptionOutcome.t) (minion : MinionConfig.t)
    (plan : PerceptionPlan.t) :
  (minion, plan) ∈ speaking results →
  ∃ r, r ∈ results ∧ PerceptionOutcome.minion r = minion ∧
       PerceptionOutcome.plan r = Some plan ∧
       PerceptionPlan.action plan = PerceptionPlan.SPEAK.
Proof.
  unfold speaking. intros Hin. apply list_elem_of_omap in Hin as (r & Hr & Hsome).
  exists r. split; [done|].
  destruct (PerceptionOutcome.plan r) as [p|]; [|done].
  destruct (PerceptionPlan.action p) eqn:Hact; [|done].
  by injection Hsome as <- <-.
Qed.

Lemma head_sorted_speaking (results : list PerceptionOutcome.t) (minion : MinionConfig.t)
    (plan : PerceptionPlan.t) :
  head (Array_sort by_predictedResponseTime (speaking results)) = Some (minion, plan) →
  ∃ r, r ∈ results ∧ PerceptionOutcome.minion r = minion ∧
       PerceptionOutcome.plan r = Some plan ∧
       PerceptionPlan.action plan = PerceptionPlan.SPEAK.
Proof.
  intros Hhead. apply speaking_elem.
  rewrite <- (Array_sort_Permutation by_predictedResponseTime).
  destruct (Array_sort _ _) as [|x xs]; [done|]. injection Hhead as ->. apply list_elem_of_here.
Qed.

(** *** The autonomous batch and the author of the last message *)

Lemma spares_perception (sender name : string) (e : Event) :
  name ≠ sender → perception_event name e → spares sender e.
Proof.
  intros Hne He. destruct e; cbn in He; try done; split; cbn; try tauto.
  - destruct He as (_ & He & _). by rewrite He.
  - by subst.
Qed.

Lemma spares_response (sender name : string) (e : Event) :
  name ≠ sender → response_event name e → spares sender e.
Proof.
  intros Hne He. destruct e; cbn in He; try done; split; cbn; try tauto; by subst.
Qed.

Lemma spares_notice (sender : string) (notice : ChatMessageData.t) :
  ChatMessageData.isError notice = None → spares sender (onSystemMessage notice).
Proof. intros He. split; cbn; [tauto|]. by rewrite He. Qed.

Lemma spares_update (sender name : string) (b : bool) :
  spares sender (onMinionProcessingUpdate name b).
Proof. split; cbn; tauto. Qed.

Lemma auto_batch_spares (w : World) (channelId : string) (lastMessage : ChatMessageData.t) :
  last (messages_of (this w) channelId) = Some lastMessage →
  trace_grows (spares (ChatMessageData.senderName lastMessage)) w
    (triggerNextAutoChatTurn env channelId w).2.
Proof.
  intros Hlast. set (sender := ChatMessageData.senderName lastMessage).
  unfold triggerNextAutoChatTurn. rewrite bind_run. cbn [get_this].
  destruct (List.find _ _) as [activeChannel|]; [|reflexivity].
  destruct (negb _); [reflexivity|].
  case_bool_decide as Hfew.
  { refine (guarantees_run (trace_grows (spares sender)) (λ _, True) _ w _).
    gbind; [gapply guarantees_system_notice|]. intros notice (_ & _ & Herr & _).
    gapply guarantees_emit. by apply trace_grows_emits, spares_notice. }
  rewrite Hlast.
  refine (guarantees_run (trace_grows (spares sender)) (λ _, True) _ w _).
  gbind.
  { unfold triggerNextAutoChatTurn_perceive. gbind.
    { gapply guarantees_forEach. intros m _.
      gapply guarantees_emit. apply trace_grows_emits, spares_update. }
    intros _ _.
    gapply (guarantees_mapM (trace_grows (spares sender))
             (λ minion outcome,
                PerceptionOutcome.minion outcome = minion ∧
                (MinionConfig.name minion = sender → PerceptionOutcome.plan outcome = None))).
    intros minion _. gapply guarantees_triggerNextAutoChatTurn_perception.
    intros Hne e He. by eapply trace_grows_emits, spares_perception. }
  intros results Hresults. unfold triggerNextAutoChatTurn_schedule. gbind.
  { gapply guarantees_forEach. intros m _.
    gapply guarantees_emit. apply trace_grows_emits, spares_update. }
  intros _ _.
  destruct (head _) as [[minion plan]|] eqn:Hhead.
  - assert (MinionConfig.name minion ≠ sender) as Hne.
    { apply head_sorted_speaking in Hhead as (r & Hr & <- & Hplan & _).
      apply list_elem_of_lookup in Hr as [i Hi].
      destruct (Forall2_lookup_r _ _ _ _ _ Hresults Hi) as (m & Hm & <- & Hnone).
      intros Hself. rewrite Hnone in Hplan; done. }
    assert (∀ e, response_event (MinionConfig.name minion) e →
                 Emits (trace_grows (spares sender)) e) as Hresp.
    { intros e He. by eapply trace_grows_emits, spares_response. }
    gstep guarantees_emit; [apply trace_grows_emits, spares_update|].
    gstep guarantees_now. gstep guarantees_now.
    gstep guarantees_emit; [by apply Hresp|].
    gstep guarantees_selectApiKey.
    gbind; [gapply guarantees_createApiKeyLogMessage|]. intros log (Hlog & Herr & Htext).
    gstep guarantees_emit; [by apply trace_grows_emits, spares_notice|].
    gstep guarantees_runStreamingResponse;
      [done | apply trace_grows_minions | apply trace_grows_messages |].
    gstep guarantees_emit; [apply trace_grows_emits, spares_update|].
    gapply guarantees_saveState.
  - gbind; [gapply guarantees_system_notice|]. intros notice (_ & _ & Herr & _).
    gstep guarantees_emit; [by apply trace_grows_emits, spares_notice|].
    gapply guarantees_saveState.
Qed.

(** C4.  An autonomous batch over a channel whose last message is
    [lastMessage].  For a minion that bears the sender's name the
    perception step returns, in whatever world, the made-up outcome
    "Cannot respond to self." and leaves the world as it was: no key is
    selected, nothing is logged, no request is sent.  The scheduler
    drops that outcome exactly as it drops a plan to stay silent.  And in
    the whole batch no request is made for a minion of that name, no
    message is delivered as spoken by it, and no error notice is
    emitted. *)
Theorem C4_self_trigger_exclusion (w : World) (channelId : string)
    (lastMessage : ChatMessageData.t) :
  last (messages_of (this w) channelId) = Some lastMessage →
  (∀ chatHistory activeChannel minion w0,
     MinionConfig.name minion = ChatMessageData.senderName lastMessage →
     triggerNextAutoChatTurn_perception env channelId chatHistory lastMessage activeChannel
       minion w0 = (Ok (cannot_respond_to_self minion), w0)) ∧
  (∀ minion silentPlan results,
     PerceptionPlan.action silentPlan = PerceptionPlan.STAY_SILENT →
     speaking (cannot_respond_to_self minion :: results) = speaking results ∧
     speaking (PerceptionOutcome.mk minion (Some silentPlan) None :: results)
       = speaking results) ∧
  trace_grows (spares (ChatMessageData.senderName lastMessage)) w
    (triggerNextAutoChatTurn env channelId w).2.
Proof.
  intros Hlast. split; [|split].
  - intros chatHistory activeChannel minion w0 Hself.
    unfold triggerNextAutoChatTurn_perception. by rewrite bool_decide_eq_true_2.
  - intros minion silentPlan results Hsilent. split; [done|].
    unfold speaking. cbn. by rewrite Hsilent.
  - by apply auto_batch_spares.
Qed.

End Batches.

Lemma C4_self_trigger_exclusion_witness :
  trace_grows (spares "Alpha") (world_of service_swarm_after_alpha)
    (run_triggerNextAutoChatTurn env_talkative "swarm" (world_of service_swarm_after_alpha)).2.
Proof.
  exact (proj2 (proj2 (@C4_self_trigger_exclusion env_talkative (json_blank _) (json_blank _)
                         (json_blank _) (json_blank _) (world_of service_swarm_after_alpha)
                         "swarm" alpha_line eq_refl))).
Defined.

(** ** Texts of notices *)

Lemma has_apostrophe_append (a b : string) :
  has_apostrophe (a +:+ b) = has_apostrophe a || has_apostrophe b.
Proof. induction a as [|c a IH]; simpl; [done|]. by rewrite IH, orb_assoc. Qed.

Lemma key_log_text_not_all_silent (minionName : string) (keyInfo : SelectedKeyInfo.t)
    (stage : string) :
  key_log_text minionName keyInfo stage ≠ ALL_SILENT_NOTICE.
Proof.
  intros Heq. apply (f_equal has_apostrophe) in Heq.
  unfold key_log_text in Heq. rewrite !has_apostrophe_append in Heq.
  change (has_apostrophe " is using key '") with true in Heq.
  rewrite orb_true_r in Heq. vm_compute in Heq. discriminate.
Qed.

Lemma string_length_append (a b : string) :
  String.length (a +:+ b) = (String.length a + String.length b)%nat.
Proof. induction a as [|c a IH]; simpl; [done|]. by rewrite IH. Qed.

Lemma string_drop_append (a b : string) : string_drop (String.length a) (a +:+ b) = b.
Proof. induction a as [|c a IH]; simpl; [by destruct b|done]. Qed.

Lemma silent_text_not_all_silent (name : string) :
  name +:+ " chose to remain silent." ≠ ALL_SILENT_NOTICE.
Proof.
  intros Heq.
  assert (String.length name = 21%nat) as Hlen.
  { apply (f_equal String.length) in Heq. rewrite string_length_append in Heq.
    cbn in Heq. lia. }
  pose proof (string_drop_append name " chose to remain silent.") as Hdrop.
  rewrite Heq, Hlen in Hdrop. vm_compute in Hdrop. discriminate.
Qed.

(** ** Methods that always return *)

Lemma never_throws_ret {A} (a : A) : never_throws (mret a).
Proof. intros w. by exists a. Qed.

Lemma never_throws_bind {A B} (m : M A) (f : A → M B) :
  never_throws m → (∀ a, never_throws (f a)) → never_throws (m ≫= f).
Proof.
  intros Hm Hf w. rewrite bind_run. destruct (Hm w) as [a Ha].
  destruct (m w) as [[a'|e] w1]; cbn in Ha; [|done]. apply Hf.
Qed.

Lemma never_throws_emit (e : Event) : never_throws (emit e).
Proof. intros w. by exists tt. Qed.

Lemma never_throws_forEach {A} (f : A → M unit) (xs : list A) :
  (∀ x, never_throws (f x)) → never_throws (forEach f xs).
Proof.
  intros Hf. induction xs as [|x xs IH]; cbn [forEach].
  - apply never_throws_ret.
  - apply never_throws_bind; [apply Hf|]. intros _. apply IH.
Qed.

Lemma never_throws_foldM {A B} (f : B → A → M B) (b : B) (xs : list A) :
  (∀ b x, never_throws (f b x)) → never_throws (foldM f b xs).
Proof.
  intros Hf. revert b. induction xs as [|x xs IH]; intros b; cbn [foldM].
  - apply never_throws_ret.
  - apply never_throws_bind; [apply Hf|]. intros b'. apply IH.
Qed.

Lemma never_throws_system_notice (env : Environment) (idPrefix channelId content : string)
    (isError : option bool) :
  never_throws (system_notice env idPrefix channelId content isError).
Proof. intros w. eexists. reflexivity. Qed.

Lemma never_throws_updateMinionState (minionId : string) (plan : PerceptionPlan.t) :
  never_throws (updateMinionState minionId plan).
Proof.
  intros w. exists tt. unfold updateMinionState. run. by destruct (findIndex _ _).
Qed.

Lemma never_throws_handleUserMessage_outcome (env : Environment) (channelId : string)
    (speakers : list (MinionConfig.t * PerceptionPlan.t)) (r : PerceptionOutcome.t) :
  never_throws (handleUserMessage_outcome env channelId speakers r).
Proof.
  unfold handleUserMessage_outcome. destruct (usable_plan r) as [plan|].
  - apply never_throws_bind; [apply never_throws_updateMinionState|]. intros _.
    destruct (PerceptionPlan.action plan).
    + apply never_throws_ret.
    + apply never_throws_bind; [apply never_throws_system_notice|]. intros notice.
      apply never_throws_bind; [apply never_throws_emit|]. intros _. apply never_throws_ret.
  - apply never_throws_bind; [apply never_throws_system_notice|]. intros notice.
    apply never_throws_bind; [apply never_throws_emit|]. intros _. apply never_throws_ret.
Qed.

Lemma forEach_emit {A} (event_of : A → Event) (xs : list A) (w : World) :
  forEach (λ x, emit (event_of x)) xs w = (Ok tt, record (event_of <$> xs) w).
Proof.
  revert w. induction xs as [|x xs IH]; intros w; cbn [forEach fmap list_fmap].
  - unfold record. rewrite app_nil_r. by destruct w.
  - rewrite bind_run. cbn [emit]. rewrite IH. unfold record. cbn.
    by rewrite <- app_assoc.
Qed.

(** ** Batches in which nobody speaks *)

Section Silence.
Context (env : Environment).
Context {json_minions : Json (list MinionConfig.t)}.
Context {json_channels : Json (list Channel.t)}.
Context {json_messages : Json (gmap string (list ChatMessageData.t))}.
Context {json_apiKeys : Json (list ApiKey.t)}.

Lemma quiet_perception (name : string) (e : Event) : perception_event name e → quiet e.
Proof.
  destruct e; cbn; try done; intros He; split; cbn; try tauto.
  destruct He as (_ & _ & keyInfo & stage & ->). apply key_log_text_not_all_silent.
Qed.

Lemma quiet_update (name : string) (b : bool) : quiet (onMinionProcessingUpdate name b).
Proof. split; cbn; tauto. Qed.

Lemma quiet_notice (notice : ChatMessageData.t) :
  ChatMessageData.content notice ≠ ALL_SILENT_NOTICE → quiet (onSystemMessage notice).
Proof. intros Hne. split; cbn; tauto. Qed.

Lemma filter_none {A} (P : A → Prop) `{∀ x, Decision (P x)} (xs : list A) :
  Forall (λ x, ¬ P x) xs → filter P xs = [].
Proof.
  induction 1 as [|x xs Hx Hxs IH]; [done|]. by rewrite filter_cons_False.
Qed.

Lemma quiet_triggerNextAutoChatTurn_perceive (channelId chatHistory : string)
    (lastMessage : ChatMessageData.t) (activeChannel : Channel.t)
    (minions : list MinionConfig.t) :
  guarantees (trace_grows quiet) (λ _, True)
    (triggerNextAutoChatTurn_perceive env channelId chatHistory lastMessage activeChannel
       minions).
Proof.
  unfold triggerNextAutoChatTurn_perceive. gbind.
  { gapply guarantees_forEach. intros m _.
    gapply guarantees_emit. apply trace_grows_emits, quiet_update. }
  intros _ _. eapply guarantees_weaken; [done|].
  gapply (guarantees_mapM (trace_grows quiet)
            (λ minion outcome, PerceptionOutcome.minion outcome = minion ∧
               (MinionConfig.name minion = ChatMessageData.senderName lastMessage →
                PerceptionOutcome.plan outcome = None))).
  intros minion _. gapply guarantees_triggerNextAutoChatTurn_perception.
  intros _ e He. by eapply trace_grows_emits, quiet_perception.
Qed.

Lemma quiet_handleUserMessage_perceive (channelId initialChatHistory : string)
    (userMessage : ChatMessageData.t) (activeChannel : Channel.t)
    (minions : list MinionConfig.t) :
  guarantees (trace_grows quiet) (λ _, True)
    (handleUserMessage_perceive env channelId initialChatHistory userMessage activeChannel
       minions).
Proof.
  unfold handleUserMessage_perceive. gbind.
  { gapply guarantees_forEach. intros m _.
    gapply guarantees_emit. apply trace_grows_emits, quiet_update. }
  intros _ _. eapply guarantees_weaken; [done|].
  gapply (guarantees_mapM (trace_grows quiet)
            (λ minion outcome, PerceptionOutcome.minion outcome = minion)).
  intros minion _. gapply guarantees_handleUserMessage_perception.
  intros e He. by eapply trace_grows_emits, quiet_perception.
Qed.

(** An outcome that is not in the SPEAK set adds no speaker and shows
    nothing but a notice about that minion. *)
Lemma quiet_handleUserMessage_outcome (channelId : string) (r : PerceptionOutcome.t) :
  speaking_usable [r] = [] →
  guarantees (trace_grows quiet) (λ speakers, speakers = [])
    (handleUserMessage_outcome env channelId [] r).
Proof.
  unfold speaking_usable, handleUserMessage_outcome. cbn [omap list_omap].
  destruct (usable_plan r) as [plan|].
  - destruct (PerceptionPlan.action plan); [done|]. intros _.
    gstep guarantees_updateMinionState; [apply trace_grows_minions|].
    gbind; [gapply guarantees_system_notice|]. intros notice (Hcontent & _).
    gstep guarantees_emit; [|gapply guarantees_ret; done].
    apply trace_grows_emits, quiet_notice. rewrite Hcontent.
    apply silent_text_not_all_silent.
  - intros _.
    gbind; [gapply guarantees_system_notice|]. intros notice (Hcontent & _).
    gstep guarantees_emit; [|gapply guarantees_ret; done].
    apply trace_grows_emits, quiet_notice. rewrite Hcontent. discriminate.
Qed.

Lemma outcomes_all_silent (channelId : string) (results : list PerceptionOutcome.t) (w : World) :
  speaking_usable results = [] →
  ∃ w', foldM (handleUserMessage_outcome env channelId) [] results w = (Ok [], w') ∧
        trace_grows quiet w w'.
Proof.
  revert w. induction results as [|r results IH]; intros w Hsilent; cbn [foldM].
  - exists w. split; [done|reflexivity].
  - assert (speaking_usable [r] = [] ∧ speaking_usable results = []) as [Hr Hrest].
    { unfold speaking_usable in *. cbn [omap list_omap] in *.
      destruct (match usable_plan r with Some _ => _ | None => _ end); [done|].
      by rewrite Hsilent. }
    rewrite bind_run.
    destruct (quiet_handleUserMessage_outcome channelId r Hr w) as [Htrace Hret].
    destruct (never_throws_handleUserMessage_outcome env channelId [] r w) as [speakers Hok].
    destruct (handleUserMessage_outcome env channelId [] r w) as [res w1]. cbn in *. subst res.
    rewrite (Hret speakers eq_refl).
    destruct (IH w1 Hrest) as (w' & Hrun & Htrace').
    exists w'. split; [done|]. by etrans.
Qed.

End Silence.
Section SilentBatches.
Context (env : Environment).
Context {json_minions : Json (list MinionConfig.t)}.
Context {json_channels : Json (list Channel.t)}.
Context {json_messages : Json (gmap string (list ChatMessageData.t))}.
Context {json_apiKeys : Json (list ApiKey.t)}.

Lemma app_assoc_3 {A} (a b c d : list A) : ((a ++ b) ++ c) ++ d = a ++ b ++ c ++ d.
Proof. by rewrite <- !app_assoc. Qed.

Lemma messages_of_with_messages (s : LegionApiService) (channelId c : string)
    (l : list ChatMessageData.t) :
  messages_of (with_messages (<[channelId := l]> (messages s)) s) c
  = if decide (channelId = c) then l else messages_of s c.
Proof.
  unfold messages_of. cbn. case_decide as Hc.
  - subst. by rewrite lookup_insert_eq.
  - by rewrite lookup_insert_ne.
Qed.

Lemma system_notice_run (idPrefix channelId content : string) (isError : option bool)
    (w : World) :
  system_notice env idPrefix channelId content isError w =
    (Ok (ChatMessageData.mk (idPrefix +:+ pretty (Date_now env (clock w))) channelId System
           "System" content (Date_now env (S (clock w))) None isError None None None),
     mkWorld (this w) (localStorage w) (observed w) (S (S (clock w))) (requests w)).
Proof. reflexivity. Qed.

Lemma auto_all_silent (w : World) (channelId : string) (activeChannel : Channel.t)
    (lastMessage : ChatMessageData.t) (results : list PerceptionOutcome.t) (w1 : World) :
  List.find (λ c, bool_decide (Channel.id c = channelId)) (channels (this w))
    = Some activeChannel →
  Channel.isAutoModeActive activeChannel = Some true →
  (2 ≤ length (minionsInChannel_of activeChannel (this w)))%nat →
  last (messages_of (this w) channelId) = Some lastMessage →
  triggerNextAutoChatTurn_perceive env channelId
    (formatChatHistoryForLLM (messages_of (this w) channelId) channelId) lastMessage
    activeChannel (minionsInChannel_of activeChannel (this w)) w = (Ok results, w1) →
  speaking results = [] →
  (triggerNextAutoChatTurn env channelId w).1 = Ok tt ∧
  ∃ events, observed (triggerNextAutoChatTurn env channelId w).2 = observed w ++ events ∧
            length (filter all_silent_notice events) = 1%nat ∧
            Forall (λ e, ¬ response_stage e) events.
Proof.
  intros Hfind Hauto Hmany Hlast Hperceive Hsilent.
  pose proof (guarantees_run _ _ _ w
                (quiet_triggerNextAutoChatTurn_perceive env channelId
                   (formatChatHistoryForLLM (messages_of (this w) channelId) channelId)
                   lastMessage activeChannel (minionsInChannel_of activeChannel (this w))))
    as (perceived & Hperceived & Hquiet).
  rewrite Hperceive in Hperceived. cbn [snd] in Hperceived.
  unfold triggerNextAutoChatTurn. rewrite bind_run. cbn [get_this].
  rewrite Hfind, Hauto. rewrite (bool_decide_eq_true_2 (Some true = Some true)) by done.
  cbn [negb]. rewrite bool_decide_eq_false_2 by lia. rewrite Hlast.
  rewrite bind_run, Hperceive. unfold triggerNextAutoChatTurn_schedule.
  rewrite Hsilent. cbn [Array_sort head]. rewrite bind_run, forEach_emit.
  rewrite bind_run, system_notice_run, bind_run. cbn [emit]. rewrite saveState_saved.
  split; [reflexivity|].
  eexists (perceived ++ _ ++ [_]). split.
  { cbn. rewrite Hperceived. apply app_assoc_3. }
  split.
  - rewrite !filter_app, !length_app.
    rewrite (filter_none all_silent_notice perceived).
    2:{ eapply Forall_impl; [exact Hquiet|]. by intros e [He _]. }
    rewrite (filter_none all_silent_notice (_ <$> _)).
    2:{ apply Forall_fmap, Forall_true. intros m. cbn. tauto. }
    rewrite filter_cons_True by reflexivity. reflexivity.
  - apply Forall_app. split; [|apply Forall_app; split].
    + eapply Forall_impl; [exact Hquiet|]. by intros e [_ He].
    + apply Forall_fmap, Forall_true. intros m. cbn. tauto.
    + constructor; [cbn; tauto|constructor].
Qed.

Lemma notices_app (xs ys : list Event) : notices (xs ++ ys) = notices xs ++ notices ys.
Proof. apply omap_app. Qed.

Lemma notices_discreet (events : list Event) : Forall discreet events → notices events = [].
Proof.
  induction 1 as [|e events [_ He] _ IH]; [done|].
  change (e :: events) with ([e] ++ events). by rewrite notices_app, He, IH.
Qed.

Lemma discreet_perception (name : string) (e : Event) : perception_event name e → discreet e.
Proof.
  intros He. split; [by eapply quiet_perception|].
  destruct e; cbn in *; try done. destruct He as (Hlog & _). by rewrite bool_decide_eq_true_2.
Qed.

Lemma discreet_update (name : string) (b : bool) : discreet (onMinionProcessingUpdate name b).
Proof. split; [apply quiet_update|done]. Qed.

(** The perceptions of the batch of the commander show no notice, and
    there is one outcome for each minion, in their order. *)
Lemma discreet_handleUserMessage_perceive (channelId initialChatHistory : string)
    (userMessage : ChatMessageData.t) (activeChannel : Channel.t)
    (minions : list MinionConfig.t) :
  guarantees (trace_grows discreet)
    (λ results, PerceptionOutcome.minion <$> results = minions)
    (handleUserMessage_perceive env channelId initialChatHistory userMessage activeChannel
       minions).
Proof.
  unfold handleUserMessage_perceive. gbind.
  { gapply guarantees_forEach. intros m _.
    gapply guarantees_emit. apply trace_grows_emits, discreet_update. }
  intros _ _. eapply guarantees_weaken.
  2:{ gapply (guarantees_mapM (trace_grows discreet)
                (λ minion outcome, PerceptionOutcome.minion outcome = minion)).
      intros minion _. gapply guarantees_handleUserMessage_perception.
      intros e He. by eapply trace_grows_emits, discreet_perception. }
  intros results Hresults. cbn beta in Hresults.
  induction Hresults as [|minion r minions' results' Hr _ IH]; [done|].
  cbn [fmap list_fmap]. by rewrite Hr, IH.
Qed.

Lemma updateMinionState_observed (minionId : string) (plan : PerceptionPlan.t) (w : World) :
  ∃ w', updateMinionState minionId plan w = (Ok tt, w') ∧ observed w' = observed w.
Proof.
  unfold updateMinionState. run. destruct (findIndex _ _); by eexists.
Qed.

(** An outcome that is not in the SPEAK set adds no speaker and shows
    one callback, the notice about its minion. *)
Lemma handleUserMessage_outcome_notice (channelId : string) (r : PerceptionOutcome.t)
    (w : World) :
  speaking_usable [r] = [] →
  ∃ notice w',
    handleUserMessage_outcome env channelId [] r w = (Ok [], w') ∧
    observed w' = observed w ++ [onSystemMessage notice] ∧
    silence_notice channelId r notice ∧
    ChatMessageData.isApiKeyLog notice = None ∧
    quiet (onSystemMessage notice).
Proof.
  unfold speaking_usable, handleUserMessage_outcome, silence_notice. cbn [omap list_omap].
  destruct (usable_plan r) as [plan|].
  - destruct (PerceptionPlan.action plan) eqn:Haction; [done|]. intros _.
    destruct (updateMinionState_observed (MinionConfig.id (PerceptionOutcome.minion r)) plan w)
      as (w1 & Hupdate & Hobserved).
    rewrite bind_run, Hupdate, bind_run, system_notice_run, bind_run. cbn [emit].
    eexists _, _. split; [reflexivity|]. cbn. rewrite Hobserved. split; [done|].
    split; [done|]. split; [done|]. apply quiet_notice, silent_text_not_all_silent.
  - intros _. rewrite bind_run, system_notice_run, bind_run. cbn [emit].
    eexists _, _. split; [reflexivity|]. cbn. split; [done|].
    split; [done|]. split; [done|]. by apply quiet_notice.
Qed.

Lemma outcomes_all_silent_notices (channelId : string) (results : list PerceptionOutcome.t)
    (w : World) :
  speaking_usable results = [] →
  ∃ w' events,
    foldM (handleUserMessage_outcome env channelId) [] results w = (Ok [], w') ∧
    observed w' = observed w ++ events ∧
    Forall quiet events ∧
    Forall2 (silence_notice channelId) results (notices events).
Proof.
  revert w. induction results as [|r results IH]; intros w Hsilent; cbn [foldM].
  - exists w, []. by rewrite app_nil_r.
  - assert (speaking_usable [r] = [] ∧ speaking_usable results = []) as [Hr Hrest].
    { unfold speaking_usable in *. cbn [omap list_omap] in *.
      destruct (match usable_plan r with Some _ => _ | None => _ end); [done|].
      by rewrite Hsilent. }
    destruct (handleUserMessage_outcome_notice channelId r w Hr)
      as (notice & w1 & Hrun & Hobserved & Hnotice & Hlog & Hquiet).
    rewrite bind_run, Hrun.
    destruct (IH w1 Hrest) as (w' & events & Hrest_run & Hrest_observed & Hrest_quiet & Hrest_notices).
    exists w', (onSystemMessage notice :: events). split; [done|]. split.
    { rewrite Hrest_observed, Hobserved. by rewrite <- app_assoc. }
    split; [by constructor|].
    change (onSystemMessage notice :: events) with ([onSystemMessage notice] ++ events).
    rewrite notices_app. cbn. rewrite Hlog. cbn. by constructor.
Qed.

Lemma user_all_silent (w : World) (channelId : string) (userMessage : ChatMessageData.t)
    (activeChannel : Channel.t) (results : list PerceptionOutcome.t) (w1 : World) :
  List.find (λ c, bool_decide (Channel.id c = channelId)) (channels (this w))
    = Some activeChannel →
  minionsInChannel_of activeChannel (this w) ≠ [] →
  handleUserMessage_perceive env channelId
    (formatChatHistoryForLLM (messages_of (this w) channelId ++ [userMessage]) channelId)
    userMessage activeChannel (minionsInChannel_of activeChannel (this w))
    (posted channelId userMessage w) = (Ok results, w1) →
  speaking_usable results = [] →
  (handleUserMessage env channelId userMessage w).1 = Ok tt ∧
  ∃ events, observed (handleUserMessage env channelId userMessage w).2 = observed w ++ events ∧
            Forall (λ e, ¬ all_silent_notice e) events ∧
            Forall (λ e, ¬ response_stage e) events ∧
            PerceptionOutcome.minion <$> results = minionsInChannel_of activeChannel (this w) ∧
            Forall2 (silence_notice channelId) results (notices events).
Proof.
  intros Hfind Hsome Hperceive Hsilent.
  pose proof (discreet_handleUserMessage_perceive channelId
                (formatChatHistoryForLLM (messages_of (this w) channelId ++ [userMessage])
                   channelId)
                userMessage activeChannel (minionsInChannel_of activeChannel (this w))
                (posted channelId userMessage w))
    as [(perceived & Hperceived & Hdiscreet) Hminions].
  rewrite Hperceive in Hperceived, Hminions. cbn [fst snd posted observed] in Hperceived.
  specialize (Hminions results eq_refl).
  destruct (outcomes_all_silent_notices channelId results w1 Hsilent)
    as (w2 & digested & Hloop & Hdigested & Hquiet2 & Hnotices).
  unfold handleUserMessage. rewrite bind_run. cbn [get_this]. rewrite bind_run. cbn [set_this].
  rewrite bind_run. cbn [get_this this channels with_messages]. rewrite Hfind.
  change (minionsInChannel_of activeChannel (with_messages _ _))
    with (minionsInChannel_of activeChannel (this w)).
  rewrite bool_decide_eq_false_2 by (intros Hlen; apply Hsome; by apply nil_length_inv).
  rewrite messages_of_with_messages, decide_True by done.
  rewrite bind_run. fold (posted channelId userMessage w). rewrite Hperceive.
  unfold handleUserMessage_schedule. rewrite bind_run, Hloop.
  cbn [existsb]. rewrite bind_run, forEach_emit.
  cbn [Array_sort foldM]. rewrite bind_run. cbn [mret M_ret]. rewrite saveState_saved.
  split; [reflexivity|].
  eexists (perceived ++ digested ++ _). split.
  { cbn. rewrite Hdigested, Hperceived. apply app_assoc_3. }
  split.
  { apply Forall_app. split; [|apply Forall_app; split].
    - eapply Forall_impl; [exact Hdiscreet|]. by intros e [[He _] _].
    - eapply Forall_impl; [exact Hquiet2|]. by intros e [He _].
    - apply Forall_fmap, Forall_true. intros m. cbn. tauto. }
  split.
  { apply Forall_app. split; [|apply Forall_app; split].
    - eapply Forall_impl; [exact Hdiscreet|]. by intros e [[_ He] _].
    - eapply Forall_impl; [exact Hquiet2|]. by intros e [_ He].
    - apply Forall_fmap, Forall_true. intros m. cbn. tauto. }
  split; [exact Hminions|].
  rewrite !notices_app, (notices_discreet perceived Hdiscreet).
  rewrite (notices_discreet (_ <$> _)).
  - by rewrite app_nil_r.
  - apply Forall_fmap, Forall_true. intros m. apply discreet_update.
Qed.

(** C5, as amended.  An autonomous batch that gets as far as perceiving
    and whose perceptions leave the SPEAK set empty returns normally,
    shows exactly one notice that all minions stayed silent, and shows
    nothing of a response stage.  A batch triggered by the commander
    whose perceptions leave the SPEAK set empty returns normally and
    shows nothing of a response stage either, but shows no such notice.
    What it shows instead is one notice for each minion of the channel:
    there is one settled perception for each of these minions, in their
    order, and the system messages shown that are not audit entries for
    a key are, in that order, one for each perception, saying that the
    minion chose to remain silent or, as an error, what went wrong in
    its perception. *)
Theorem C5_empty_speak_set :
  (∀ (w : World) (channelId : string) (activeChannel : Channel.t)
     (lastMessage : ChatMessageData.t) (results : list PerceptionOutcome.t) (w1 : World),
     List.find (λ c, bool_decide (Channel.id c = channelId)) (channels (this w))
       = Some activeChannel →
     Channel.isAutoModeActive activeChannel = Some true →
     (2 ≤ length (minionsInChannel_of activeChannel (this w)))%nat →
     last (messages_of (this w) channelId) = Some lastMessage →
     triggerNextAutoChatTurn_perceive env channelId
       (formatChatHistoryForLLM (messages_of (this w) channelId) channelId) lastMessage
       activeChannel (minionsInChannel_of activeChannel (this w)) w = (Ok results, w1) →
     speaking results = [] →
     (triggerNextAutoChatTurn env channelId w).1 = Ok tt ∧
     ∃ events,
       observed (triggerNextAutoChatTurn env channelId w).2 = observed w ++ events ∧
       length (filter all_silent_notice events) = 1%nat ∧
       Forall (λ e, ¬ response_stage e) events) ∧
  (∀ (w : World) (channelId : string) (userMessage : ChatMessageData.t)
     (activeChannel : Channel.t) (results : list PerceptionOutcome.t) (w1 : World),
     List.find (λ c, bool_decide (Channel.id c = channelId)) (channels (this w))
       = Some activeChannel →
     minionsInChannel_of activeChannel (this w) ≠ [] →
     handleUserMessage_perceive env channelId
       (formatChatHistoryForLLM (messages_of (this w) channelId ++ [userMessage]) channelId)
       userMessage activeChannel (minionsInChannel_of activeChannel (this w))
       (posted channelId userMessage w) = (Ok results, w1) →
     speaking_usable results = [] →
     (handleUserMessage env channelId userMessage w).1 = Ok tt ∧
     ∃ events,
       observed (handleUserMessage env channelId userMessage w).2 = observed w ++ events ∧
       Forall (λ e, ¬ all_silent_notice e) events ∧
       Forall (λ e, ¬ response_stage e) events ∧
       PerceptionOutcome.minion <$> results = minionsInChannel_of activeChannel (this w) ∧
       Forall2 (silence_notice channelId) results (notices events)).
Proof. split; [apply auto_all_silent | apply user_all_silent]. Qed.

End SilentBatches.

Lemma C5_empty_speak_set_witness :
  ((run_triggerNextAutoChatTurn env_silent "swarm" (world_of service_swarm)).1 = Ok tt ∧
   ∃ events,
     observed (run_triggerNextAutoChatTurn env_silent "swarm" (world_of service_swarm)).2
       = [] ++ events ∧
     length (filter all_silent_notice events) = 1%nat ∧
     Forall (λ e, ¬ response_stage e) events) ∧
  ((run_handleUserMessage env_silent "general" second_message (world_of service_one)).1
     = Ok tt ∧
   ∃ events,
     observed (run_handleUserMessage env_silent "general" second_message
                 (world_of service_one)).2 = [] ++ events ∧
     Forall (λ e, ¬ all_silent_notice e) events ∧
     Forall (λ e, ¬ response_stage e) events ∧
     PerceptionOutcome.minion
       <$> returned [] (general_perceive (posted "general" second_message
                                            (world_of service_one))).1
       = [minion_named "Alpha" None] ∧
     Forall2 (silence_notice "general")
       (returned [] (general_perceive (posted "general" second_message
                                         (world_of service_one))).1)
       (notices events)).
Proof.
  split.
  - refine (proj1 (@C5_empty_speak_set env_silent (json_blank _) (json_blank _)
                     (json_blank _) (json_blank _))
              (world_of service_swarm) "swarm" swarm_channel swarm_opening
              (returned [] (swarm_perceive (world_of service_swarm)).1)
              (swarm_perceive (world_of service_swarm)).2 _ _ _ _ _ _).
    + reflexivity.
    + reflexivity.
    + vm_compute. lia.
    + reflexivity.
    + vm_compute. reflexivity.
    + vm_compute. reflexivity.
  - refine (proj2 (@C5_empty_speak_set env_silent (json_blank _) (json_blank _)
                     (json_blank _) (json_blank _))
              (world_of service_one) "general" second_message general_channel
              (returned [] (general_perceive (posted "general" second_message
                                               (world_of service_one))).1)
              (general_perceive (posted "general" second_message (world_of service_one))).2
              _ _ _ _).
    + reflexivity.
    + vm_compute. discriminate.
    + vm_compute. reflexivity.
    + vm_compute. reflexivity.
Defined.

(** C5 as it is written fails for the batch the commander triggers.
    Alpha, the one minion of the channel, plans to stay silent, so the
    SPEAK set is empty; the batch returns, and among what it shows there
    is no notice that all minions stayed silent. *)
Lemma C5_commander_batch_shows_no_all_silent_notice :
  speaking_usable
    (returned [] (general_perceive (posted "general" second_message
                                      (world_of service_one))).1) = [] ∧
  (run_handleUserMessage env_silent "general" second_message (world_of service_one)).1
    = Ok tt ∧
  filter all_silent_notice
    (observed (run_handleUserMessage env_silent "general" second_message
                 (world_of service_one)).2) = [] ∧
  length (observed (run_handleUserMessage env_silent "general" second_message
                      (world_of service_one)).2) = 5%nat.
Proof. vm_compute. repeat split; reflexivity. Qed.

(** ** The response stage, step by step *)

Ltac mrun :=
  unfold mbind, M_bind, mret, M_ret, now, next_request, emit, get_this, set_this, throw,
    replace_by_id;
  cbn beta iota;
  cbn [this localStorage observed clock requests fst snd].

Section Response.
Context (env : Environment).
Context {json_minions : Json (list MinionConfig.t)}.
Context {json_channels : Json (list Channel.t)}.
Context {json_messages : Json (gmap string (list ChatMessageData.t))}.
Context {json_apiKeys : Json (list ApiKey.t)}.

Lemma record_record (l1 l2 : list Event) (w : World) :
  record l2 (record l1 w) = record (l1 ++ l2) w.
Proof. unfold record. cbn. by rewrite app_assoc. Qed.

Lemma delivered_app (l1 l2 : list Event) : delivered (l1 ++ l2) = delivered l1 ++ delivered l2.
Proof. unfold delivered. apply omap_app. Qed.

Lemma delivered_undelivered (events : list Event) :
  Forall undelivered events → delivered events = [].
Proof.
  induction 1 as [|e events He _ IH]; [done|].
  unfold delivered in *. cbn. destruct e; cbn in *; done.
Qed.

Lemma updateMinionState_run (minionId : string) (plan : PerceptionPlan.t) (w : World) :
  updateMinionState minionId plan w =
    (Ok tt, mkWorld (with_minionConfigs (updated_minions minionId plan (minionConfigs (this w)))
                       (this w))
              (localStorage w) (observed w) (clock w) (requests w)).
Proof.
  unfold updateMinionState, updated_minions. run.
  destruct (findIndex _ _); cbn; [done|]. by destruct w as [[]].
Qed.

(** The chunks of a stream are passed on one by one and gathered; they
    touch nothing else. *)
Lemma foldM_chunks (channelId messageId : string) (minion : MinionConfig.t)
    (plan : PerceptionPlan.t) (chunks : list string) (rest : list StreamCallback)
    (acc : string) (w : World) :
  foldM (on_stream_callback env channelId messageId minion plan) acc
        (((λ chunkText, onStreamChunk chunkText false) <$> chunks) ++ rest) w
  = foldM (on_stream_callback env channelId messageId minion plan)
          (foldl String.append acc chunks) rest
          (record (onMinionResponseChunk channelId messageId <$> chunks) w).
Proof.
  revert acc w. induction chunks as [|chunk chunks IH]; intros acc w.
  - cbn [fmap list_fmap app foldl]. unfold record. rewrite app_nil_r. by destruct w.
  - cbn [fmap list_fmap app foldl foldM]. rewrite bind_run.
    cbn [on_stream_callback]. unfold mbind at 1, M_bind at 1, emit, mret, M_ret.
    cbn beta iota. rewrite IH. f_equal. unfold record. cbn. by rewrite <- app_assoc.
Qed.

Lemma replace_unknown_id (messageId : string) (errorMsg : ChatMessageData.t)
    (l : list ChatMessageData.t) :
  (∀ x, x ∈ l → ChatMessageData.id x ≠ messageId) →
  (λ m, if bool_decide (ChatMessageData.id m = messageId) then errorMsg else m) <$> l = l.
Proof.
  intros Hfresh. apply fmap_unchanged. intros m Hm.
  rewrite bool_decide_eq_false_2; [done|]. by apply Hfresh.
Qed.

(** The callback that ends a stream that completed. *)
Lemma on_final_callback_spec (channelId messageId : string) (minion : MinionConfig.t)
    (plan : PerceptionPlan.t) (acc : string) (w : World) :
  ∃ m w',
    on_stream_callback env channelId messageId minion plan acc (onStreamChunk EmptyString true) w
      = (Ok acc, w') ∧
    observed w' = observed w ++ [onMinionResponse m] ∧
    requests w' = requests w ∧
    ChatMessageData.id m = messageId ∧
    ChatMessageData.isProcessing m = Some false ∧
    ChatMessageData.senderName m = MinionConfig.name minion ∧
    ChatMessageData.internalDiary m = Some plan ∧
    ChatMessageData.isError m = None ∧
    (∀ c, c ≠ channelId → messages_of (this w') c = messages_of (this w) c) ∧
    ((∀ x, x ∈ messages_of (this w) channelId → ChatMessageData.id x ≠ messageId) →
     messages_of (this w') channelId = messages_of (this w) channelId ++ [m]).
Proof.
  cbn [on_stream_callback]. mrun. rewrite updateMinionState_run. mrun.
  eexists _, _. split; [reflexivity|]. cbn [observed requests this].
  do 7 (split; [reflexivity|]). split.
  - intros c Hc. rewrite messages_of_with_messages. by rewrite decide_False.
  - intros Hfresh. rewrite messages_of_with_messages, decide_True by done.
    change (messages_of (with_minionConfigs _ _) channelId)
      with (messages_of (this w) channelId).
    rewrite findIndex_None; [done|].
    intros x Hx. apply bool_decide_eq_false_2. by apply Hfresh.
Qed.

(** The callback that reports a stream that threw. *)
Lemma on_error_callback_spec (channelId messageId : string) (minion : MinionConfig.t)
    (plan : PerceptionPlan.t) (acc errorMessage : string) (w : World) :
  ∃ m w',
    on_stream_callback env channelId messageId minion plan acc (onError errorMessage) w
      = (Ok acc, w') ∧
    observed w' = observed w ++ [onMinionResponse m] ∧
    requests w' = requests w ∧
    ChatMessageData.id m = messageId ∧
    ChatMessageData.isProcessing m = Some false ∧
    ChatMessageData.senderName m = MinionConfig.name minion ∧
    ChatMessageData.internalDiary m = None ∧
    ChatMessageData.isError m = Some true ∧
    (∀ c, c ≠ channelId → messages_of (this w') c = messages_of (this w) c) ∧
    ((∀ x, x ∈ messages_of (this w) channelId → ChatMessageData.id x ≠ messageId) →
     messages_of (this w') channelId = messages_of (this w) channelId).
Proof.
  cbn [on_stream_callback]. mrun.
  eexists _, _. split; [reflexivity|]. cbn [observed requests this].
  do 7 (split; [reflexivity|]). split.
  - intros c Hc. rewrite messages_of_with_messages. by rewrite decide_False.
  - intros Hfresh. rewrite messages_of_with_messages, decide_True by done.
    by apply replace_unknown_id.
Qed.

(** The response stage for one speaker.  It always returns and always
    delivers exactly one message, not in progress, with the id it was
    given.  Either the key was usable and the stream completed: the
    message carries the plan and, when no stored message of the channel
    had its id, it is appended to the channel.  Or there was no usable
    key or the stream threw: the message is an error message and, when
    no stored message of the channel had its id, the channel is as it
    was.  Other channels are as they were. *)
Lemma runStreamingResponse_spec (channelId messageId : string) (minion : MinionConfig.t)
    (plan : PerceptionPlan.t) (prompt : string) (keyInfo : SelectedKeyInfo.t) (w : World) :
  ∃ m events w',
    runStreamingResponse env channelId messageId minion plan prompt keyInfo w = (Ok tt, w') ∧
    observed w' = observed w ++ events ∧
    delivered events = [m] ∧
    ChatMessageData.id m = messageId ∧
    ChatMessageData.isProcessing m = Some false ∧
    ChatMessageData.senderName m = MinionConfig.name minion ∧
    (∀ c, c ≠ channelId → messages_of (this w') c = messages_of (this w) c) ∧
    ((truthy (SelectedKeyInfo.key keyInfo) = true ∧
      stream_ending env (requests w) prompt minion (SelectedKeyInfo.key keyInfo)
        = stream_complete ∧
      ChatMessageData.internalDiary m = Some plan ∧
      ChatMessageData.isError m = None ∧
      ((∀ x, x ∈ messages_of (this w) channelId → ChatMessageData.id x ≠ messageId) →
       messages_of (this w') channelId = messages_of (this w) channelId ++ [m]))
     ∨
     ((truthy (SelectedKeyInfo.key keyInfo) = false ∨
       ∃ message, stream_ending env (requests w) prompt minion (SelectedKeyInfo.key keyInfo)
                    = stream_throws message) ∧
      ChatMessageData.internalDiary m = None ∧
      ChatMessageData.isError m = Some true ∧
      ((∀ x, x ∈ messages_of (this w) channelId → ChatMessageData.id x ≠ messageId) →
       messages_of (this w') channelId = messages_of (this w) channelId))).
Proof.
  unfold runStreamingResponse, stream_ending.
  destruct (truthy (SelectedKeyInfo.key keyInfo)) eqn:Hkey; cbn [negb].
  - unfold callGeminiAPIStream. rewrite Hkey. cbn [negb]. mrun.
    destruct (generateContentStream env (requests w) prompt (MinionConfig.model_id minion)
                (MinionConfig.temperature minion) (SelectedKeyInfo.key keyInfo))
      as [chunks ending].
    cbn beta iota. rewrite foldM_chunks. cbn [foldM]. mrun.
    set (request := callGeminiAPIStream_request _ _ _ _ _).
    set (streamed := onMinionResponseChunk channelId messageId <$> chunks).
    set (w0 := record streamed _).
    assert (observed w0 = observed w ++ request :: streamed) as Hobs0.
    { subst w0. unfold record. cbn [observed]. by rewrite <- app_assoc. }
    assert (delivered (request :: streamed) = []) as Hnone.
    { apply delivered_undelivered. constructor; [done|].
      apply Forall_fmap, Forall_true. by intros c. }
    destruct ending as [|message].
    + destruct (on_final_callback_spec channelId messageId minion plan
                  (foldl String.append EmptyString chunks) w0)
        as (m & w' & Hrun & Hobs & _ & Hid & Hproc & Hname & Hdiary & Herr & Hother & Hstored).
      rewrite Hrun. cbn beta iota.
      exists m, ((request :: streamed) ++ [onMinionResponse m]), w'.
      split; [done|]. split; [by rewrite Hobs, Hobs0, <- app_assoc|].
      split; [by rewrite delivered_app, Hnone|].
      do 4 (split; [done|]). left. do 4 (split; [done|]). exact Hstored.
    + destruct (on_error_callback_spec channelId messageId minion plan
                  (foldl String.append EmptyString chunks)
                  ("Gemini API Stream Error: " +:+ message) w0)
        as (m & w' & Hrun & Hobs & _ & Hid & Hproc & Hname & Hdiary & Herr & Hother & Hstored).
      rewrite Hrun. cbn beta iota.
      exists m, ((request :: streamed) ++ [onMinionResponse m]), w'.
      split; [done|]. split; [by rewrite Hobs, Hobs0, <- app_assoc|].
      split; [by rewrite delivered_app, Hnone|].
      do 4 (split; [done|]). right. split; [right; by exists message|].
      do 2 (split; [done|]). exact Hstored.
  - mrun. eexists _, [_], _. split; [reflexivity|]. cbn [observed this].
    split; [done|]. split; [reflexivity|].
    do 3 (split; [reflexivity|]). split.
    { intros c Hc. rewrite messages_of_with_messages. by rewrite decide_False. }
    right. split; [by left|]. do 2 (split; [reflexivity|]).
    intros Hfresh. rewrite messages_of_with_messages, decide_True by done.
    by apply replace_unknown_id.
Qed.

Lemma selectApiKey_result (minion : option MinionConfig.t) (w w' : World) :
  this w = this w' → (_selectApiKey minion w).1 = (_selectApiKey minion w').1.
Proof.
  intros Hthis. unfold _selectApiKey. run. rewrite Hthis.
  destruct (pinned_key minion (apiKeys (this w'))); [done|].
  case_bool_decide; [|done].
  by destruct (apiKeys (this w') !! apiKeyRoundRobinIndex (this w')).
Qed.

(** One turn of the loop over the speakers.  The placeholder is
    delivered first.  Then either the selection of a key throws, and
    nothing else is delivered or stored; or the response stage runs and
    delivers one more message under the id of the placeholder, which is
    stored at the end of the channel when the stream completed and is an
    error message that leaves the channel as it was otherwise. *)
Lemma handleUserMessage_speaker_spec (channelId dynamicChatHistory : string)
    (minion : MinionConfig.t) (plan : PerceptionPlan.t) (w : World) :
  let tempMessageId := tempMessageId_at env minion (clock w) in
  let prompt := RESPONSE_GENERATION_PROMPT_TEMPLATE env (MinionConfig.name minion)
                  (MinionConfig.system_prompt_persona minion) dynamicChatHistory plan in
  let fresh := ∀ x, x ∈ messages_of (this w) channelId → ChatMessageData.id x ≠ tempMessageId in
  ∃ p events r w',
    handleUserMessage_speaker env channelId dynamicChatHistory (minion, plan) w = (r, w') ∧
    observed w' = observed w ++ events ∧
    ChatMessageData.id p = tempMessageId ∧
    ChatMessageData.isProcessing p = Some true ∧
    ChatMessageData.internalDiary p = None ∧
    ChatMessageData.senderName p = MinionConfig.name minion ∧
    (∀ c, c ≠ channelId → messages_of (this w') c = messages_of (this w) c) ∧
    ((∃ e, r = Throw e ∧ (_selectApiKey (Some minion) w).1 = Throw e ∧
           delivered events = [p] ∧
           messages_of (this w') channelId = messages_of (this w) channelId)
     ∨
     (∃ keyInfo dynamicChatHistory' m,
        r = Ok dynamicChatHistory' ∧
        (_selectApiKey (Some minion) w).1 = Ok keyInfo ∧
        delivered events = [p; m] ∧
        ChatMessageData.id m = tempMessageId ∧
        ChatMessageData.isProcessing m = Some false ∧
        ((truthy (SelectedKeyInfo.key keyInfo) = true ∧
          stream_ending env (requests w) prompt minion (SelectedKeyInfo.key keyInfo)
            = stream_complete ∧
          ChatMessageData.internalDiary m = Some plan ∧
          ChatMessageData.isError m = None ∧
          (fresh → messages_of (this w') channelId = messages_of (this w) channelId ++ [m]))
         ∨
         ((truthy (SelectedKeyInfo.key keyInfo) = false ∨
           ∃ message,
             stream_ending env (requests w) prompt minion (SelectedKeyInfo.key keyInfo)
               = stream_throws message) ∧
          ChatMessageData.internalDiary m = None ∧
          ChatMessageData.isError m = Some true ∧
          (fresh → messages_of (this w') channelId = messages_of (this w) channelId))))).
Proof.
  intros tempMessageId prompt fresh.
  unfold handleUserMessage_speaker. mrun.
  change ("ai-" +:+ MinionConfig.id minion +:+ "-" +:+ pretty (Date_now env (clock w)))
    with tempMessageId.
  fold prompt.
  set (p := ChatMessageData.mk tempMessageId _ _ _ _ _ _ _ _ _ _).
  set (wa := mkWorld _ _ _ _ _).
  pose proof (selectApiKey_result (Some minion) w wa eq_refl) as Hresult.
  destruct (selectApiKey_moves_cursor (Some minion) wa) as [i Hmoved].
  destruct (_selectApiKey (Some minion) wa) as [[keyInfo|e] wb]; cbn [fst snd] in *; subst wb.
  - unfold _createApiKeyLogMessage. mrun.
    match goal with
    | |- context [runStreamingResponse _ _ _ _ _ _ _ ?w0] => set (wc := w0)
    end.
    destruct (runStreamingResponse_spec channelId tempMessageId minion plan prompt keyInfo wc)
      as (m & streamed & wd & Hrun & Hobs & Hdelivered & Hid & Hproc & _ & Hother & Hcases).
    rewrite Hrun. cbn beta iota.
    set (log := onSystemMessage _) in wc.
    exists p, ([onMinionResponse p; log] ++ streamed ++
               [onMinionProcessingUpdate (MinionConfig.name minion) false]).
    eexists _, _. split; [reflexivity|]. split.
    { cbn [observed]. rewrite Hobs. subst wc wa. cbn [observed set_cursor].
      by rewrite <- !app_assoc. }
    do 4 (split; [done|]). split.
    { intros c Hc. cbn [this]. by rewrite Hother. }
    right. eexists keyInfo, _, m. split; [reflexivity|]. split; [done|]. split.
    { rewrite !delivered_app, Hdelivered. reflexivity. }
    do 2 (split; [done|]). exact Hcases.
  - exists p, [onMinionResponse p]. eexists _, _. split; [reflexivity|].
    split; [done|]. do 4 (split; [done|]). split; [done|].
    left. exists e. done.
Qed.

(** C9.  One turn of the loop over the speakers in [handleUserMessage],
    in a world whose channel holds no message with the id the turn gives
    its placeholder.  The placeholder is the first message the turn
    delivers and it is never in the stored channel.  The stored channel
    is either as before or as before with one message appended: the
    finalized one, not in progress, not an error, carrying the plan.
    When the key selected is unusable or the stream throws, the stored
    transcript of every channel is as before, and the error message,
    under the id of the placeholder, was delivered and is not stored. *)
Theorem C9_only_completed_responses_are_stored (channelId dynamicChatHistory : string)
    (minion : MinionConfig.t) (plan : PerceptionPlan.t) (w : World) :
  let tempMessageId := tempMessageId_at env minion (clock w) in
  let prompt := RESPONSE_GENERATION_PROMPT_TEMPLATE env (MinionConfig.name minion)
                  (MinionConfig.system_prompt_persona minion) dynamicChatHistory plan in
  let out := handleUserMessage_speaker env channelId dynamicChatHistory (minion, plan) w in
  (∀ x, x ∈ messages_of (this w) channelId → ChatMessageData.id x ≠ tempMessageId) →
  ∃ placeholder events,
    observed out.2 = observed w ++ events ∧
    head (delivered events) = Some placeholder ∧
    ChatMessageData.id placeholder = tempMessageId ∧
    ChatMessageData.isProcessing placeholder = Some true ∧
    (placeholder ∉ messages_of (this out.2) channelId) ∧
    (∀ c, c ≠ channelId → messages_of (this out.2) c = messages_of (this w) c) ∧
    (messages_of (this out.2) channelId = messages_of (this w) channelId ∨
     ∃ final, messages_of (this out.2) channelId = messages_of (this w) channelId ++ [final] ∧
              final ∈ delivered events ∧
              ChatMessageData.id final = tempMessageId ∧
              ChatMessageData.isProcessing final = Some false ∧
              ChatMessageData.isError final = None ∧
              ChatMessageData.internalDiary final = Some plan) ∧
    (∀ keyInfo,
       (_selectApiKey (Some minion) w).1 = Ok keyInfo →
       (truthy (SelectedKeyInfo.key keyInfo) = false ∨
        ∃ message, stream_ending env (requests w) prompt minion (SelectedKeyInfo.key keyInfo)
                     = stream_throws message) →
       (∀ c, messages_of (this out.2) c = messages_of (this w) c) ∧
       ∃ errorMsg, delivered events = [placeholder; errorMsg] ∧
                   ChatMessageData.id errorMsg = tempMessageId ∧
                   ChatMessageData.isError errorMsg = Some true ∧
                   ChatMessageData.isProcessing errorMsg = Some false ∧
                   errorMsg ∉ messages_of (this out.2) channelId).
Proof.
  intros tempMessageId prompt out Hfresh.
  destruct (handleUserMessage_speaker_spec channelId dynamicChatHistory minion plan w)
    as (p & events & r & w' & Hrun & Hobs & Hid & Hproc & Hdiary & _ & Hother & Hcases).
  fold tempMessageId prompt in Hcases, Hid.
  subst out. rewrite Hrun. cbn [snd].
  assert (∀ x, ChatMessageData.id x = tempMessageId → x ∉ messages_of (this w) channelId)
    as Hnew.
  { intros x Hx Hin. by apply (Hfresh x Hin). }
  exists p, events. split; [done|].
  destruct Hcases as [(e & -> & Hsel & Hdel & Hsame)
                     |(keyInfo & dyn' & m & -> & Hsel & Hdel & Hmid & Hmproc & Hstream)].
  - rewrite Hdel, Hsame. split; [done|]. do 2 (split; [done|]). split; [by apply Hnew|].
    split; [done|]. split; [by left|].
    intros keyInfo Hsel'. rewrite Hsel in Hsel'. done.
  - rewrite Hdel. split; [done|]. do 2 (split; [done|]).
    destruct Hstream as [(Hkey & Hend & Hmdiary & Hmerr & Hstored)
                        |(Hfail & Hmdiary & Hmerr & Hstored)].
    + rewrite (Hstored Hfresh). split.
      { intros Hin. apply elem_of_app in Hin as [Hin|Hin]; [by apply (Hnew p)|].
        apply list_elem_of_singleton in Hin. subst m. rewrite Hproc in Hmproc. done. }
      split; [done|]. split.
      { right. exists m. split; [done|]. split; [|done].
        apply elem_of_cons. right. apply list_elem_of_singleton. done. }
      intros keyInfo' Hsel' Hfail'. rewrite Hsel in Hsel'. injection Hsel' as <-.
      destruct Hfail' as [Hfalse|[message Hthrows]].
      * rewrite Hkey in Hfalse. done.
      * rewrite Hend in Hthrows. done.
    + rewrite (Hstored Hfresh). split; [by apply Hnew|]. split; [done|]. split; [by left|].
      intros keyInfo' _ _. split.
      { intros c. destruct (decide (c = channelId)) as [->|Hc]; [by apply Hstored|by apply Hother]. }
      exists m. do 4 (split; [done|]). by apply Hnew.
Qed.

End Response.

Lemma C9_only_completed_responses_are_stored_witness :
  messages_of
    (this (handleUserMessage_speaker env_broken_stream "general" "history"
             (minion_named "Alpha" None, speak_plan) (world_of service_one)).2) "general"
  = messages_of service_one "general".
Proof.
  destruct (C9_only_completed_responses_are_stored env_broken_stream "general" "history"
              (minion_named "Alpha" None) speak_plan (world_of service_one))
    as (placeholder & events & _ & _ & _ & _ & _ & _ & _ & Hfailure).
  - intros x Hx. apply list_elem_of_singleton in Hx. subst x. discriminate.
  - destruct (Hfailure (load_balanced key_a) eq_refl) as [Hsame _].
    + right. exists "connection reset". reflexivity.
    + exact (Hsame "general").
Defined.

(** ** The order of the speakers *)

Lemma by_predictedResponseTime_le (a b : MinionConfig.t * PerceptionPlan.t) :
  (by_predictedResponseTime a b <=? 0)%Z = true ↔ no_slower a b.
Proof. unfold by_predictedResponseTime, no_slower. rewrite Z.leb_le. lia. Qed.

Global Instance no_slower_transitive : Transitive no_slower.
Proof. unfold no_slower. intros a b c. lia. Qed.

Lemma sort_insert_sorted (x : MinionConfig.t * PerceptionPlan.t)
    (xs : list (MinionConfig.t * PerceptionPlan.t)) :
  StronglySorted no_slower xs →
  StronglySorted no_slower (sort_insert by_predictedResponseTime x xs).
Proof.
  induction 1 as [|y xs Hsorted IH Hall]; cbn [sort_insert].
  - repeat constructor.
  - destruct (by_predictedResponseTime x y <=? 0)%Z eqn:Hcmp.
    + apply by_predictedResponseTime_le in Hcmp.
      constructor; [by constructor|]. constructor; [done|].
      eapply Forall_impl; [exact Hall|]. intros z Hz. by etrans.
    + constructor; [done|].
      rewrite sort_insert_Permutation. constructor; [|done].
      apply Z.leb_gt in Hcmp. unfold by_predictedResponseTime in Hcmp.
      unfold no_slower. lia.
Qed.

(** The sort puts the speakers in non-decreasing order of predicted
    latency and neither drops nor adds one. *)
Lemma Array_sort_sorted (xs : list (MinionConfig.t * PerceptionPlan.t)) :
  StronglySorted no_slower (Array_sort by_predictedResponseTime xs).
Proof.
  induction xs as [|x xs IH]; cbn [Array_sort]; [constructor|]. by apply sort_insert_sorted.
Qed.

(** Speakers with one and the same predicted latency keep the order the
    perceptions had: the latency is the only key. *)
Lemma sort_insert_stable (t : Z) (x : MinionConfig.t * PerceptionPlan.t)
    (xs : list (MinionConfig.t * PerceptionPlan.t)) :
  StronglySorted no_slower xs →
  filter (λ s, PerceptionPlan.predictedResponseTime s.2 = t)
         (sort_insert by_predictedResponseTime x xs)
  = filter (λ s, PerceptionPlan.predictedResponseTime s.2 = t) (x :: xs).
Proof.
  induction 1 as [|y xs Hsorted IH Hall]; cbn [sort_insert]; [done|].
  destruct (by_predictedResponseTime x y <=? 0)%Z eqn:Hcmp; [done|].
  apply Z.leb_gt in Hcmp. unfold by_predictedResponseTime in Hcmp.
  rewrite (filter_cons _ y), IH. rewrite !filter_cons.
  repeat case_decide; try done; lia.
Qed.

Lemma Array_sort_stable (t : Z) (xs : list (MinionConfig.t * PerceptionPlan.t)) :
  filter (λ s, PerceptionPlan.predictedResponseTime s.2 = t)
         (Array_sort by_predictedResponseTime xs)
  = filter (λ s, PerceptionPlan.predictedResponseTime s.2 = t) xs.
Proof.
  induction xs as [|x xs IH]; cbn [Array_sort]; [done|].
  rewrite sort_insert_stable by apply Array_sort_sorted.
  rewrite !(filter_cons _ x). by rewrite IH.
Qed.

Lemma Forall_sublist {A} (P : A → Prop) (l k : list A) :
  l `sublist_of` k → Forall P k → Forall P l.
Proof.
  induction 1 as [|x l k Hsub IH|x l k Hsub IH]; intros Hall; [done|..].
  - apply Forall_cons in Hall as [Hx Hk]. constructor; [done|by apply IH].
  - apply Forall_cons in Hall as [_ Hk]. by apply IH.
Qed.

Lemma StronglySorted_sublist {A} (R : relation A) (l k : list A) :
  l `sublist_of` k → StronglySorted R k → StronglySorted R l.
Proof.
  induction 1 as [|x l k Hsub IH|x l k Hsub IH]; intros Hsorted.
  - constructor.
  - apply StronglySorted_inv in Hsorted as [Hk Hall]. constructor; [by apply IH|].
    by eapply Forall_sublist.
  - apply StronglySorted_inv in Hsorted as [Hk _]. by apply IH.
Qed.

Lemma StronglySorted_map {A B} (R : relation A) (R' : relation B) (f : A → B) (l : list A) :
  (∀ a b, R a b → R' (f a) (f b)) → StronglySorted R l → StronglySorted R' (f <$> l).
Proof.
  intros Hf. induction 1 as [|x l Hl IH Hall]; cbn; constructor; [done|].
  apply Forall_fmap. eapply Forall_impl; [exact Hall|]. intros y Hy. by apply Hf.
Qed.

Lemma latencies_sorted (plans : list PerceptionPlan.t)
    (speakers : list (MinionConfig.t * PerceptionPlan.t)) :
  plans `sublist_of` (snd <$> speakers) →
  StronglySorted no_slower speakers →
  Sorted Z.le (PerceptionPlan.predictedResponseTime <$> plans).
Proof.
  intros Hsub Hsorted. apply StronglySorted_Sorted.
  apply (StronglySorted_map
           (λ a b, (PerceptionPlan.predictedResponseTime a
                    ≤ PerceptionPlan.predictedResponseTime b)%Z) Z.le); [done|].
  eapply StronglySorted_sublist; [exact Hsub|].
  by apply (StronglySorted_map no_slower _ snd speakers).
Qed.
(** ** A batch triggered by the commander, from perception to transcript *)

Global Instance backstage_preorder : PreOrder backstage.
Proof.
  split.
  - intros w. split; reflexivity.
  - intros w1 w2 w3 [H1 H1'] [H2 H2']. split; by etrans.
Qed.

Global Instance backstage_lenient : Lenient backstage.
Proof.
  split; [apply _|..].
  - intros w store c r. split; apply lenient_bookkeeping.
  - intros w i. split; apply lenient_cursor.
Qed.

Lemma backstage_emits (e : Event) : undelivered e → Emits backstage e.
Proof. intros He w. split; [by apply trace_grows_emits|by apply same_messages_emits]. Qed.

Lemma backstage_minions : MinionsFree backstage.
Proof. intros w ms. split; [apply trace_grows_minions|apply same_messages_minions]. Qed.

Lemma placeholders_app (l1 l2 : list Event) :
  placeholders (l1 ++ l2) = placeholders l1 ++ placeholders l2.
Proof. unfold placeholders. by rewrite delivered_app, filter_app. Qed.

Lemma finalized_app (l1 l2 : list Event) : finalized (l1 ++ l2) = finalized l1 ++ finalized l2.
Proof. unfold finalized. by rewrite delivered_app, filter_app. Qed.

Lemma finalized_plans_app (l1 l2 : list Event) :
  finalized_plans (l1 ++ l2) = finalized_plans l1 ++ finalized_plans l2.
Proof. unfold finalized_plans. by rewrite delivered_app, omap_app. Qed.

(** The finalized responses carry exactly the finalized plans. *)
Lemma finalized_plans_of_finalized (events : list Event) :
  ChatMessageData.internalDiary <$> finalized events = Some <$> finalized_plans events.
Proof.
  unfold finalized, finalized_plans.
  induction (delivered events) as [|m ms IH]; [done|]. cbn [omap list_omap].
  rewrite filter_cons. destruct (ChatMessageData.internalDiary m) as [plan|] eqn:Hm.
  - rewrite decide_True by done. cbn. by rewrite Hm, IH.
  - rewrite decide_False by (by intros [? ?]). done.
Qed.

Lemma speaking_usable_cons (r : PerceptionOutcome.t) (rs : list PerceptionOutcome.t) :
  speaking_usable (r :: rs) = speaking_usable [r] ++ speaking_usable rs.
Proof.
  unfold speaking_usable. cbn [omap list_omap].
  by destruct (match usable_plan r with Some _ => _ | None => _ end).
Qed.

Section Ordering.
Context (env : Environment).
Context {json_minions : Json (list MinionConfig.t)}.
Context {json_channels : Json (list Channel.t)}.
Context {json_messages : Json (gmap string (list ChatMessageData.t))}.
Context {json_apiKeys : Json (list ApiKey.t)}.

Lemma backstage_handleUserMessage_perceive (channelId initialChatHistory : string)
    (userMessage : ChatMessageData.t) (activeChannel : Channel.t)
    (minions : list MinionConfig.t) :
  guarantees backstage (λ _, True)
    (handleUserMessage_perceive env channelId initialChatHistory userMessage activeChannel
       minions).
Proof.
  unfold handleUserMessage_perceive. gbind.
  { gapply guarantees_forEach. intros m _. gapply guarantees_emit. by apply backstage_emits. }
  intros _ _. eapply guarantees_weaken; [done|].
  gapply (guarantees_mapM backstage
            (λ minion outcome, PerceptionOutcome.minion outcome = minion)).
  intros minion _. gapply guarantees_handleUserMessage_perception.
  intros e He. apply backstage_emits. by destruct e.
Qed.

Lemma backstage_handleUserMessage_outcome (channelId : string)
    (speakers : list (MinionConfig.t * PerceptionPlan.t)) (r : PerceptionOutcome.t) :
  guarantees backstage (λ speakers', speakers' = speakers ++ speaking_usable [r])
    (handleUserMessage_outcome env channelId speakers r).
Proof.
  unfold speaking_usable, handleUserMessage_outcome. cbn [omap list_omap].
  destruct (usable_plan r) as [plan|].
  - gstep guarantees_updateMinionState; [apply backstage_minions|].
    destruct (PerceptionPlan.action plan).
    + gapply guarantees_ret. done.
    + gbind; [gapply guarantees_system_notice|]. intros notice _.
      gstep guarantees_emit; [by apply backstage_emits|].
      gapply guarantees_ret. by rewrite app_nil_r.
  - gbind; [gapply guarantees_system_notice|]. intros notice _.
    gstep guarantees_emit; [by apply backstage_emits|].
    gapply guarantees_ret. by rewrite app_nil_r.
Qed.

(** The loop over the settled outcomes returns the SPEAK set, in the
    order of the perceptions. *)
Lemma outcomes_run (channelId : string) (results : list PerceptionOutcome.t)
    (speakers : list (MinionConfig.t * PerceptionPlan.t)) (w : World) :
  ∃ w', foldM (handleUserMessage_outcome env channelId) speakers results w
          = (Ok (speakers ++ speaking_usable results), w') ∧
        backstage w w'.
Proof.
  revert speakers w. induction results as [|r results IH]; intros speakers w; cbn [foldM].
  - exists w. split; [by rewrite app_nil_r|reflexivity].
  - rewrite bind_run.
    destruct (backstage_handleUserMessage_outcome channelId speakers r w) as [Hback Hret].
    destruct (never_throws_handleUserMessage_outcome env channelId speakers r w)
      as [speakers' Hok].
    destruct (handleUserMessage_outcome env channelId speakers r w) as [res w1].
    cbn [fst snd] in *. subst res. rewrite (Hret speakers' eq_refl).
    destruct (IH (speakers ++ speaking_usable [r]) w1) as (w' & Hrun & Hback').
    exists w'. split; [|by etrans].
    rewrite Hrun, (speaking_usable_cons r results). by rewrite app_assoc.
Qed.

(** The loop over the speakers.  The placeholders appear in the order
    of the speakers, one for every speaker when the loop returns; the
    plans of the finalized responses form a sublist of the speakers'
    plans; and when the ids of the placeholders are new, the channel
    grows by exactly the finalized responses, in the order they were
    delivered. *)
Lemma speakers_loop (channelId : string) (speakers : list (MinionConfig.t * PerceptionPlan.t))
    (dynamicChatHistory : string) (w : World) :
  ∃ events r w',
    foldM (handleUserMessage_speaker env channelId) dynamicChatHistory speakers w = (r, w') ∧
    observed w' = observed w ++ events ∧
    (ChatMessageData.senderName <$> placeholders events)
      `prefix_of` ((λ s, MinionConfig.name s.1) <$> speakers) ∧
    ((∃ d, r = Ok d) →
     ChatMessageData.senderName <$> placeholders events
       = (λ s, MinionConfig.name s.1) <$> speakers) ∧
    finalized_plans events `sublist_of` (snd <$> speakers) ∧
    (∀ c, c ≠ channelId → messages_of (this w') c = messages_of (this w) c) ∧
    (fresh_ids (messages_of (this w) channelId) events →
     messages_of (this w') channelId = messages_of (this w) channelId ++ finalized events).
Proof.
  revert dynamicChatHistory w.
  induction speakers as [|[minion plan] speakers IH]; intros dyn w; cbn [foldM].
  - exists [], (Ok dyn), w. split; [done|]. split; [by rewrite app_nil_r|].
    split; [done|]. split; [done|]. split; [done|]. split; [done|].
    intros _. by rewrite app_nil_r.
  - destruct (handleUserMessage_speaker_spec env channelId dyn minion plan w)
      as (p & events1 & r1 & w1 & Hrun & Hobs & Hid & Hproc & Hdiary & Hname & Hother & Hcases).
    rewrite bind_run, Hrun.
    destruct Hcases as [(e & -> & _ & Hdel & Hsame)
                       |(keyInfo & dyn' & m & -> & _ & Hdel & Hmid & Hmproc & Hstream)].
    + assert (placeholders events1 = [p]) as Hph.
      { unfold placeholders. rewrite Hdel. by rewrite filter_cons, decide_True. }
      assert (finalized events1 = []) as Hfin.
      { unfold finalized. rewrite Hdel. rewrite filter_cons, decide_False; [done|].
        rewrite Hdiary. by intros [? ?]. }
      assert (finalized_plans events1 = []) as Hplans.
      { unfold finalized_plans. rewrite Hdel. cbn. by rewrite Hdiary. }
      exists events1, (Throw e), w1. split; [done|]. split; [done|].
      rewrite Hph, Hfin, Hplans. cbn [fmap list_fmap fst].
      split; [rewrite Hname; apply prefix_cons, prefix_nil|].
      split; [by intros [d ?]|]. split; [apply sublist_nil_l|]. split; [done|].
      intros _. by rewrite app_nil_r.
    + destruct (IH dyn' w1)
        as (events2 & r & w' & Hloop & Hobs' & Hprefix & Hall & Hsub & Hother' & Hstored').
      assert (placeholders events1 = [p]) as Hph.
      { unfold placeholders. rewrite Hdel. rewrite filter_cons, decide_True by done.
        rewrite filter_cons, decide_False; [done|]. rewrite Hmproc. done. }
      exists (events1 ++ events2), r, w'. split; [done|].
      split; [by rewrite Hobs', Hobs, app_assoc|].
      rewrite placeholders_app, finalized_plans_app, finalized_app, Hph.
      cbn [fmap list_fmap fst app]. rewrite Hname.
      split; [by apply prefix_cons|].
      split; [intros Hok; f_equal; by apply Hall|].
      assert (∀ stored,
                fresh_ids stored (events1 ++ events2) →
                (∀ x, x ∈ stored → ChatMessageData.id x ≠ ChatMessageData.id p) ∧
                fresh_ids stored events2 ∧
                ∀ q, q ∈ placeholders events2 → ChatMessageData.id q ≠ ChatMessageData.id p)
        as Hsplit.
      { intros stored [Hnodup Hnew]. rewrite placeholders_app, Hph in Hnodup, Hnew.
        cbn [app fmap list_fmap] in Hnodup. apply NoDup_cons in Hnodup as [Hp Hnodup].
        split; [|split; [split|]].
        - intros x Hx. apply Hnew; [apply list_elem_of_here|done].
        - done.
        - intros q x Hq Hx. apply Hnew; [by apply list_elem_of_further|done].
        - intros q Hq Heq. apply Hp. rewrite <- Heq. by apply list_elem_of_fmap_2. }
      destruct Hstream as [(_ & _ & Hmdiary & _ & Hstored)|(_ & Hmdiary & _ & Hstored)].
      * assert (finalized events1 = [m]) as Hfin.
        { unfold finalized. rewrite Hdel. rewrite filter_cons, decide_False.
          2:{ rewrite Hdiary. by intros [? ?]. }
          rewrite filter_cons, decide_True; [done|]. by rewrite Hmdiary. }
        assert (finalized_plans events1 = [plan]) as Hplans.
        { unfold finalized_plans. rewrite Hdel. cbn. by rewrite Hdiary, Hmdiary. }
        rewrite Hfin, Hplans. cbn [app]. split; [by apply sublist_skip|].
        split; [intros c Hc; by rewrite Hother', Hother|].
        intros Hfresh. destruct (Hsplit _ Hfresh) as (Hp & [Hnodup2 Hnew2] & Hdiff).
        rewrite Hid in Hp. rewrite Hstored' .
        -- rewrite (Hstored Hp). by rewrite <- app_assoc.
        -- split; [done|]. intros q x Hq Hx. rewrite (Hstored Hp) in Hx.
           apply elem_of_app in Hx as [Hx|Hx]; [by apply Hnew2|].
           apply list_elem_of_singleton in Hx. subst x. rewrite Hmid, <- Hid.
           intros Heq. by apply (Hdiff q Hq).
      * assert (finalized events1 = []) as Hfin.
        { unfold finalized. rewrite Hdel. rewrite filter_cons, decide_False.
          2:{ rewrite Hdiary. by intros [? ?]. }
          rewrite filter_cons, decide_False; [done|]. rewrite Hmdiary. by intros [? ?]. }
        assert (finalized_plans events1 = []) as Hplans.
        { unfold finalized_plans. rewrite Hdel. cbn. by rewrite Hdiary, Hmdiary. }
        rewrite Hfin, Hplans. cbn [app]. split; [by apply sublist_cons|].
        split; [intros c Hc; by rewrite Hother', Hother|].
        intros Hfresh. destruct (Hsplit _ Hfresh) as (Hp & [Hnodup2 Hnew2] & Hdiff).
        rewrite Hid in Hp. rewrite Hstored'.
        -- by rewrite (Hstored Hp).
        -- split; [done|]. intros q x Hq Hx. rewrite (Hstored Hp) in Hx. by apply Hnew2.
Qed.

Lemma backstage_mark_silent (speakers : list (MinionConfig.t * PerceptionPlan.t))
    (minions : list MinionConfig.t) (w : World) :
  ∃ w', forEach (λ m,
           if existsb (λ speaker : MinionConfig.t * PerceptionPlan.t,
                         bool_decide (MinionConfig.id speaker.1 = MinionConfig.id m)) speakers
           then mret tt
           else emit (onMinionProcessingUpdate (MinionConfig.name m) false)) minions w
        = (Ok tt, w') ∧ backstage w w'.
Proof.
  set (f := λ m : MinionConfig.t, if existsb _ speakers then mret tt else emit _).
  destruct (never_throws_forEach f minions) with (w := w) as [[] Hok].
  { intros m. unfold f. destruct (existsb _ _); [apply never_throws_ret|apply never_throws_emit]. }
  assert (guarantees backstage (λ _, True) (forEach f minions)) as Hback.
  { gapply guarantees_forEach. intros m _. unfold f. destruct (existsb _ _).
    - gapply guarantees_ret. done.
    - gapply guarantees_emit. by apply backstage_emits. }
  exists (forEach f minions w).2. split; [|apply Hback].
  destruct (forEach f minions w) as [res w']. cbn in *. by subst res.
Qed.

Lemma find_first_new {A} (p : A → bool) (xs : list A) (x : A) :
  (∀ y, y ∈ xs → p y = false) → p x = true → List.find p (xs ++ [x]) = Some x.
Proof.
  intros Hall Hx. induction xs as [|y xs IH]; cbn; [by rewrite Hx|].
  rewrite (Hall y) by apply list_elem_of_here.
  apply IH. intros z Hz. apply Hall. by apply list_elem_of_further.
Qed.

(** What the response stage for one speaker shows is the speaker's own,
    and with a usable key the stream was requested with the prompt. *)
Lemma runStreamingResponse_trace (channelId messageId : string) (minion : MinionConfig.t)
    (plan : PerceptionPlan.t) (prompt : string) (keyInfo : SelectedKeyInfo.t) (w : World) :
  ∃ events w',
    runStreamingResponse env channelId messageId minion plan prompt keyInfo w = (Ok tt, w') ∧
    observed w' = observed w ++ events ∧
    Forall (turn_event channelId minion messageId) events ∧
    (truthy (SelectedKeyInfo.key keyInfo) = true →
     callGeminiAPIStream_request (MinionConfig.name minion) prompt
       (MinionConfig.model_id minion) (MinionConfig.temperature minion)
       (SelectedKeyInfo.key keyInfo) ∈ events).
Proof.
  unfold runStreamingResponse.
  destruct (truthy (SelectedKeyInfo.key keyInfo)) eqn:Hkey; cbn [negb].
  - unfold callGeminiAPIStream. rewrite Hkey. cbn [negb]. mrun.
    destruct (generateContentStream env (requests w) prompt (MinionConfig.model_id minion)
                (MinionConfig.temperature minion) (SelectedKeyInfo.key keyInfo))
      as [chunks ending].
    cbn beta iota. rewrite foldM_chunks. cbn [foldM]. mrun.
    set (request := callGeminiAPIStream_request _ _ _ _ _).
    set (streamed := onMinionResponseChunk channelId messageId <$> chunks).
    set (w0 := record streamed _).
    assert (observed w0 = observed w ++ request :: streamed) as Hobs0.
    { subst w0. unfold record. cbn [observed]. by rewrite <- app_assoc. }
    assert (Forall (turn_event channelId minion messageId) (request :: streamed)) as Hown.
    { constructor; [done|]. apply Forall_fmap, Forall_true. by intros c. }
    destruct ending as [|message].
    + destruct (on_final_callback_spec env channelId messageId minion plan
                  (foldl String.append EmptyString chunks) w0)
        as (m & w' & Hrun & Hobs & _ & Hid & _ & Hname & _).
      rewrite Hrun. cbn beta iota.
      exists ((request :: streamed) ++ [onMinionResponse m]), w'.
      split; [done|]. split; [by rewrite Hobs, Hobs0, <- app_assoc|]. split.
      * apply Forall_app. split; [done|]. by constructor.
      * intros _. apply elem_of_app. left. apply list_elem_of_here.
    + destruct (on_error_callback_spec env channelId messageId minion plan
                  (foldl String.append EmptyString chunks)
                  ("Gemini API Stream Error: " +:+ message) w0)
        as (m & w' & Hrun & Hobs & _ & Hid & _ & Hname & _).
      rewrite Hrun. cbn beta iota.
      exists ((request :: streamed) ++ [onMinionResponse m]), w'.
      split; [done|]. split; [by rewrite Hobs, Hobs0, <- app_assoc|]. split.
      * apply Forall_app. split; [done|]. by constructor.
      * intros _. apply elem_of_app. left. apply list_elem_of_here.
  - mrun. eexists [_], _. split; [reflexivity|]. cbn [observed this].
    split; [done|]. split; [|done]. by constructor.
Qed.

(** Every run of the body of the loop over the speakers is a turn. *)
Lemma handleUserMessage_speaker_turn (channelId dynamicChatHistory : string)
    (speaker : MinionConfig.t * PerceptionPlan.t) (w : World) :
  ∃ trace,
    speaker_turn env channelId dynamicChatHistory speaker w trace
      (handleUserMessage_speaker env channelId dynamicChatHistory speaker w).1
      (handleUserMessage_speaker env channelId dynamicChatHistory speaker w).2.
Proof.
  destruct speaker as [minion plan].
  destruct (handleUserMessage_speaker env channelId dynamicChatHistory (minion, plan) w)
    as [r w'] eqn:Hspeaker.
  unfold speaker_turn. rewrite Hspeaker. cbn [fst snd].
  set (tempMessageId := tempMessageId_at env minion (clock w)).
  set (prompt := RESPONSE_GENERATION_PROMPT_TEMPLATE env _ _ _ _).
  revert Hspeaker. unfold handleUserMessage_speaker. mrun.
  change ("ai-" +:+ MinionConfig.id minion +:+ "-" +:+ pretty (Date_now env (clock w)))
    with tempMessageId.
  fold prompt.
  set (p := ChatMessageData.mk tempMessageId _ _ _ _ _ _ _ _ _ _).
  set (wa := mkWorld _ _ _ _ _).
  pose proof (selectApiKey_result (Some minion) w wa eq_refl) as Hresult.
  destruct (selectApiKey_moves_cursor (Some minion) wa) as [i Hmoved].
  destruct (_selectApiKey (Some minion) wa) as [[keyInfo|e] wb]; cbn [fst snd] in *; subst wb.
  - unfold _createApiKeyLogMessage. mrun.
    match goal with
    | |- context [runStreamingResponse _ _ _ _ _ _ _ ?w0] => set (wc := w0)
    end.
    destruct (runStreamingResponse_spec env channelId tempMessageId minion plan prompt keyInfo wc)
      as (m & streamed & wd & Hrun & Hobs & Hdelivered & Hid & Hproc & _ & Hother & Hcases).
    destruct (runStreamingResponse_trace channelId tempMessageId minion plan prompt keyInfo wc)
      as (streamed' & wd' & Hrun' & Hobs' & Hown & Hrequest).
    rewrite Hrun in Hrun'. injection Hrun' as <-.
    rewrite Hobs in Hobs'. apply app_inv_head in Hobs'. subst streamed'.
    rewrite Hrun. cbn beta iota. intros [= <- <-].
    set (log := onSystemMessage _) in wc.
    exists ([onMinionResponse p; log] ++ streamed ++
            [onMinionProcessingUpdate (MinionConfig.name minion) false]).
    split; [done|]. split.
    { cbn [observed]. rewrite Hobs. subst wc wa. cbn [observed set_cursor].
      by rewrite <- !app_assoc. }
    split.
    { apply Forall_app. split.
      - constructor; [done|]. constructor; [|done]. cbn. split; [done|]. by exists keyInfo.
      - apply Forall_app. split; [done|]. by constructor. }
    split.
    { intros c Hc. cbn [this]. by rewrite Hother. }
    exists p. split; [done|]. split; [done|]. split; [done|].
    exists keyInfo, m. split; [done|]. split.
    { rewrite !delivered_app, Hdelivered. reflexivity. }
    split.
    { rewrite app_assoc. apply last_snoc. }
    split; [done|].
    assert (messages_of (this wc) channelId = messages_of (this w) channelId) as Hstart by done.
    assert (requests wc = requests w) as Hrequests by done.
    rewrite Hrequests in Hcases. cbn [this].
    split.
    + intros Hkey Hcomplete.
      destruct Hcases as [(_ & _ & Hdiary & Herr & Hstored)|([Hno|[message Hthrows]] & _)];
        [|congruence..].
      split; [apply elem_of_app; right; apply elem_of_app; left; by apply Hrequest|].
      do 2 (split; [done|]). intros Hfresh.
      rewrite Hstart in Hstored. rewrite (Hstored Hfresh). split; [done|].
      rewrite find_first_new; [done| |by apply bool_decide_eq_true_2].
      intros y Hy. apply bool_decide_eq_false_2. by apply Hfresh.
    + intros Hfailed.
      destruct Hcases as [(Hkey & Hcomplete & _)|(_ & Hdiary & Herr & Hstored)].
      { destruct Hfailed as [Hno|[message Hthrows]]; congruence. }
      do 2 (split; [done|]). intros Hfresh.
      rewrite Hstart in Hstored. rewrite (Hstored Hfresh). split; [done|].
      rewrite find_None_all; [done|].
      intros y Hy. apply bool_decide_eq_false_2. by apply Hfresh.
  - intros [= <- <-]. exists [onMinionResponse p]. split; [done|].
    split; [done|]. split; [by constructor|].
    split; [done|]. exists p. done.
Qed.

(** The loop over the speakers is a chain of turns, and what it shows is
    what the turns show, one after the other. *)
Lemma speakers_turns (channelId : string) (speakers : list (MinionConfig.t * PerceptionPlan.t))
    (dynamicChatHistory : string) (w : World) :
  ∃ turns,
    speaker_turns env channelId dynamicChatHistory speakers w turns
      (foldM (handleUserMessage_speaker env channelId) dynamicChatHistory speakers w).1
      (foldM (handleUserMessage_speaker env channelId) dynamicChatHistory speakers w).2 ∧
    observed (foldM (handleUserMessage_speaker env channelId) dynamicChatHistory speakers w).2
      = observed w ++ concat turns.
Proof.
  revert dynamicChatHistory w.
  induction speakers as [|speaker speakers IH]; intros dyn w; cbn [foldM].
  - exists []. split; [constructor|]. cbn. by rewrite app_nil_r.
  - destruct (handleUserMessage_speaker_turn channelId dyn speaker w) as [trace Hturn].
    rewrite bind_run.
    destruct (handleUserMessage_speaker env channelId dyn speaker w) as [[dyn1|e] w1];
      cbn [fst snd] in *.
    + destruct (IH dyn1 w1) as (turns & Hturns & Hobserved).
      exists (trace :: turns). split; [by econstructor|].
      rewrite Hobserved. destruct Hturn as (_ & -> & _). cbn [concat]. by rewrite app_assoc.
    + exists [trace]. split; [by constructor|].
      destruct Hturn as (_ & -> & _). cbn [concat]. by rewrite app_nil_r.
Qed.

(** C2.  A batch triggered by the commander in a channel that exists and
    has minions, whose perceptions have settled with [results].  The
    speakers are the SPEAK set sorted by predicted latency: the sorted
    list is in non-decreasing order of latency, holds the same speakers,
    and keeps speakers of equal latency in the order of the perceptions.
    The response stages start one after the other in that order, for
    all speakers when the batch returns.  The plans of the finalized
    responses that the batch delivers are therefore in non-decreasing
    order of predicted latency; and when the ids given to the
    placeholders are new to the channel, the stored channel after the
    batch is the channel before, the commander's message, and then
    exactly those finalized responses, in that order.

    The responses are generated strictly one after the other: what the
    batch shows is, after a part in which nothing is delivered, the
    traces of the turns of the speakers in their sorted order, each turn
    being the run of the body of the loop from the state and with the
    history in which the turn before it ended, so that all that a
    speaker shows, from its placeholder to the report that it has
    stopped processing, comes before the placeholder of the next.  Every turn whose key is usable and whose
    stream completes delivers the finalized response with the plan of
    its speaker and, the id being new, stores it at the end of the
    channel and adds its text to the history of the next speaker; a
    turn without a usable key or whose stream throws delivers an error
    message and stores nothing.  The batch returns unless the selection
    of a key throws in a turn, which is then the last. *)
Theorem C2_speakers_in_latency_order (w : World) (channelId : string)
    (userMessage : ChatMessageData.t) (activeChannel : Channel.t)
    (results : list PerceptionOutcome.t) (w1 : World) :
  List.find (λ c, bool_decide (Channel.id c = channelId)) (channels (this w))
    = Some activeChannel →
  minionsInChannel_of activeChannel (this w) ≠ [] →
  handleUserMessage_perceive env channelId
    (formatChatHistoryForLLM (messages_of (this w) channelId ++ [userMessage]) channelId)
    userMessage activeChannel (minionsInChannel_of activeChannel (this w))
    (posted channelId userMessage w) = (Ok results, w1) →
  let out := handleUserMessage env channelId userMessage w in
  let speakers := Array_sort by_predictedResponseTime (speaking_usable results) in
  StronglySorted no_slower speakers ∧
  speakers ≡ₚ speaking_usable results ∧
  (∀ t, filter (λ s, PerceptionPlan.predictedResponseTime s.2 = t) speakers
        = filter (λ s, PerceptionPlan.predictedResponseTime s.2 = t)
                 (speaking_usable results)) ∧
  ∃ events,
    observed out.2 = observed w ++ events ∧
    (ChatMessageData.senderName <$> placeholders events)
      `prefix_of` ((λ s, MinionConfig.name s.1) <$> speakers) ∧
    (out.1 = Ok tt →
     ChatMessageData.senderName <$> placeholders events
       = (λ s, MinionConfig.name s.1) <$> speakers) ∧
    finalized_plans events `sublist_of` (snd <$> speakers) ∧
    Sorted Z.le (PerceptionPlan.predictedResponseTime <$> finalized_plans events) ∧
    ChatMessageData.internalDiary <$> finalized events = Some <$> finalized_plans events ∧
    (fresh_ids (messages_of (this w) channelId ++ [userMessage]) events →
     messages_of (this out.2) channelId
       = messages_of (this w) channelId ++ [userMessage] ++ finalized events) ∧
    ∃ pre turns w3 r w4,
      events = pre ++ concat turns ∧
      Forall undelivered pre ∧
      observed w3 = observed w ++ pre ∧
      messages_of (this w3) channelId = messages_of (this w) channelId ++ [userMessage] ∧
      speaker_turns env channelId
        (formatChatHistoryForLLM (messages_of (this w) channelId ++ [userMessage]) channelId)
        speakers w3 turns r w4 ∧
      observed out.2 = observed w4 ∧
      this out.2 = this w4 ∧
      out.1 = match r with Ok _ => Ok tt | Throw e => Throw e end.
Proof.
  intros Hfind Hsome Hperceive out speakers.
  split; [apply Array_sort_sorted|]. split; [apply Array_sort_Permutation|].
  split; [intros t; apply Array_sort_stable|].
  pose proof (guarantees_run _ _ _ (posted channelId userMessage w)
                (backstage_handleUserMessage_perceive channelId
                   (formatChatHistoryForLLM (messages_of (this w) channelId ++ [userMessage])
                      channelId)
                   userMessage activeChannel (minionsInChannel_of activeChannel (this w))))
    as Hback1.
  rewrite Hperceive in Hback1. cbn [snd] in Hback1.
  destruct (outcomes_run channelId results [] w1) as (w2 & Houtcomes & Hback2).
  cbn [app] in Houtcomes.
  destruct (backstage_mark_silent (speaking_usable results)
              (minionsInChannel_of activeChannel (this w)) w2) as (w3 & Hmark & Hback3).
  assert (backstage (posted channelId userMessage w) w3) as [(pre & Hpre & Hundelivered) Hsame].
  { etrans; [exact Hback1|]. by etrans. }
  cbn [posted observed] in Hpre. unfold same_messages in Hsame.
  assert (messages_of (this w3) channelId = messages_of (this w) channelId ++ [userMessage])
    as Hposted.
  { unfold messages_of at 1. rewrite Hsame. cbn [posted this]. cbn. by rewrite lookup_insert_eq. }
  destruct (speakers_loop channelId speakers
              (formatChatHistoryForLLM (messages_of (this w) channelId ++ [userMessage])
                 channelId) w3)
    as (spoken & r & w4 & Hloop & Hobs & Hprefix & Hall & Hsub & _ & Hstored).
  destruct (speakers_turns channelId speakers
              (formatChatHistoryForLLM (messages_of (this w) channelId ++ [userMessage])
                 channelId) w3)
    as (turns & Hturns & Hturns_obs).
  rewrite Hloop in Hturns, Hturns_obs. cbn [fst snd] in Hturns, Hturns_obs.
  rewrite Hobs in Hturns_obs. apply app_inv_head in Hturns_obs.
  assert (observed out.2 = observed w4 ∧ this out.2 = this w4 ∧
          (out.1 = Ok tt → ∃ d, r = Ok d) ∧
          out.1 = match r with Ok _ => Ok tt | Throw e => Throw e end)
    as (Hout_obs & Hout_this & Hout_ok & Hout_result).
  { subst out. unfold handleUserMessage.
    rewrite bind_run. cbn [get_this]. rewrite bind_run. cbn [set_this].
    rewrite bind_run. cbn [get_this this channels with_messages]. rewrite Hfind.
    change (minionsInChannel_of activeChannel (with_messages _ _))
      with (minionsInChannel_of activeChannel (this w)).
    rewrite bool_decide_eq_false_2 by (intros Hlen; apply Hsome; by apply nil_length_inv).
    rewrite messages_of_with_messages, decide_True by done.
    rewrite bind_run. fold (posted channelId userMessage w). rewrite Hperceive.
    unfold handleUserMessage_schedule. rewrite bind_run, Houtcomes.
    rewrite bind_run, Hmark. rewrite bind_run. fold speakers. rewrite Hloop.
    destruct r as [d|e].
    - rewrite saveState_saved. cbn. eauto.
    - cbn. split; [done|]. split; [done|]. split; [intros [=]|done]. }
  assert (delivered pre = []) as Hquiet by by apply delivered_undelivered.
  assert (placeholders (pre ++ spoken) = placeholders spoken) as Hph.
  { rewrite placeholders_app. unfold placeholders at 1. by rewrite Hquiet. }
  assert (finalized (pre ++ spoken) = finalized spoken) as Hfin.
  { rewrite finalized_app. unfold finalized at 1. by rewrite Hquiet. }
  assert (finalized_plans (pre ++ spoken) = finalized_plans spoken) as Hplans.
  { rewrite finalized_plans_app. unfold finalized_plans at 1. by rewrite Hquiet. }
  exists (pre ++ spoken). rewrite Hph, Hfin, Hplans.
  split; [by rewrite Hout_obs, Hobs, Hpre, app_assoc|].
  split; [done|]. split; [intros Hok; by apply Hall, Hout_ok|].
  split; [done|].
  split; [eapply latencies_sorted; [exact Hsub|apply Array_sort_sorted]|].
  split; [apply finalized_plans_of_finalized|].
  split.
  { intros [Hnodup Hnew]. rewrite Hph in Hnodup, Hnew.
    rewrite Hout_this, Hstored; [by rewrite Hposted, <- app_assoc|].
    split; [done|]. by rewrite Hposted. }
  exists pre, turns, w3, r, w4. rewrite Hturns_obs. by repeat split.
Qed.

End Ordering.

Lemma turn_delivered_names (channelId : string) (minion : MinionConfig.t) (messageId : string)
    (trace : list Event) :
  Forall (turn_event channelId minion messageId) trace →
  ChatMessageData.senderName <$> delivered trace
    = replicate (length (delivered trace)) (MinionConfig.name minion).
Proof.
  induction 1 as [|e trace He _ IH]; [done|].
  change (e :: trace) with ([e] ++ trace).
  rewrite delivered_app, fmap_app, length_app, replicate_add, <- IH. f_equal.
  destruct e; try done. destruct He as [_ Hname]. cbn. by rewrite Hname.
Qed.

(** A loop over two speakers that returns has had two turns, each of
    which delivered two messages of its speaker. *)
Lemma speaker_turns_pair (env : Environment) (channelId dynamicChatHistory : string)
    (first second : MinionConfig.t * PerceptionPlan.t) (w : World) (turns : list (list Event))
    (r : Result string) (w' : World) :
  speaker_turns env channelId dynamicChatHistory [first; second] w turns r w' →
  (∃ d, r = Ok d) →
  ∃ turn1 turn2,
    turns = [turn1; turn2] ∧
    ChatMessageData.senderName <$> delivered turn1
      = [MinionConfig.name first.1; MinionConfig.name first.1] ∧
    ChatMessageData.senderName <$> delivered turn2
      = [MinionConfig.name second.1; MinionConfig.name second.1].
Proof.
  intros Hchain [d ->].
  inversion Hchain as [| |? ? ? ? turn1 ? ? rest ? ? Hfirst Hrest]; subst.
  inversion Hrest as [| |? ? ? ? turn2 ? ? rest' ? ? Hsecond Hlast]; subst.
  inversion Hlast; subst.
  exists turn1, turn2. split; [done|].
  destruct Hfirst as (_ & _ & Hfirst & _ & p1 & _ & _ & _ & k1 & m1 & _ & Hd1 & _).
  destruct Hsecond as (_ & _ & Hsecond & _ & p2 & _ & _ & _ & k2 & m2 & _ & Hd2 & _).
  rewrite (turn_delivered_names _ _ _ _ Hfirst), (turn_delivered_names _ _ _ _ Hsecond).
  by rewrite Hd1, Hd2.
Qed.

Lemma C2_speakers_in_latency_order_witness :
  ∃ events,
    observed (run_handleUserMessage env_staggered "general" second_message
                (world_of service_pair)).2 = events ∧
    ChatMessageData.senderName <$> placeholders events = ["Bravo"; "Alpha"] ∧
    ChatMessageData.senderName <$> finalized events = ["Bravo"; "Alpha"] ∧
    ChatMessageData.content <$> finalized events = ["Hello there."; "Hello there."] ∧
    PerceptionPlan.predictedResponseTime <$> finalized_plans events = [100; 300]%Z ∧
    Sorted Z.le (PerceptionPlan.predictedResponseTime <$> finalized_plans events) ∧
    messages_of (this (run_handleUserMessage env_staggered "general" second_message
                         (world_of service_pair)).2) "general"
      = [hello_message; second_message] ++ finalized events ∧
    ∃ pre turn_bravo turn_alpha,
      events = pre ++ turn_bravo ++ turn_alpha ∧
      delivered pre = [] ∧
      ChatMessageData.senderName <$> delivered turn_bravo = ["Bravo"; "Bravo"] ∧
      ChatMessageData.senderName <$> delivered turn_alpha = ["Alpha"; "Alpha"].
Proof.
  destruct (@C2_speakers_in_latency_order env_staggered (json_blank _) (json_blank _)
              (json_blank _) (json_blank _) (world_of service_pair) "general" second_message
              pair_channel
              (returned [] (pair_perceive (posted "general" second_message
                                             (world_of service_pair))).1)
              (pair_perceive (posted "general" second_message (world_of service_pair))).2)
    as (_ & _ & _ & events & Hobs & _ & Hstarted & _ & Hsorted & _ & Hstored & Hturns).
  - reflexivity.
  - vm_compute. discriminate.
  - vm_compute. reflexivity.
  - exists events. split; [exact Hobs|]. split.
    { rewrite Hstarted; [|vm_compute; reflexivity]. vm_compute. reflexivity. }
    change (observed (world_of service_pair) ++ events) with events in Hobs.
    assert (fresh_ids (messages_of (this (world_of service_pair)) "general" ++ [second_message])
              events) as Hfresh.
    { rewrite <- Hobs. split.
      - apply (bool_decide_unpack _). vm_compute. exact I.
      - intros p x Hp Hx. revert x Hx. apply Forall_forall. revert p Hp. apply Forall_forall.
        apply (bool_decide_unpack _). vm_compute. exact I. }
    split; [rewrite <- Hobs; vm_compute; reflexivity|].
    split; [rewrite <- Hobs; vm_compute; reflexivity|].
    split; [rewrite <- Hobs; vm_compute; reflexivity|].
    split; [exact Hsorted|].
    split.
    { unfold run_handleUserMessage. rewrite (Hstored Hfresh).
      assert (messages_of (this (world_of service_pair)) "general" = [hello_message]) as ->
        by (vm_compute; reflexivity).
      reflexivity. }
    destruct Hturns as (pre & turns & w3 & r & w4 & Hevents & Hpre & _ & _ & Hchain & _ & _ & Hr).
    assert ((@handleUserMessage env_staggered (json_blank _) (json_blank _) (json_blank _)
               (json_blank _) "general" second_message (world_of service_pair)).1 = Ok tt)
      as Hok by (vm_compute; reflexivity).
    assert (Array_sort by_predictedResponseTime
              (speaking_usable
                 (returned [] (pair_perceive (posted "general" second_message
                                                (world_of service_pair))).1))
            = [(minion_named "Bravo" None,
                plan_with {[ "Steven" := 70%Z ]} PerceptionPlan.SPEAK 100);
               (minion_named "Alpha" None,
                plan_with {[ "Steven" := 70%Z ]} PerceptionPlan.SPEAK 300)]) as Hspeakers
      by (vm_compute; reflexivity).
    rewrite Hspeakers in Hchain.
    destruct (speaker_turns_pair _ _ _ _ _ _ _ _ _ Hchain)
      as (turn_bravo & turn_alpha & -> & Hbravo & Halpha).
    { destruct r as [d|e]; [by exists d|]. rewrite Hok in Hr. discriminate Hr. }
    exists pre, turn_bravo, turn_alpha.
    split; [rewrite Hevents; cbn [concat]; by rewrite app_nil_r|].
    split; [by apply delivered_undelivered|].
    split; [exact Hbravo|exact Halpha].
Defined.

(** C1, where the code departs from the claim.  Alpha and Bravo share an
    autonomous channel whose last message is the commander's, and the
    model answers each perception with a plan to stay silent whose final
    opinions give the commander 70.  Both perceptions succeed.  After
    the autonomous batch the minions are exactly as before: Alpha's
    stored opinions are still empty and its diary is still null, so
    neither equals the plan.  The same perceptions in a batch triggered
    by the commander are stored. *)
Theorem C1_autonomous_batch_drops_plans :
  let w := world_of service_swarm in
  let auto := run_triggerNextAutoChatTurn env_silent "swarm" w in
  let human := run_handleUserMessage env_silent "swarm" swarm_second w in
  returned [] (swarm_perceive w).1
    = [PerceptionOutcome.mk (minion_named "Alpha" None) (Some silent_plan) None;
       PerceptionOutcome.mk (minion_named "Bravo" None) (Some silent_plan) None] ∧
  auto.1 = Ok tt ∧
  minionConfigs (this auto.2) = [minion_named "Alpha" None; minion_named "Bravo" None] ∧
  MinionConfig.opinionScores (minion_named "Alpha" None)
    ≠ PerceptionPlan.finalOpinions silent_plan ∧
  MinionConfig.lastDiaryState (minion_named "Alpha" None) ≠ Some silent_plan ∧
  human.1 = Ok tt ∧
  minionConfigs (this human.2)
    = [MinionConfig.with_lastDiaryState (Some silent_plan)
         (MinionConfig.with_opinionScores (PerceptionPlan.finalOpinions silent_plan)
            (minion_named "Alpha" None));
       MinionConfig.with_lastDiaryState (Some silent_plan)
         (MinionConfig.with_opinionScores (PerceptionPlan.finalOpinions silent_plan)
            (minion_named "Bravo" None))].
Proof.
  cbv zeta. split; [vm_compute; reflexivity|]. split; [vm_compute; reflexivity|].
  split; [vm_compute; reflexivity|]. split.
  { intros Heq. apply (f_equal (λ m : gmap string Z, m !! "Steven")) in Heq.
    vm_compute in Heq. discriminate. }
  split; [discriminate|]. split; vm_compute; reflexivity.
Qed.

(** * Further properties of the service *)

(** ** The key pool *)

Lemma trim_start_blank (s : string) : blank s = true → trim_start s = EmptyString.
Proof.
  induction s as [|c s IH]; cbn [blank trim_start]; [done|].
  intros [Hc Hs]%andb_true_iff. rewrite Hc. by apply IH.
Qed.

Lemma trim_end_nonempty (c : Ascii.ascii) (s : string) :
  is_space c = false → trim_end (String c s) ≠ EmptyString.
Proof. intros Hc. cbn [trim_end]. destruct (trim_end s); [by rewrite Hc|done]. Qed.

Lemma trim_start_not_blank (s : string) :
  blank s = false → ∃ c s', trim_start s = String c s' ∧ is_space c = false.
Proof.
  induction s as [|c s IH]; cbn [blank trim_start]; [done|].
  destruct (is_space c) eqn:Hc; cbn [andb]; [exact IH|]. intros _. by exists c, s.
Qed.

(** Trimming leaves nothing exactly when the string is blank. *)
Lemma truthy_trim (s : string) : truthy (trim s) = negb (blank s).
Proof.
  unfold truthy, trim. destruct (blank s) eqn:Hblank; cbn [negb].
  - rewrite trim_start_blank by done. done.
  - destruct (trim_start_not_blank s Hblank) as (c & s' & -> & Hc).
    rewrite bool_decide_eq_false_2; [done|]. by apply trim_end_nonempty.
Qed.

Section Pool.
Context (env : Environment).
Context {json_minions : Json (list MinionConfig.t)}.
Context {json_channels : Json (list Channel.t)}.
Context {json_messages : Json (gmap string (list ChatMessageData.t))}.
Context {json_apiKeys : Json (list ApiKey.t)}.

(** X2.  [addApiKey]: a name or a secret that is empty or ASCII white space
    only is refused with an error and nothing changes.  For a name and a
    secret of ASCII characters that are not so, the call returns, the
    pool grows at its end by one key that holds the name and the secret
    as they were given (untrimmed) under an id made from the clock, the
    rest of the service is as before, and the pool has been written to
    the store. *)
Theorem addApiKey_validates_and_appends (w : World) (name key : string) :
  (blank name = true ∨ blank key = true →
   addApiKey env name key w = (Throw (Error "API Key and Name cannot be empty."), w)) ∧
  (ascii_only name = true → ascii_only key = true →
   blank name = false → blank key = false →
   ∃ w', addApiKey env name key w = (Ok tt, w') ∧
     apiKeys (this w')
       = apiKeys (this w) ++ [ApiKey.mk ("key-" +:+ pretty (Date_now env (clock w))) name key] ∧
     minionConfigs (this w') = minionConfigs (this w) ∧
     channels (this w') = channels (this w) ∧
     messages (this w') = messages (this w) ∧
     apiKeyRoundRobinIndex (this w') = apiKeyRoundRobinIndex (this w) ∧
     localStorage w' !! API_KEYS_STORAGE_KEY = Some (JSON_stringify (apiKeys (this w')))).
Proof.
  unfold addApiKey. rewrite !truthy_trim, !negb_involutive. split.
  - intros [-> | ->]; [done|]. by rewrite orb_true_r.
  - intros _ _ -> ->. cbn [orb]. eexists. split; [reflexivity|]. cbn.
    do 5 (split; [done|]). apply lookup_insert_eq.
Qed.

(** X3.  [deleteApiKey]: the call returns; no key of the pool has the id any
    more, the other keys are kept in order, and the cursor is where it
    was; no minion is pinned to the id any more, and a minion pinned to
    another key keeps its pin.  If every pin named a pooled key before,
    every pin does so afterwards. *)
Theorem deleteApiKey_unpins_and_removes (w : World) (id : string) :
  ∃ w', deleteApiKey id w = (Ok tt, w') ∧
    apiKeys (this w') = filter (λ k, ApiKey.id k ≠ id) (apiKeys (this w)) ∧
    (∀ k, k ∈ apiKeys (this w') → ApiKey.id k ≠ id) ∧
    apiKeyRoundRobinIndex (this w') = apiKeyRoundRobinIndex (this w) ∧
    minionConfigs (this w') = clear_pin id <$> minionConfigs (this w) ∧
    (∀ m, m ∈ minionConfigs (this w') → MinionConfig.apiKeyId m ≠ Some id) ∧
    (∀ i m, minionConfigs (this w) !! i = Some m → MinionConfig.apiKeyId m ≠ Some id →
            minionConfigs (this w') !! i = Some m) ∧
    (pins_valid (this w) → pins_valid (this w')).
Proof.
  eexists. split; [reflexivity|]. cbn.
  split; [done|]. split.
  { intros k Hk. by apply list_elem_of_filter in Hk as [Hk _]. }
  split; [done|]. split; [done|]. split.
  { intros m Hm. apply list_elem_of_fmap in Hm as (m0 & -> & _).
    unfold clear_pin. case_bool_decide as Hpin; [done|]. done. }
  split.
  { intros i m Hi Hpin. rewrite list_lookup_fmap, Hi. cbn. unfold clear_pin.
    by rewrite bool_decide_eq_false_2. }
  intros Hvalid m pin Hm Hpin. cbn in Hm.
  apply list_elem_of_fmap in Hm as (m0 & -> & Hm0).
  unfold clear_pin in Hpin. case_bool_decide as Hold; [done|].
  destruct (Hvalid m0 pin Hm0 Hpin) as (k & Hk & Hid).
  exists k. split; [|done]. cbn. apply list_elem_of_filter. split; [|done].
  rewrite Hid. intros ->. by rewrite Hpin in Hold.
Qed.

End Pool.

Lemma addApiKey_validates_and_appends_witness :
  run_addApiKey "   " "SECRET" (world_of empty_service)
    = (Throw (Error "API Key and Name cannot be empty."), world_of empty_service) ∧
  ∃ w', run_addApiKey " mine " "SECRET" (world_of empty_service) = (Ok tt, w') ∧
        apiKeys (this w') = [ApiKey.mk "key-0" " mine " "SECRET"].
Proof.
  split.
  - apply (proj1 (@addApiKey_validates_and_appends env_silent (json_blank _) (json_blank _)
                    (json_blank _) (json_blank _) (world_of empty_service) "   " "SECRET")).
    left. reflexivity.
  - destruct (proj2 (@addApiKey_validates_and_appends env_silent (json_blank _) (json_blank _)
                       (json_blank _) (json_blank _) (world_of empty_service) " mine " "SECRET")
                eq_refl eq_refl eq_refl eq_refl) as (w' & Hrun & Hkeys & _).
    exists w'. split; [exact Hrun|]. rewrite Hkeys. reflexivity.
Defined.

Lemma deleteApiKey_unpins_and_removes_witness :
  ∃ w', run_deleteApiKey "key-1" (world_of service_logged) = (Ok tt, w') ∧
        pins_valid (this w') ∧ apiKeys (this w') = [key_b].
Proof.
  destruct (@deleteApiKey_unpins_and_removes (json_blank _) (json_blank _) (json_blank _)
              (json_blank _) (world_of service_logged) "key-1")
    as (w' & Hrun & Hkeys & _ & _ & _ & _ & _ & Hvalid).
  exists w'. split; [exact Hrun|]. split; [|by rewrite Hkeys].
  apply Hvalid. intros m pin Hm Hpin.
  apply list_elem_of_singleton in Hm. subst m. injection Hpin as <-.
  exists key_a. split; [apply list_elem_of_here|reflexivity].
Defined.

(** ** Managing minions, channels and messages *)

Lemma findIndex_Some {A} (p : A → bool) (xs : list A) (i : nat) :
  findIndex p xs = Some i →
  ∃ x, xs !! i = Some x ∧ p x = true ∧ ∀ j y, (j < i)%nat → xs !! j = Some y → p y = false.
Proof.
  revert i. induction xs as [|x xs IH]; intros i; cbn [findIndex]; [done|].
  destruct (p x) eqn:Hx.
  - intros [= <-]. exists x. split; [done|]. split; [done|]. intros j y Hj. lia.
  - destruct (findIndex p xs) as [k|]; [|done]. cbn. intros [= <-].
    destruct (IH k eq_refl) as (y & Hk & Hy & Hbefore). exists y.
    split; [done|]. split; [done|]. intros [|j] z Hj; cbn.
    + by intros [= <-].
    + apply Hbefore. lia.
Qed.

Lemma findIndex_is_Some {A} (p : A → bool) (xs : list A) (x : A) :
  x ∈ xs → p x = true → is_Some (findIndex p xs).
Proof.
  induction xs as [|y xs IH]; intros Hin Hx; [by apply elem_of_nil in Hin|].
  cbn [findIndex]. destruct (p y) eqn:Hy; [done|].
  apply elem_of_cons in Hin as [->|Hin]; [congruence|].
  destruct (IH Hin Hx) as [k ->]. done.
Qed.

Lemma find_Some_first {A} (p : A → bool) (xs : list A) (x : A) :
  List.find p xs = Some x → x ∈ xs ∧ p x = true.
Proof. intros [Hin Hx]%find_some. split; [by apply list_elem_of_In|done]. Qed.

Section Entities.
Context (env : Environment).
Context {json_minions : Json (list MinionConfig.t)}.
Context {json_channels : Json (list Channel.t)}.
Context {json_messages : Json (gmap string (list ChatMessageData.t))}.
Context {json_apiKeys : Json (list ApiKey.t)}.

(** X4.  [deleteMinion] with the id of a stored minion: the call returns; no
    minion has the id any more and the others are kept in order; no
    remaining minion holds an opinion of the name of the first minion
    with the id, its other opinions and, its diary apart, all else of
    it are as before; no channel lists the name as a member and the
    other members are kept in order; the histories are as before but
    for the diaries of their messages; pool and cursor are as before
    and the state has been saved. *)
Theorem deleteMinion_removes_every_trace (w : World) (id : string) (victim : MinionConfig.t) :
  List.find (λ m, bool_decide (MinionConfig.id m = id)) (minionConfigs (this w)) = Some victim →
  ∃ w', deleteMinion id w = (Ok tt, w') ∧
    forget_diary <$> minionConfigs (this w')
      = forget_diary <$> (delete_opinion (MinionConfig.name victim)
                            <$> filter (λ m, MinionConfig.id m ≠ id) (minionConfigs (this w))) ∧
    (victim ∉ minionConfigs (this w')) ∧
    (∀ m, m ∈ minionConfigs (this w') →
          MinionConfig.id m ≠ id ∧
          MinionConfig.opinionScores m !! MinionConfig.name victim = None) ∧
    (∀ c, c ∈ channels (this w') → MinionConfig.name victim ∉ Channel.members c) ∧
    Channel.id <$> channels (this w') = Channel.id <$> channels (this w) ∧
    (∀ i c, channels (this w) !! i = Some c →
            ∃ c', channels (this w') !! i = Some c' ∧
                  Channel.members c'
                    = filter (λ name, name ≠ MinionConfig.name victim) (Channel.members c)) ∧
    (λ history : list ChatMessageData.t, forget_internalDiary <$> history) <$> messages (this w')
      = (λ history : list ChatMessageData.t, forget_internalDiary <$> history)
          <$> messages (this w) ∧
    apiKeys (this w') = apiKeys (this w) ∧
    apiKeyRoundRobinIndex (this w') = apiKeyRoundRobinIndex (this w) ∧
    localStorage w' = saved_storage (this w') (localStorage w).
Proof.
  intros Hfind. pose proof (find_Some_first _ _ _ Hfind) as [Hin Hid].
  apply bool_decide_eq_true in Hid.
  unfold deleteMinion, mbind, M_bind, get_this. cbn beta iota. rewrite Hfind.
  eexists. split; [reflexivity|]. cbn.
  assert (Hremaining : ∀ m,
    m ∈ delete_opinion (MinionConfig.name victim)
          <$> filter (λ m, MinionConfig.id m ≠ id) (minionConfigs (this w)) →
    MinionConfig.id m ≠ id ∧ MinionConfig.opinionScores m !! MinionConfig.name victim = None).
  { intros m (m0 & -> & Hm0)%list_elem_of_fmap.
    apply list_elem_of_filter in Hm0 as [Hm0 _]. split; [done|]. cbn. apply lookup_delete_eq. }
  split; [reflexivity|]. split.
  { intros Hstill. by destruct (Hremaining victim Hstill). }
  split; [exact Hremaining|]. split.
  { intros c (c0 & -> & _)%list_elem_of_fmap. cbn.
    intros [Hne _]%list_elem_of_filter. done. }
  split.
  { rewrite <- list_fmap_compose. by apply list_fmap_ext. }
  split.
  { intros i c Hi. eexists. rewrite list_lookup_fmap, Hi. cbn. done. }
  done.
Qed.

(** X5.  [updateMinion] with the id of a stored minion: the call returns the
    given configuration, which now stands where the first minion with
    that id stood; every other position, the list of ids and so the
    number of minions are as before, and the state has been saved. *)
Theorem updateMinion_replaces_in_place (w : World) (updatedConfig old : MinionConfig.t) :
  old ∈ minionConfigs (this w) →
  MinionConfig.id old = MinionConfig.id updatedConfig →
  ∃ w' index,
    updateMinion updatedConfig w = (Ok updatedConfig, w') ∧
    minionConfigs (this w') !! index = Some updatedConfig ∧
    (∀ j, j ≠ index → minionConfigs (this w') !! j = minionConfigs (this w) !! j) ∧
    (∀ j m, (j < index)%nat → minionConfigs (this w) !! j = Some m →
            MinionConfig.id m ≠ MinionConfig.id updatedConfig) ∧
    MinionConfig.id <$> minionConfigs (this w') = MinionConfig.id <$> minionConfigs (this w) ∧
    channels (this w') = channels (this w) ∧
    messages (this w') = messages (this w) ∧
    apiKeys (this w') = apiKeys (this w) ∧
    localStorage w' = saved_storage (this w') (localStorage w).
Proof.
  intros Hin Hid.
  destruct (findIndex_is_Some
              (λ m, bool_decide (MinionConfig.id m = MinionConfig.id updatedConfig))
              (minionConfigs (this w)) old Hin) as [index Hindex].
  { by apply bool_decide_eq_true. }
  destruct (findIndex_Some _ _ _ Hindex) as (x & Hx & Hxid & Hbefore).
  apply bool_decide_eq_true in Hxid.
  unfold updateMinion, mbind, M_bind, get_this. cbn beta iota. rewrite Hindex.
  eexists _, index. split; [reflexivity|]. cbn.
  split. { apply list_lookup_insert_eq. by eapply lookup_lt_Some. }
  split. { intros j Hj. by apply list_lookup_insert_ne. }
  split. { intros j m Hj Hm. specialize (Hbefore j m Hj Hm). by apply bool_decide_eq_false in Hbefore. }
  split; [|done].
  rewrite list_fmap_insert. apply list_insert_id. by rewrite list_lookup_fmap, Hx, <- Hxid.
Qed.

(** X6.  [addChannel]: the call returns a channel whose id is made from the
    clock, with the name, type and members of the payload, a description
    that is the empty string when the payload has none, and the fixed
    defaults (public, auto-mode off, fixed delay of 5, random delay 3 to
    10) whatever the payload says of them.  The channel is appended to
    the channels; a history exists for its id afterwards, and a history
    that was there under that id is kept, like every other history. *)
Theorem addChannel_appends_with_defaults (w : World) (channelData : ChannelPayload.t) :
  ∃ w' newChannel,
    addChannel env channelData w = (Ok newChannel, w') ∧
    channels (this w') = channels (this w) ++ [newChannel] ∧
    Channel.id newChannel = "channel-" +:+ pretty (Date_now env (clock w)) ∧
    Channel.name newChannel = ChannelPayload.name channelData ∧
    Channel.type newChannel = ChannelPayload.type channelData ∧
    Channel.members newChannel = ChannelPayload.members channelData ∧
    Channel.description newChannel
      = Some (default EmptyString (ChannelPayload.description channelData)) ∧
    Channel.isPrivate newChannel = Some false ∧
    Channel.isAutoModeActive newChannel = Some false ∧
    Channel.autoModeDelayType newChannel = Some Channel.fixed ∧
    Channel.autoModeFixedDelay newChannel = Some 5%Z ∧
    Channel.autoModeRandomDelay newChannel = Some (3%Z, 10%Z) ∧
    is_Some (messages (this w') !! Channel.id newChannel) ∧
    (∀ c, messages_of (this w') c = messages_of (this w) c) ∧
    minionConfigs (this w') = minionConfigs (this w) ∧
    apiKeys (this w') = apiKeys (this w) ∧
    localStorage w' = saved_storage (this w') (localStorage w).
Proof.
  unfold addChannel, mbind, M_bind, now, get_this, set_this. cbn beta iota.
  cbn [this localStorage observed clock requests channels messages with_channels Channel.id].
  set (newId := "channel-" +:+ pretty (Date_now env (clock w))).
  destruct (messages (this w) !! newId) as [history|] eqn:Hhistory.
  - eexists _, _. split; [reflexivity|]. cbn. by repeat (split; [done|]).
  - eexists _, _. split; [reflexivity|]. cbn. do 11 (split; [done|]).
    split; [by rewrite lookup_insert_eq|]. split; [|done].
    intros c. unfold messages_of. cbn. destruct (decide (newId = c)) as [<-|Hne].
    + by rewrite lookup_insert_eq, Hhistory.
    + by rewrite lookup_insert_ne.
Qed.

(** X7.  [updateChannel] with the id of a stored channel: the call returns
    the merged channel, which stands where the first channel with that
    id stood: no channel before that position has the id.  Name, type
    and members are those of the update; each optional property is that
    of the update when it carries one and that of the stored channel
    otherwise.  The other channels, the list of channel ids, minions,
    histories and pool are as before. *)
Theorem updateChannel_merges_in_place (w : World) (updatedChannelData old : Channel.t) :
  old ∈ channels (this w) →
  Channel.id old = Channel.id updatedChannelData →
  ∃ w' index existingChannel,
    channels (this w) !! index = Some existingChannel ∧
    Channel.id existingChannel = Channel.id updatedChannelData ∧
    (∀ j c, (j < index)%nat → channels (this w) !! j = Some c →
            Channel.id c ≠ Channel.id updatedChannelData) ∧
    updateChannel updatedChannelData w
      = (Ok (spread_channel existingChannel updatedChannelData), w') ∧
    channels (this w') !! index = Some (spread_channel existingChannel updatedChannelData) ∧
    (∀ j, j ≠ index → channels (this w') !! j = channels (this w) !! j) ∧
    Channel.id <$> channels (this w') = Channel.id <$> channels (this w) ∧
    (Channel.description updatedChannelData = None →
     Channel.description (spread_channel existingChannel updatedChannelData)
       = Channel.description existingChannel) ∧
    (Channel.isAutoModeActive updatedChannelData = None →
     Channel.isAutoModeActive (spread_channel existingChannel updatedChannelData)
       = Channel.isAutoModeActive existingChannel) ∧
    (∀ v, Channel.isAutoModeActive updatedChannelData = Some v →
     Channel.isAutoModeActive (spread_channel existingChannel updatedChannelData) = Some v) ∧
    minionConfigs (this w') = minionConfigs (this w) ∧
    messages (this w') = messages (this w) ∧
    apiKeys (this w') = apiKeys (this w) ∧
    localStorage w' = saved_storage (this w') (localStorage w).
Proof.
  intros Hin Hid.
  destruct (findIndex_is_Some
              (λ c, bool_decide (Channel.id c = Channel.id updatedChannelData))
              (channels (this w)) old Hin) as [index Hindex].
  { by apply bool_decide_eq_true. }
  destruct (findIndex_Some _ _ _ Hindex) as (x & Hx & Hxid & Hbefore).
  apply bool_decide_eq_true in Hxid.
  unfold updateChannel, mbind, M_bind, get_this. cbn beta iota. rewrite Hindex, Hx.
  eexists _, index, x. split; [done|]. split; [done|]. split.
  { intros j c Hj Hc. specialize (Hbefore j c Hj Hc). by apply bool_decide_eq_false in Hbefore. }
  split; [reflexivity|]. cbn.
  split. { apply list_lookup_insert_eq. by eapply lookup_lt_Some. }
  split. { intros j Hj. by apply list_lookup_insert_ne. }
  split.
  { rewrite list_fmap_insert. apply list_insert_id. rewrite list_lookup_fmap, Hx.
    cbn. by f_equal. }
  split. { by intros ->. }
  split. { by intros ->. }
  split. { by intros v ->. }
  done.
Qed.

End Entities.

Lemma deleteMinion_removes_every_trace_witness :
  ∃ w', run_deleteMinion "id-Alpha" (world_of service_pair) = (Ok tt, w') ∧
        minionConfigs (this w') = [minion_named "Bravo" None] ∧
        Channel.members <$> channels (this w') = [["Steven"; "Bravo"]].
Proof.
  destruct (@deleteMinion_removes_every_trace (json_blank _) (json_blank _) (json_blank _)
              (json_blank _) (world_of service_pair) "id-Alpha" (minion_named "Alpha" None)
              eq_refl)
    as (w' & Hrun & _).
  exists w'. split; [exact Hrun|].
  unfold run_deleteMinion in *. injection Hrun as <-. by split.
Defined.

Lemma updateMinion_replaces_in_place_witness :
  ∃ w', run_updateMinion (minion_named "Alpha" (Some "key-1")) (world_of service_pair)
          = (Ok (minion_named "Alpha" (Some "key-1")), w') ∧
        minionConfigs (this w')
          = [minion_named "Alpha" (Some "key-1"); minion_named "Bravo" None].
Proof.
  destruct (@updateMinion_replaces_in_place (json_blank _) (json_blank _) (json_blank _)
              (json_blank _) (world_of service_pair) (minion_named "Alpha" (Some "key-1"))
              (minion_named "Alpha" None) ltac:(apply list_elem_of_here) eq_refl)
    as (w' & index & Hrun & _).
  exists w'. split; [exact Hrun|].
  unfold run_updateMinion in *. injection Hrun as <-. reflexivity.
Defined.

Lemma updateChannel_merges_in_place_witness :
  ∃ w', run_updateChannel
          (Channel.mk "swarm" "#hive" None Channel.minion_minion_auto ["Alpha"]
             None None None None None)
          (world_of service_swarm)
        = (Ok (Channel.mk "swarm" "#hive" None Channel.minion_minion_auto ["Alpha"]
                 None (Some true) None None None), w').
Proof.
  destruct (@updateChannel_merges_in_place (json_blank _) (json_blank _) (json_blank _)
              (json_blank _) (world_of service_swarm)
              (Channel.mk "swarm" "#hive" None Channel.minion_minion_auto ["Alpha"]
                 None None None None None)
              swarm_channel ltac:(apply list_elem_of_here) eq_refl)
    as (w' & index & existing & Hexisting & _ & _ & Hrun & _).
  exists w'. unfold run_updateChannel. rewrite Hrun.
  destruct index as [|index]; [|done]. by injection Hexisting as <-.
Defined.

Section Histories.
Context {json_minions : Json (list MinionConfig.t)}.
Context {json_channels : Json (list Channel.t)}.
Context {json_messages : Json (gmap string (list ChatMessageData.t))}.
Context {json_apiKeys : Json (list ApiKey.t)}.

(** X8.  [editMessage]: the call returns; in the history of the channel every
    message with the id has the new content and is otherwise as it was,
    every other message is as it was, and the order and the ids are
    kept.  The channel has a history afterwards even if it had none; the
    histories of the other channels, minions, channels and pool are as
    before, and the state has been saved. *)
Theorem editMessage_rewrites_content (w : World) (channelId messageId newContent : string) :
  ∃ w', editMessage channelId messageId newContent w = (Ok tt, w') ∧
    (∀ i m, messages_of (this w) channelId !! i = Some m →
       messages_of (this w') channelId !! i
         = Some (if bool_decide (ChatMessageData.id m = messageId)
                 then ChatMessageData.with_content newContent m else m)) ∧
    length (messages_of (this w') channelId) = length (messages_of (this w) channelId) ∧
    ChatMessageData.id <$> messages_of (this w') channelId
      = ChatMessageData.id <$> messages_of (this w) channelId ∧
    (∀ m, m ∈ messages_of (this w') channelId → ChatMessageData.id m = messageId →
          ChatMessageData.content m = newContent) ∧
    is_Some (messages (this w') !! channelId) ∧
    (∀ c, c ≠ channelId → messages (this w') !! c = messages (this w) !! c) ∧
    minionConfigs (this w') = minionConfigs (this w) ∧
    channels (this w') = channels (this w) ∧
    apiKeys (this w') = apiKeys (this w) ∧
    localStorage w' = saved_storage (this w') (localStorage w).
Proof.
  eexists. split; [reflexivity|]. cbn.
  rewrite !messages_of_with_messages, !decide_True, lookup_insert_eq by done.
  split. { intros i m Hi. by rewrite list_lookup_fmap, Hi. }
  split. { by rewrite length_fmap. }
  split.
  { rewrite <- list_fmap_compose. apply list_fmap_ext. intros i m _. cbn.
    by case_bool_decide. }
  split.
  { intros m (m0 & -> & _)%list_elem_of_fmap. by case_bool_decide. }
  split; [done|]. split; [|done].
  intros c Hc. by rewrite lookup_insert_ne.
Qed.

(** X9.  [deleteMessage]: the call returns; the history of the channel keeps
    exactly its messages with another id, in their order, so no message
    with the id is left.  The channel has a history afterwards even if
    it had none; the histories of the other channels, minions, channels
    and pool are as before, and the state has been saved. *)
Theorem deleteMessage_removes_by_id (w : World) (channelId messageId : string) :
  ∃ w', deleteMessage channelId messageId w = (Ok tt, w') ∧
    messages_of (this w') channelId
      = filter (λ m, ChatMessageData.id m ≠ messageId) (messages_of (this w) channelId) ∧
    (∀ m, m ∈ messages_of (this w') channelId ↔
          m ∈ messages_of (this w) channelId ∧ ChatMessageData.id m ≠ messageId) ∧
    messages_of (this w') channelId `sublist_of` messages_of (this w) channelId ∧
    is_Some (messages (this w') !! channelId) ∧
    (∀ c, c ≠ channelId → messages (this w') !! c = messages (this w) !! c) ∧
    minionConfigs (this w') = minionConfigs (this w) ∧
    channels (this w') = channels (this w) ∧
    apiKeys (this w') = apiKeys (this w) ∧
    localStorage w' = saved_storage (this w') (localStorage w).
Proof.
  eexists. split; [reflexivity|]. cbn.
  rewrite !messages_of_with_messages, !decide_True, lookup_insert_eq by done.
  split; [done|].
  split. { intros m. rewrite list_elem_of_filter. tauto. }
  split. { apply sublist_filter. }
  split; [done|]. split; [|done].
  intros c Hc. by rewrite lookup_insert_ne.
Qed.

End Histories.

(** X10.  [updateMinionState]: the call returns.  With the id of a stored
    minion, the first minion with that id has the final opinions of the
    plan as its opinions and the plan as its last diary state; its id,
    name, model, persona, temperature and pin, and every other minion,
    are as before.  With an unknown id nothing changes.  In both cases
    channels, histories, pool and the store are untouched: the state is
    not saved by this call. *)
Theorem updateMinionState_touches_one_minion (w : World) (minionId : string)
    (plan : PerceptionPlan.t) :
  ∃ w', updateMinionState minionId plan w = (Ok tt, w') ∧
    identity_of <$> minionConfigs (this w') = identity_of <$> minionConfigs (this w) ∧
    (∀ i m, minionConfigs (this w) !! i = Some m → MinionConfig.id m ≠ minionId →
            minionConfigs (this w') !! i = Some m) ∧
    (∀ old, old ∈ minionConfigs (this w) → MinionConfig.id old = minionId →
       ∃ m, m ∈ minionConfigs (this w') ∧ MinionConfig.id m = minionId ∧
            MinionConfig.opinionScores m = PerceptionPlan.finalOpinions plan ∧
            MinionConfig.lastDiaryState m = Some plan) ∧
    ((∀ m, m ∈ minionConfigs (this w) → MinionConfig.id m ≠ minionId) → w' = w) ∧
    channels (this w') = channels (this w) ∧
    messages (this w') = messages (this w) ∧
    apiKeys (this w') = apiKeys (this w) ∧
    apiKeyRoundRobinIndex (this w') = apiKeyRoundRobinIndex (this w) ∧
    localStorage w' = localStorage w ∧
    observed w' = observed w.
Proof.
  unfold updateMinionState, mbind, M_bind, get_this. cbn beta iota.
  destruct (findIndex _ _) as [index|] eqn:Hindex.
  - destruct (findIndex_Some _ _ _ Hindex) as (x & Hx & Hxid & Hbefore).
    apply bool_decide_eq_true in Hxid.
    eexists. split; [reflexivity|]. cbn.
    split.
    { apply list_eq. intros i. rewrite !list_lookup_fmap.
      destruct (decide (i = index)) as [->|Hne].
      - by rewrite list_lookup_alter_eq, Hx.
      - by rewrite list_lookup_alter_ne. }
    split.
    { intros i m Hi Hid. rewrite list_lookup_alter_ne; [done|]. intros ->. congruence. }
    split.
    { intros old _ _. eexists. split.
      - eapply list_elem_of_lookup_2. by rewrite list_lookup_alter_eq, Hx.
      - done. }
    split; [|done].
    intros Hnone. exfalso. apply (Hnone x); [|done]. by eapply list_elem_of_lookup_2.
  - exists w. split; [reflexivity|].
    split; [done|]. split; [done|]. split; [|done].
    intros old Hold Hid. exfalso.
    destruct (findIndex_is_Some (λ m, bool_decide (MinionConfig.id m = minionId))
                (minionConfigs (this w)) old Hold) as [k Hk]; [by apply bool_decide_eq_true|].
    congruence.
Qed.

(** ** Saving and loading *)

Section Reading.
Context (env : Environment).
Context {T : Type} `{Json T}.

Lemma getStoredData_absent (w : World) (key : string) (defaultValue : T) :
  localStorage w !! key = None → getStoredData env key defaultValue w = (Ok defaultValue, w).
Proof. intros Hkey. unfold getStoredData, localStorage_getItem. run. by rewrite Hkey. Qed.

Lemma getStoredData_parsed (w : World) (key text : string) (defaultValue value : T) :
  localStorage w !! key = Some text → text ≠ "undefined" → JSON_parse text = Some value →
  getStoredData env key defaultValue w = (Ok value, w).
Proof.
  intros Hkey Htext Hparse. unfold getStoredData, localStorage_getItem. run.
  by rewrite Hkey, bool_decide_eq_false_2, Hparse.
Qed.

(** X11.  What [setStoredData] has written, [getStoredData] reads back: if the
    text of the value parses to the value and is not the literal text
    [undefined], loading under the same key returns the value and not
    the default, and the store holds the text under the key. *)
Theorem setStoredData_getStoredData (w : World) (key : string) (data defaultValue : T) :
  JSON_parse (JSON_stringify data) = Some data →
  JSON_stringify data ≠ "undefined" →
  ∃ w', save_then_load env key data defaultValue w = (Ok data, w') ∧
        localStorage w' = <[key := JSON_stringify data]> (localStorage w) ∧
        this w' = this w ∧ clock w' = clock w.
Proof.
  intros Hparse Htext. unfold save_then_load, setStoredData, localStorage_setItem. run.
  erewrite getStoredData_parsed; [by eexists| |done|done]. cbn. apply lookup_insert_eq.
Qed.

End Reading.

Lemma setStoredData_getStoredData_witness :
  ∃ w', @save_then_load bool json_bool env_silent "flag" true false (world_of empty_service)
        = (Ok true, w').
Proof.
  destruct (@setStoredData_getStoredData env_silent bool json_bool (world_of empty_service)
              "flag" true false eq_refl ltac:(discriminate)) as (w' & Hrun & _).
  by exists w'.
Defined.

Section Starting.
Context (env : Environment).
Context {json_minions : Json (list MinionConfig.t)}.
Context {json_channels : Json (list Channel.t)}.
Context {json_messages : Json (gmap string (list ChatMessageData.t))}.
Context {json_apiKeys : Json (list ApiKey.t)}.

(** Reading an entry that is absent, [undefined] or of the expected shape
    returns its value and changes nothing. *)
Lemma getStoredData_typed {T} `{Json T} (w : World) (key : string) (defaultValue value : T) :
  typed_entry (localStorage w) key defaultValue value →
  getStoredData env key defaultValue w = (Ok value, w).
Proof.
  unfold typed_entry, getStoredData, localStorage_getItem. run.
  destruct (localStorage w !! key) as [text|]; [|by intros ->].
  case_bool_decide; [by intros ->|by intros ->].
Qed.

(** X12.  [constructor] on a store in which each of the four entries is
    absent, the text [undefined], or a text that parses to a value of
    the expected shape: the call returns; the service holds the minions,
    channels and keys that were read, the defaults standing in for the
    entries that are absent or [undefined]; its histories are those
    read, with a history for the operations log added if there was
    none; the cursor of the pool is 0; the store is as it was, and no
    callback or request has been made. *)
Theorem constructor_starts_from_typed_store (w : World) (minions : list MinionConfig.t)
    (chans : list Channel.t) (msgs : gmap string (list ChatMessageData.t))
    (keys : list ApiKey.t) :
  typed_entry (localStorage w) MINION_CONFIGS_STORAGE_KEY [] minions →
  typed_entry (localStorage w) CHANNELS_STORAGE_KEY (getInitialChannels minions) chans →
  typed_entry (localStorage w) CHAT_HISTORY_STORAGE_KEY ∅ msgs →
  typed_entry (localStorage w) API_KEYS_STORAGE_KEY [] keys →
  ∃ w', constructor env w = (Ok tt, w') ∧
        minionConfigs (this w') = minions ∧
        channels (this w') = chans ∧
        apiKeys (this w') = keys ∧
        (∀ channelId, channelId ≠ "legion_ops_log" →
                      messages (this w') !! channelId = msgs !! channelId) ∧
        (is_Some (msgs !! "legion_ops_log") → messages (this w') = msgs) ∧
        is_Some (messages (this w') !! "legion_ops_log") ∧
        apiKeyRoundRobinIndex (this w') = 0%nat ∧
        localStorage w' = localStorage w ∧
        observed w' = observed w ∧ requests w' = requests w.
Proof.
  intros Hminions Hchans Hmsgs Hkeys. unfold constructor.
  rewrite bind_run, (getStoredData_typed _ _ _ _ Hminions).
  rewrite bind_run, (getStoredData_typed _ _ _ _ Hchans).
  rewrite bind_run, (getStoredData_typed _ _ _ _ Hmsgs).
  rewrite bind_run, (getStoredData_typed _ _ _ _ Hkeys).
  destruct (msgs !! "legion_ops_log") as [log|] eqn:Hlog.
  - eexists. split; [reflexivity|]. cbn. do 4 (split; [done|]).
    split; [done|]. split; [by rewrite Hlog|]. done.
  - eexists. split; [reflexivity|]. cbn. do 3 (split; [done|]).
    split; [intros channelId Hid; by rewrite lookup_insert_ne|].
    split; [by intros [? ?]|]. split; [by rewrite lookup_insert_eq|]. done.
Qed.

(** X13.  [constructor] on a store that holds minions but no channels,
    histories or keys: the service starts with the stored minions, the
    two initial channels, of which [general] has the commander and then
    every stored minion's name as members, a single history, that of
    the operations log with its one initial message, and an empty
    pool. *)
Theorem constructor_initial_channels (w : World) (text : string)
    (minions : list MinionConfig.t) :
  localStorage w !! MINION_CONFIGS_STORAGE_KEY = Some text →
  text ≠ "undefined" →
  JSON_parse text = Some minions →
  localStorage w !! CHANNELS_STORAGE_KEY = None →
  localStorage w !! CHAT_HISTORY_STORAGE_KEY = None →
  localStorage w !! API_KEYS_STORAGE_KEY = None →
  ∃ w', constructor env w = (Ok tt, w') ∧
        this w' = mkService minions (getInitialChannels minions)
                    {[ "legion_ops_log" := [init_message env w] ]} [] 0 ∧
        (Channel.id <$> channels (this w')) = ["general"; "legion_ops_log"] ∧
        (∀ c, c ∈ channels (this w') → Channel.id c = "general" →
              Channel.members c = LEGION_COMMANDER_NAME :: (MinionConfig.name <$> minions)) ∧
        localStorage w' = localStorage w.
Proof.
  intros Hminions Htext Hparse Hchannels Hhistory Hkeys. unfold constructor.
  rewrite bind_run, (getStoredData_parsed env w _ text [] minions) by done.
  rewrite bind_run, getStoredData_absent by done.
  rewrite bind_run, getStoredData_absent by done.
  rewrite bind_run, getStoredData_absent by done.
  eexists. split; [reflexivity|]. cbn.
  split; [done|]. split; [done|]. split; [|done].
  intros c Hc Hid. cbn in Hc.
  apply elem_of_cons in Hc as [->|Hc]; [done|].
  apply list_elem_of_singleton in Hc as ->. done.
Qed.

(** X14.  Saving and starting again: if each of the four collections is read
    back from its own text, and the service has a history for the
    operations log, then [saveState] followed by [constructor] leaves
    minions, channels, histories and pool as they were and puts the
    cursor of the pool back to 0. *)
Theorem saveState_constructor (w : World) :
  JSON_parse (JSON_stringify (minionConfigs (this w))) = Some (minionConfigs (this w)) →
  JSON_parse (JSON_stringify (channels (this w))) = Some (channels (this w)) →
  JSON_parse (JSON_stringify (messages (this w))) = Some (messages (this w)) →
  JSON_parse (JSON_stringify (apiKeys (this w))) = Some (apiKeys (this w)) →
  JSON_stringify (minionConfigs (this w)) ≠ "undefined" →
  JSON_stringify (channels (this w)) ≠ "undefined" →
  JSON_stringify (messages (this w)) ≠ "undefined" →
  JSON_stringify (apiKeys (this w)) ≠ "undefined" →
  is_Some (messages (this w) !! "legion_ops_log") →
  ∃ w', reload env w = (Ok tt, w') ∧
        this w' = with_apiKeyRoundRobinIndex 0 (this w) ∧
        localStorage w' = saved_storage (this w) (localStorage w) ∧
        clock w' = clock w.
Proof.
  intros Hm Hc Hh Hk Hm' Hc' Hh' Hk' [log Hlog].
  unfold reload. rewrite bind_run, saveState_saved. unfold constructor.
  rewrite bind_run, (getStoredData_parsed env (saved w) MINION_CONFIGS_STORAGE_KEY
                       (JSON_stringify (minionConfigs (this w))) [] (minionConfigs (this w)));
    [|cbn; unfold saved_storage; do 3 (rewrite lookup_insert_ne by done);
      apply lookup_insert_eq|done|done].
  rewrite bind_run, (getStoredData_parsed env (saved w) CHANNELS_STORAGE_KEY
                       (JSON_stringify (channels (this w))) _ (channels (this w)));
    [|cbn; unfold saved_storage; do 2 (rewrite lookup_insert_ne by done);
      apply lookup_insert_eq|done|done].
  rewrite bind_run, (getStoredData_parsed env (saved w) CHAT_HISTORY_STORAGE_KEY
                       (JSON_stringify (messages (this w))) _ (messages (this w)));
    [|cbn; unfold saved_storage; do 1 (rewrite lookup_insert_ne by done);
      apply lookup_insert_eq|done|done].
  rewrite bind_run, (getStoredData_parsed env (saved w) API_KEYS_STORAGE_KEY
                       (JSON_stringify (apiKeys (this w))) _ (apiKeys (this w)));
    [|cbn; unfold saved_storage; by rewrite lookup_insert_eq|done|done].
  rewrite Hlog. eexists. split; [reflexivity|]. done.
Qed.

End Starting.

Lemma constructor_starts_from_typed_store_witness :
  ∃ w', @constructor env_silent (json_only [minion_named "Alpha" None])
          (json_blank _) (json_blank _) (json_only [key_a])
          (world_storing {[ MINION_CONFIGS_STORAGE_KEY := "data";
                            API_KEYS_STORAGE_KEY := "undefined" ]}) = (Ok tt, w') ∧
        minionConfigs (this w') = [minion_named "Alpha" None] ∧
        apiKeys (this w') = [] ∧
        is_Some (messages (this w') !! "legion_ops_log").
Proof.
  destruct (@constructor_starts_from_typed_store env_silent
              (json_only [minion_named "Alpha" None])
              (json_blank _) (json_blank _) (json_only [key_a])
              (world_storing {[ MINION_CONFIGS_STORAGE_KEY := "data";
                                API_KEYS_STORAGE_KEY := "undefined" ]})
              [minion_named "Alpha" None]
              (getInitialChannels [minion_named "Alpha" None]) ∅ [])
    as (w' & Hrun & Hminions & _ & Hkeys & _ & _ & Hlog & _);
    [vm_compute; reflexivity ..|].
  exists w'. by repeat split.
Defined.

Lemma constructor_initial_channels_witness :
  ∃ w', @constructor env_silent (json_only [minion_named "Alpha" None])
          (json_blank _) (json_blank _) (json_blank _)
          (world_storing {[ MINION_CONFIGS_STORAGE_KEY := "data" ]}) = (Ok tt, w') ∧
        Channel.members <$> channels (this w') = [["Steven"; "Alpha"]; []].
Proof.
  destruct (@constructor_initial_channels env_silent (json_only [minion_named "Alpha" None])
              (json_blank _) (json_blank _) (json_blank _)
              (world_storing {[ MINION_CONFIGS_STORAGE_KEY := "data" ]}) "data"
              [minion_named "Alpha" None])
    as (w' & Hrun & Hthis & _);
    [vm_compute; reflexivity | discriminate | reflexivity | vm_compute; reflexivity ..|].
  exists w'. split; [exact Hrun|]. by rewrite Hthis.
Defined.

Lemma saveState_constructor_witness :
  ∃ w', run_reload env_silent (world_of service_logged) = (Ok tt, w') ∧
        this w' = with_apiKeyRoundRobinIndex 0 service_logged.
Proof.
  destruct (@saveState_constructor env_silent
              (json_only (minionConfigs service_logged)) (json_only (channels service_logged))
              (json_only (messages service_logged)) (json_only (apiKeys service_logged))
              (world_of service_logged))
    as (w' & Hrun & Hthis & _);
    [reflexivity | reflexivity | reflexivity | reflexivity
    | discriminate | discriminate | discriminate | discriminate
    | eexists; vm_compute; reflexivity |].
  exists w'. split; [exact Hrun|exact Hthis].
Defined.

(** ** The guards of the two batches *)

Lemma filter_nil_all {A} (P : A → Prop) `{∀ x, Decision (P x)} (xs : list A) :
  (∀ x, x ∈ xs → ¬ P x) → filter P xs = [].
Proof.
  induction xs as [|x xs IH]; intros Hall; [done|].
  rewrite filter_cons_False by (apply Hall, list_elem_of_here).
  apply IH. intros y Hy. apply Hall. by apply list_elem_of_further.
Qed.

Section Guards.
Context (env : Environment).
Context {json_minions : Json (list MinionConfig.t)}.
Context {json_channels : Json (list Channel.t)}.
Context {json_messages : Json (gmap string (list ChatMessageData.t))}.
Context {json_apiKeys : Json (list ApiKey.t)}.

(** X15.  [handleUserMessage] on a channel id under which no stored channel
    has a stored minion among its members (in particular an id no
    channel has): the call returns; the message has been appended to
    the history of that id and that is all: no callback and no request
    has been made, the clock has not been read, and the store has not
    been written, so the appended message is not saved. *)
Theorem handleUserMessage_without_minions (w : World) (channelId : string)
    (userMessage : ChatMessageData.t) :
  (∀ c m, c ∈ channels (this w) → Channel.id c = channelId → m ∈ minionConfigs (this w) →
          MinionConfig.name m ∉ Channel.members c) →
  handleUserMessage env channelId userMessage w
    = (Ok tt,
       mkWorld (with_messages
                  (<[channelId := messages_of (this w) channelId ++ [userMessage]]>
                     (messages (this w))) (this w))
               (localStorage w) (observed w) (clock w) (requests w)).
Proof.
  intros Hnone. unfold handleUserMessage, mbind, M_bind, get_this, set_this.
  cbn beta iota. cbn [this channels with_messages].
  destruct (List.find _ _) as [activeChannel|] eqn:Hfind; [|done].
  apply find_Some_first in Hfind as [Hin Hid]. apply bool_decide_eq_true in Hid.
  unfold minionsInChannel_of. cbn [minionConfigs].
  rewrite filter_nil_all; [done|]. intros m Hm. by apply (Hnone activeChannel).
Qed.

(** X16.  [triggerNextAutoChatTurn] when no stored channel has the id, or the
    first that has it is not in auto-mode: the call returns and nothing
    at all has happened. *)
Theorem triggerNextAutoChatTurn_inactive (w : World) (channelId : string) :
  (∀ c, List.find (λ c, bool_decide (Channel.id c = channelId)) (channels (this w)) = Some c →
        Channel.isAutoModeActive c ≠ Some true) →
  triggerNextAutoChatTurn env channelId w = (Ok tt, w).
Proof.
  intros Hoff. unfold triggerNextAutoChatTurn, mbind, M_bind, get_this. cbn beta iota.
  destruct (List.find _ _) as [activeChannel|]; [|done].
  by rewrite bool_decide_eq_false_2 by by apply Hoff.
Qed.

(** X17.  [triggerNextAutoChatTurn] on a channel in auto-mode with fewer than
    two stored minions among its members: the call returns after a
    single callback, the system message that auto-mode is paused; the
    service and the store are as before and no request has been made. *)
Theorem triggerNextAutoChatTurn_paused (w : World) (channelId : string)
    (activeChannel : Channel.t) :
  List.find (λ c, bool_decide (Channel.id c = channelId)) (channels (this w))
    = Some activeChannel →
  Channel.isAutoModeActive activeChannel = Some true →
  (length (minionsInChannel_of activeChannel (this w)) < 2)%nat →
  triggerNextAutoChatTurn env channelId w
    = (Ok tt,
       mkWorld (this w) (localStorage w)
               (observed w ++ [onSystemMessage (auto_paused_notice env channelId w)])
               (S (S (clock w))) (requests w)).
Proof.
  intros Hfind Hactive Hfew.
  unfold triggerNextAutoChatTurn, mbind, M_bind, get_this. cbn beta iota.
  rewrite Hfind, bool_decide_eq_true_2 by done. cbn [negb].
  by rewrite bool_decide_eq_true_2 by done.
Qed.

(** X18.  [triggerNextAutoChatTurn] on a channel in auto-mode with two or
    more member minions but an empty or absent history: the call
    returns and nothing at all has happened. *)
Theorem triggerNextAutoChatTurn_nothing_said (w : World) (channelId : string)
    (activeChannel : Channel.t) :
  List.find (λ c, bool_decide (Channel.id c = channelId)) (channels (this w))
    = Some activeChannel →
  Channel.isAutoModeActive activeChannel = Some true →
  (2 ≤ length (minionsInChannel_of activeChannel (this w)))%nat →
  messages_of (this w) channelId = [] →
  triggerNextAutoChatTurn env channelId w = (Ok tt, w).
Proof.
  intros Hfind Hactive Hmany Hempty.
  unfold triggerNextAutoChatTurn, mbind, M_bind, get_this. cbn beta iota.
  rewrite Hfind, bool_decide_eq_true_2 by done. cbn [negb].
  rewrite bool_decide_eq_false_2 by lia. by rewrite Hempty.
Qed.

End Guards.

Lemma handleUserMessage_without_minions_witness :
  let w' := (run_handleUserMessage env_silent "elsewhere" hello_message
               (world_of service_one)).2 in
  messages_of (this w') "elsewhere" = [hello_message] ∧ observed w' = [] ∧ localStorage w' = ∅.
Proof.
  cbn zeta. unfold run_handleUserMessage.
  rewrite (@handleUserMessage_without_minions env_silent (json_blank _) (json_blank _)
             (json_blank _) (json_blank _) (world_of service_one) "elsewhere" hello_message).
  - split; [|done]. vm_compute. reflexivity.
  - intros c m Hc Hid. apply list_elem_of_singleton in Hc as ->. discriminate.
Defined.

Lemma triggerNextAutoChatTurn_inactive_witness :
  run_triggerNextAutoChatTurn env_silent "general" (world_of service_one)
    = (Ok tt, world_of service_one).
Proof.
  apply (@triggerNextAutoChatTurn_inactive env_silent (json_blank _) (json_blank _)
           (json_blank _) (json_blank _) (world_of service_one) "general").
  intros c Hc. vm_compute in Hc. injection Hc as <-. discriminate.
Defined.

Lemma triggerNextAutoChatTurn_paused_witness :
  observed (run_triggerNextAutoChatTurn env_silent "solo" (world_of service_solo)).2
    = [onSystemMessage (auto_paused_notice env_silent "solo" (world_of service_solo))].
Proof.
  unfold run_triggerNextAutoChatTurn.
  rewrite (@triggerNextAutoChatTurn_paused env_silent (json_blank _) (json_blank _)
             (json_blank _) (json_blank _) (world_of service_solo) "solo" solo_channel).
  - reflexivity.
  - reflexivity.
  - reflexivity.
  - vm_compute. lia.
Defined.

Lemma triggerNextAutoChatTurn_nothing_said_witness :
  run_triggerNextAutoChatTurn env_talkative "swarm" (world_of service_mute)
    = (Ok tt, world_of service_mute).
Proof.
  apply (@triggerNextAutoChatTurn_nothing_said env_talkative (json_blank _) (json_blank _)
           (json_blank _) (json_blank _) (world_of service_mute) "swarm" swarm_channel).
  - reflexivity.
  - reflexivity.
  - vm_compute. lia.
  - reflexivity.
Defined.

(** ** The history shown to the model *)

(** X19.  [formatChatHistoryForLLM]: messages of other channels play no part;
    with no message of the channel the text is the sentence about the
    beginning of the conversation; and once the channel has fifteen
    messages among the recent ones, whatever came before them plays no
    part either. *)
Theorem formatChatHistoryForLLM_window (older recent : list ChatMessageData.t)
    (currentChannelId : string) :
  formatChatHistoryForLLM recent currentChannelId
    = formatChatHistoryForLLM
        (filter (λ msg, ChatMessageData.channelId msg = currentChannelId) recent)
        currentChannelId ∧
  (filter (λ msg, ChatMessageData.channelId msg = currentChannelId) recent = [] →
   formatChatHistoryForLLM recent currentChannelId
     = "This is the beginning of the conversation in channel " +:+ currentChannelId +:+ ".") ∧
  ((15 ≤ length (filter (λ msg, ChatMessageData.channelId msg = currentChannelId) recent))%nat →
   formatChatHistoryForLLM (older ++ recent) currentChannelId
     = formatChatHistoryForLLM recent currentChannelId).
Proof.
  unfold formatChatHistoryForLLM. cbn zeta. split; [|split].
  - rewrite (filter_all _ (filter _ recent)); [done|].
    by intros msg [Hmsg _]%list_elem_of_filter.
  - by intros ->.
  - intros Hlong. rewrite filter_app, length_app.
    rewrite drop_app_ge by lia.
    replace (length (filter _ older) + length (filter _ recent) - 15 - length (filter _ older))%nat
      with (length (filter (λ msg, ChatMessageData.channelId msg = currentChannelId) recent) - 15)%nat
      by lia.
    done.
Qed.

Lemma formatChatHistoryForLLM_window_witness :
  formatChatHistoryForLLM (second_message :: replicate 15 hello_message) "general"
    = formatChatHistoryForLLM (replicate 15 hello_message) "general".
Proof.
  apply (proj2 (proj2 (formatChatHistoryForLLM_window [second_message]
                         (replicate 15 hello_message) "general"))).
  vm_compute. lia.
Defined.

(** ** What a batch shows and what it leaves alone *)

Lemma truthy_nonempty (s : string) : truthy s = true → s ≠ EmptyString.
Proof. unfold truthy. intros Hs ->. done. Qed.

Lemma pinned_key_pooled (minion : option MinionConfig.t) (keys : list ApiKey.t) (k : ApiKey.t) :
  pinned_key minion keys = Some k → k ∈ keys.
Proof.
  unfold pinned_key. destruct minion as [m|]; [|done].
  destruct (MinionConfig.apiKeyId m) as [pin|]; [|done].
  destruct (truthy pin); [|done]. intros Hfind. by apply find_key_Some in Hfind as [Hin _].
Qed.

Lemma identity_of_updated_minions (minionId : string) (plan : PerceptionPlan.t)
    (minions : list MinionConfig.t) :
  identity_of <$> updated_minions minionId plan minions = identity_of <$> minions.
Proof.
  unfold updated_minions. destruct (findIndex _ _) as [index|]; [|done].
  apply list_eq. intros i. rewrite !list_lookup_fmap.
  destruct (decide (i = index)) as [->|Hne].
  - rewrite list_lookup_alter_eq. by destruct (minions !! index).
  - by rewrite list_lookup_alter_ne.
Qed.

Lemma diary_updates_trans (S : string → PerceptionPlan.t → Prop)
    (ms1 ms2 ms3 : list MinionConfig.t) :
  diary_updates S ms1 ms2 → diary_updates S ms2 ms3 → diary_updates S ms1 ms3.
Proof. intros H12 H23. induction H23; [done|]. by constructor. Qed.

Lemma diary_updates_identity (S : string → PerceptionPlan.t → Prop)
    (ms ms' : list MinionConfig.t) :
  diary_updates S ms ms' → identity_of <$> ms' = identity_of <$> ms.
Proof. intros H. induction H; [done|]. by rewrite identity_of_updated_minions. Qed.

Section Keeping.
Context (env : Environment).
Context {json_minions : Json (list MinionConfig.t)}.
Context {json_channels : Json (list Channel.t)}.
Context {json_messages : Json (gmap string (list ChatMessageData.t))}.
Context {json_apiKeys : Json (list ApiKey.t)}.
Context (S : string → PerceptionPlan.t → Prop) (pool : list ApiKey.t) (channelId : string).

(** A step that leaves the minions as they are. *)
Lemma frame_minions (w w' : World) :
  channels (this w') = channels (this w) →
  apiKeys (this w') = apiKeys (this w) →
  minionConfigs (this w') = minionConfigs (this w) →
  (∀ c, c ≠ channelId → messages (this w') !! c = messages (this w) !! c) →
  frame S channelId w w'.
Proof.
  intros Hc Hk Hm Hh. split; [done|]. split; [done|]. split; [|done].
  rewrite Hm. constructor.
Qed.

Lemma frame_refl (w : World) : frame S channelId w w.
Proof. by apply frame_minions. Qed.

Lemma frame_trans (w1 w2 w3 : World) :
  frame S channelId w1 w2 → frame S channelId w2 w3 → frame S channelId w1 w3.
Proof.
  intros (Hc1 & Hk1 & Hm1 & Hh1) (Hc2 & Hk2 & Hm2 & Hh2).
  split; [congruence|]. split; [congruence|]. split; [by eapply diary_updates_trans|].
  intros c Hc. by rewrite Hh2, Hh1.
Qed.

Lemma frame_this (w w' : World) : this w' = this w → frame S channelId w w'.
Proof. intros Hthis. apply frame_minions; by rewrite Hthis. Qed.

Lemma batch_step_refl (w : World) : batch_step S channelId w w.
Proof. split; [apply frame_refl|reflexivity]. Qed.

Lemma batch_step_trans (w1 w2 w3 : World) :
  batch_step S channelId w1 w2 → batch_step S channelId w2 w3 → batch_step S channelId w1 w3.
Proof.
  intros [Hf1 Ht1] [Hf2 Ht2]. split; [by eapply frame_trans|].
  destruct Hf1 as (_ & Hkeys & _). rewrite Hkeys in Ht2. by etrans.
Qed.

(** A step that shows nothing. *)
Lemma batch_step_silent (w w' : World) :
  frame S channelId w w' → observed w' = observed w → batch_step S channelId w w'.
Proof. intros Hframe Hobs. split; [done|]. exists []. by rewrite app_nil_r. Qed.

Lemma batch_step_emit (w : World) (e : Event) :
  permitted (apiKeys (this w)) channelId e → batch_step S channelId w (record [e] w).
Proof. intros He. split; [by apply frame_this|]. exists [e]. split; [done|]. by constructor. Qed.

Lemma keeps_ret {A} (Q : A → Prop) (a : A) : Q a → keeps S pool channelId Q (mret a).
Proof. intros HQ w _. split; [apply batch_step_refl|]. by intros a' [= <-]. Qed.

Lemma keeps_bind {A B} (Q : A → Prop) (R : B → Prop) (m : M A) (f : A → M B) :
  keeps S pool channelId Q m → (∀ a, Q a → keeps S pool channelId R (f a)) →
  keeps S pool channelId R (m ≫= f).
Proof.
  intros Hm Hf w Hpool. rewrite bind_run. destruct (Hm w Hpool) as [Hstep Hret].
  destruct (m w) as [[a|e] w1]; cbn [fst snd] in *.
  - assert (apiKeys (this w1) = pool) as Hpool1.
    { destruct Hstep as [(_ & Hkeys & _) _]. congruence. }
    destruct (Hf a (Hret a eq_refl) w1 Hpool1) as [Hstep' Hret'].
    split; [by eapply batch_step_trans|done].
  - split; [done|]. by intros b [=].
Qed.

Lemma keeps_get_this {B} (R : B → Prop) (f : LegionApiService → M B) :
  (∀ s, keeps S pool channelId R (f s)) → keeps S pool channelId R (get_this ≫= f).
Proof. intros Hf w Hpool. rewrite bind_run. cbn [get_this]. by apply Hf. Qed.

Lemma keeps_now : keeps S pool channelId (λ _, True) (now env).
Proof. intros w _. split; [|done]. apply batch_step_silent; [by apply frame_this|done]. Qed.

Lemma keeps_next_request : keeps S pool channelId (λ _, True) next_request.
Proof. intros w _. split; [|done]. apply batch_step_silent; [by apply frame_this|done]. Qed.

Lemma keeps_emit (e : Event) :
  permitted pool channelId e → keeps S pool channelId (λ _, True) (emit e).
Proof. intros He w Hpool. split; [|done]. apply batch_step_emit. by rewrite Hpool. Qed.

Lemma keeps_forEach {A} (f : A → M unit) (xs : list A) :
  (∀ x, keeps S pool channelId (λ _, True) (f x)) →
  keeps S pool channelId (λ _, True) (forEach f xs).
Proof.
  intros Hf. induction xs as [|x xs IH]; cbn [forEach].
  - by apply keeps_ret.
  - eapply keeps_bind; [apply Hf|]. by intros _ _.
Qed.

Lemma keeps_mapM {A B} (f : A → M B) (xs : list A) :
  (∀ x, keeps S pool channelId (λ _, True) (f x)) →
  keeps S pool channelId (λ _, True) (mapM f xs).
Proof.
  intros Hf. induction xs as [|x xs IH]; cbn [mapM].
  - by apply keeps_ret.
  - eapply keeps_bind; [apply Hf|]. intros y _.
    eapply keeps_bind; [apply IH|]. intros ys _. by apply keeps_ret.
Qed.

Lemma keeps_foldM {A B} (Q : B → Prop) (f : B → A → M B) (b : B) (xs : list A) :
  Q b → (∀ b x, x ∈ xs → Q b → keeps S pool channelId Q (f b x)) →
  keeps S pool channelId Q (foldM f b xs).
Proof.
  revert b. induction xs as [|x xs IH]; intros b Hb Hf; cbn [foldM].
  - by apply keeps_ret.
  - eapply keeps_bind; [by apply Hf; [apply list_elem_of_here|]|].
    intros b' Hb'. apply IH; [done|]. intros b'' y Hy. apply Hf. by apply list_elem_of_further.
Qed.

(** A selection hands out the empty secret or a secret of the pool. *)
Lemma keeps_selectApiKey (minion : option MinionConfig.t) :
  keeps S pool channelId
    (λ keyInfo, truthy (SelectedKeyInfo.key keyInfo) = true →
                pooled pool (SelectedKeyInfo.key keyInfo))
    (_selectApiKey minion).
Proof.
  intros w Hpool. split.
  - destruct (selectApiKey_moves_cursor minion w) as [i ->].
    apply batch_step_silent; [by apply frame_minions|done].
  - intros keyInfo Hret Hkey. split; [by apply truthy_nonempty|].
    revert Hret. unfold _selectApiKey. run.
    destruct (pinned_key minion (apiKeys (this w))) as [k|] eqn:Hpin.
    + intros [= <-]. exists k. split; [|done].
      rewrite <- Hpool. by eapply pinned_key_pooled.
    + case_bool_decide.
      * destruct (apiKeys (this w) !! apiKeyRoundRobinIndex (this w)) as [k|] eqn:Hk; [|done].
        intros [= <-]. exists k. split; [|done].
        rewrite <- Hpool. by eapply list_elem_of_lookup_2.
      * intros [= <-]. done.
Qed.

Lemma keeps_createApiKeyLogMessage (minionName : string) (keyInfo : SelectedKeyInfo.t)
    (stage : string) :
  keeps S pool channelId (λ log, permitted pool channelId (onSystemMessage log))
    (_createApiKeyLogMessage env channelId minionName keyInfo stage).
Proof.
  unfold _createApiKeyLogMessage.
  eapply keeps_bind; [apply keeps_now|]. intros t1 _.
  eapply keeps_bind; [apply keeps_now|]. intros t2 _.
  by apply keeps_ret.
Qed.

Lemma keeps_system_notice (idPrefix content : string) (isError : option bool) :
  keeps S pool channelId (λ notice, permitted pool channelId (onSystemMessage notice))
    (system_notice env idPrefix channelId content isError).
Proof.
  unfold system_notice.
  eapply keeps_bind; [apply keeps_now|]. intros t1 _.
  eapply keeps_bind; [apply keeps_now|]. intros t2 _.
  by apply keeps_ret.
Qed.

Lemma keeps_updateMinionState (minionId : string) (plan : PerceptionPlan.t) :
  S minionId plan →
  keeps S pool channelId (λ _, True) (updateMinionState minionId plan).
Proof.
  intros HS w _. split; [|done]. rewrite updateMinionState_run. cbn [snd].
  apply batch_step_silent; [|done].
  split; [done|]. split; [done|]. split; [|done]. cbn. by repeat constructor.
Qed.

(** Any new history for the channel of the batch. *)
Lemma keeps_history (l : LegionApiService → list ChatMessageData.t) :
  keeps S pool channelId (λ _, True)
    (s ← get_this; set_this (with_messages (<[channelId := l s]> (messages s)) s)).
Proof.
  intros w _. split; [|done].
  change ((get_this ≫= _) w).2
    with (mkWorld (with_messages (<[channelId := l (this w)]> (messages (this w))) (this w))
            (localStorage w) (observed w) (clock w) (requests w)).
  apply batch_step_silent; [|done]. apply frame_minions; [done..|].
  intros c Hc. cbn [this messages with_messages]. by rewrite lookup_insert_ne.
Qed.

Lemma keeps_history_then {B} (R : B → Prop) (l : LegionApiService → list ChatMessageData.t)
    (k : LegionApiService → M B) :
  (∀ s, keeps S pool channelId R (k s)) →
  keeps S pool channelId R
    (s ← get_this;
     _ ← set_this (with_messages (<[channelId := l s]> (messages s)) s);
     k s).
Proof.
  intros Hk w Hpool.
  set (w1 := mkWorld (with_messages (<[channelId := l (this w)]> (messages (this w))) (this w))
               (localStorage w) (observed w) (clock w) (requests w)).
  assert (batch_step S channelId w w1) as Hstep by exact (proj1 (keeps_history l w Hpool)).
  change ((get_this ≫= _) w) with (k (this w) w1).
  destruct (Hk (this w) w1 Hpool) as [Hstep' Hret].
  split; [exact (batch_step_trans _ _ _ Hstep Hstep')|exact Hret].
Qed.

Lemma keeps_saveState : keeps S pool channelId (λ _, True) saveState.
Proof.
  intros w _. split; [|done]. rewrite saveState_saved. cbn [snd].
  apply batch_step_silent; [by apply frame_this|done].
Qed.

Lemma keeps_callGeminiApiForJson (minionName prompt model : string) (temperature : Qc)
    (apiKey : string) :
  (truthy apiKey = true → pooled pool apiKey) →
  keeps S pool channelId (λ _, True)
    (callGeminiApiForJson env minionName prompt model temperature apiKey).
Proof.
  intros Hkey. unfold callGeminiApiForJson. destruct (truthy apiKey); cbn [negb].
  - eapply keeps_bind; [apply keeps_next_request|]. intros n _.
    eapply keeps_bind; [apply keeps_emit; by apply Hkey|]. intros _ _. by apply keeps_ret.
  - by apply keeps_ret.
Qed.

Lemma keeps_callGeminiAPIStream (minionName prompt model : string) (temperature : Qc)
    (apiKey : string) :
  (truthy apiKey = true → pooled pool apiKey) →
  keeps S pool channelId (λ _, True)
    (callGeminiAPIStream env minionName prompt model temperature apiKey).
Proof.
  intros Hkey. unfold callGeminiAPIStream. destruct (truthy apiKey); cbn [negb].
  - eapply keeps_bind; [apply keeps_next_request|]. intros n _.
    eapply keeps_bind; [apply keeps_emit; by apply Hkey|]. intros _ _.
    destruct (generateContentStream _ _ _ _ _ _). by apply keeps_ret.
  - by apply keeps_ret.
Qed.

Lemma keeps_on_stream_callback (messageId : string) (minion : MinionConfig.t)
    (plan : PerceptionPlan.t) (accumulatedContent : string) (cb : StreamCallback) :
  S (MinionConfig.id minion) plan →
  keeps S pool channelId (λ _, True)
    (on_stream_callback env channelId messageId minion plan accumulatedContent cb).
Proof.
  intros HS. destruct cb as [chunk [|]|errorMessage]; cbn [on_stream_callback].
  - eapply keeps_bind; [apply keeps_now|]. intros t _.
    eapply keeps_bind; [by apply keeps_emit|]. intros _ _.
    eapply keeps_bind; [by apply keeps_updateMinionState|]. intros _ _.
    apply (keeps_history_then _
             (λ s, match findIndex (λ m, bool_decide (ChatMessageData.id m = messageId))
                           (messages_of s channelId) with
                   | Some msgIndex => <[msgIndex := _]> (messages_of s channelId)
                   | None => messages_of s channelId ++ [_]
                   end)).
    intros _. by apply keeps_ret.
  - eapply keeps_bind; [by apply keeps_emit|]. intros _ _. by apply keeps_ret.
  - eapply keeps_bind; [apply keeps_now|]. intros t _.
    eapply keeps_bind; [by apply keeps_emit|]. intros _ _.
    eapply keeps_bind; [|intros _ _; by apply keeps_ret].
    unfold replace_by_id. apply (keeps_history (λ s, _ <$> messages_of s channelId)).
Qed.

Lemma keeps_runStreamingResponse (messageId : string) (minion : MinionConfig.t)
    (plan : PerceptionPlan.t) (prompt : string) (keyInfo : SelectedKeyInfo.t) :
  S (MinionConfig.id minion) plan →
  (truthy (SelectedKeyInfo.key keyInfo) = true → pooled pool (SelectedKeyInfo.key keyInfo)) →
  keeps S pool channelId (λ _, True)
    (runStreamingResponse env channelId messageId minion plan prompt keyInfo).
Proof.
  intros HS Hkey. unfold runStreamingResponse.
  destruct (negb (truthy (SelectedKeyInfo.key keyInfo))).
  - eapply keeps_bind; [apply keeps_now|]. intros t _.
    eapply keeps_bind; [by apply keeps_emit|]. intros _ _.
    unfold replace_by_id. apply (keeps_history (λ s, _ <$> messages_of s channelId)).
  - eapply keeps_bind; [by apply keeps_callGeminiAPIStream|]. intros callbacks _.
    eapply keeps_bind; [|intros _ _; by apply keeps_ret].
    apply (keeps_foldM (λ _, True)); [done|]. intros acc cb _ _.
    by apply keeps_on_stream_callback.
Qed.

Lemma keeps_handleUserMessage_perception (initialChatHistory : string)
    (userMessage : ChatMessageData.t) (activeChannel : Channel.t) (minion : MinionConfig.t) :
  keeps S pool channelId (λ _, True)
    (handleUserMessage_perception env channelId initialChatHistory userMessage activeChannel
       minion).
Proof.
  unfold handleUserMessage_perception.
  eapply keeps_bind; [apply keeps_selectApiKey|]. intros keyInfo Hkey.
  eapply keeps_bind; [apply keeps_createApiKeyLogMessage|]. intros log Hlog.
  eapply keeps_bind; [by apply keeps_emit|]. intros _ _.
  destruct (negb (truthy _)); [by apply keeps_ret|].
  eapply keeps_bind; [by apply keeps_callGeminiApiForJson|]. intros reply _. by apply keeps_ret.
Qed.

Lemma keeps_triggerNextAutoChatTurn_perception (chatHistory : string)
    (lastMessage : ChatMessageData.t) (activeChannel : Channel.t) (minion : MinionConfig.t) :
  keeps S pool channelId (λ _, True)
    (triggerNextAutoChatTurn_perception env channelId chatHistory lastMessage activeChannel
       minion).
Proof.
  unfold triggerNextAutoChatTurn_perception. case_bool_decide; [by apply keeps_ret|].
  eapply keeps_bind; [apply keeps_selectApiKey|]. intros keyInfo Hkey.
  eapply keeps_bind; [apply keeps_createApiKeyLogMessage|]. intros log Hlog.
  eapply keeps_bind; [by apply keeps_emit|]. intros _ _.
  destruct (negb (truthy _)); [by apply keeps_ret|].
  eapply keeps_bind; [by apply keeps_callGeminiApiForJson|]. intros reply _. by apply keeps_ret.
Qed.

(** The speakers gathered so far all have plans within [S]. *)
Lemma keeps_handleUserMessage_outcome
    (minionsWhoWillSpeak : list (MinionConfig.t * PerceptionPlan.t))
    (r : PerceptionOutcome.t) :
  (∀ plan, usable_plan r = Some plan → S (MinionConfig.id (PerceptionOutcome.minion r)) plan) →
  Forall (λ speaker, S (MinionConfig.id speaker.1) speaker.2) minionsWhoWillSpeak →
  keeps S pool channelId (Forall (λ speaker, S (MinionConfig.id speaker.1) speaker.2))
    (handleUserMessage_outcome env channelId minionsWhoWillSpeak r).
Proof.
  intros HS Hspeakers. unfold handleUserMessage_outcome.
  destruct (usable_plan r) as [plan|].
  - eapply keeps_bind; [by apply keeps_updateMinionState, HS|]. intros _ _.
    destruct (PerceptionPlan.action plan).
    + apply keeps_ret. apply Forall_app. split; [done|]. constructor; [by apply HS|done].
    + eapply keeps_bind; [apply keeps_system_notice|]. intros notice Hnotice.
      eapply keeps_bind; [by apply keeps_emit|]. intros _ _. by apply keeps_ret.
  - eapply keeps_bind; [apply keeps_system_notice|]. intros notice Hnotice.
    eapply keeps_bind; [by apply keeps_emit|]. intros _ _. by apply keeps_ret.
Qed.

Lemma keeps_handleUserMessage_speaker (dynamicChatHistory : string)
    (speaker : MinionConfig.t * PerceptionPlan.t) :
  S (MinionConfig.id speaker.1) speaker.2 →
  keeps S pool channelId (λ _, True)
    (handleUserMessage_speaker env channelId dynamicChatHistory speaker).
Proof.
  destruct speaker as [minion plan]. intros HS. unfold handleUserMessage_speaker.
  eapply keeps_bind; [apply keeps_now|]. intros t1 _.
  eapply keeps_bind; [apply keeps_now|]. intros t2 _.
  eapply keeps_bind; [by apply keeps_emit|]. intros _ _.
  eapply keeps_bind; [apply keeps_selectApiKey|]. intros keyInfo Hkey.
  eapply keeps_bind; [apply keeps_createApiKeyLogMessage|]. intros log Hlog.
  eapply keeps_bind; [by apply keeps_emit|]. intros _ _.
  eapply keeps_bind; [by apply keeps_runStreamingResponse|]. intros _ _.
  apply keeps_get_this. intros s.
  eapply keeps_bind; [by apply keeps_emit|]. intros _ _. by apply keeps_ret.
Qed.

Lemma keeps_handleUserMessage_schedule (initialChatHistory : string)
    (minionsInChannel : list MinionConfig.t) (perceptionResults : list PerceptionOutcome.t) :
  (∀ minionId plan, plan_of_outcome perceptionResults minionId plan → S minionId plan) →
  keeps S pool channelId (λ _, True)
    (handleUserMessage_schedule env channelId initialChatHistory minionsInChannel
       perceptionResults).
Proof.
  intros HS. unfold handleUserMessage_schedule.
  eapply keeps_bind.
  { apply (keeps_foldM (Forall (λ speaker, S (MinionConfig.id speaker.1) speaker.2)));
      [done|].
    intros speakers r Hr Hspeakers. apply keeps_handleUserMessage_outcome; [|done].
    intros plan Hplan. apply HS. by exists r. }
  intros minionsWhoWillSpeak Hspeakers.
  eapply keeps_bind.
  { apply keeps_forEach. intros m. destruct (existsb _ _); [by apply keeps_ret|].
    by apply keeps_emit. }
  intros _ _.
  eapply keeps_bind; [|intros _ _; apply keeps_saveState].
  apply (keeps_foldM (λ _, True)); [done|]. intros dynamicChatHistory speaker Hspeaker _.
  apply keeps_handleUserMessage_speaker.
  rewrite Forall_forall in Hspeakers. apply Hspeakers.
  by rewrite <- (Array_sort_Permutation by_predictedResponseTime).
Qed.

Lemma keeps_handleUserMessage (userMessage : ChatMessageData.t) :
  (∀ minionId plan, S minionId plan) →
  keeps S pool channelId (λ _, True) (handleUserMessage env channelId userMessage).
Proof.
  intros HS. unfold handleUserMessage.
  apply (keeps_history_then _ (λ s, messages_of s channelId ++ [userMessage])).
  intros _. apply keeps_get_this. intros s.
  destruct (List.find _ _) as [activeChannel|]; [|by apply keeps_ret].
  case_bool_decide; [by apply keeps_ret|].
  eapply keeps_bind.
  { unfold handleUserMessage_perceive.
    eapply keeps_bind; [apply keeps_forEach; intros m; by apply keeps_emit|]. intros _ _.
    apply keeps_mapM. intros m. apply keeps_handleUserMessage_perception. }
  intros perceptionResults _. apply keeps_handleUserMessage_schedule. intros; apply HS.
Qed.

Lemma keeps_triggerNextAutoChatTurn :
  (∀ minionId plan, S minionId plan) →
  keeps S pool channelId (λ _, True) (triggerNextAutoChatTurn env channelId).
Proof.
  intros HS. unfold triggerNextAutoChatTurn. apply keeps_get_this. intros s.
  destruct (List.find _ _) as [activeChannel|]; [|by apply keeps_ret].
  destruct (negb _); [by apply keeps_ret|].
  case_bool_decide.
  { eapply keeps_bind; [apply keeps_system_notice|]. intros notice Hnotice.
    by apply keeps_emit. }
  destruct (last _) as [lastMessage|]; [|by apply keeps_ret].
  eapply keeps_bind.
  { unfold triggerNextAutoChatTurn_perceive.
    eapply keeps_bind; [apply keeps_forEach; intros m; by apply keeps_emit|]. intros _ _.
    apply keeps_mapM. intros m. apply keeps_triggerNextAutoChatTurn_perception. }
  intros results _. unfold triggerNextAutoChatTurn_schedule.
  eapply keeps_bind; [apply keeps_forEach; intros m; by apply keeps_emit|]. intros _ _.
  destruct (head _) as [[minion plan]|].
  - eapply keeps_bind; [by apply keeps_emit|]. intros _ _.
    eapply keeps_bind; [apply keeps_now|]. intros t1 _.
    eapply keeps_bind; [apply keeps_now|]. intros t2 _.
    eapply keeps_bind; [by apply keeps_emit|]. intros _ _.
    eapply keeps_bind; [apply keeps_selectApiKey|]. intros keyInfo Hkey.
    eapply keeps_bind; [apply keeps_createApiKeyLogMessage|]. intros log Hlog.
    eapply keeps_bind; [by apply keeps_emit|]. intros _ _.
    eapply keeps_bind; [by apply keeps_runStreamingResponse|]. intros _ _.
    eapply keeps_bind; [by apply keeps_emit|]. intros _ _. apply keeps_saveState.
  - eapply keeps_bind; [apply keeps_system_notice|]. intros notice Hnotice.
    eapply keeps_bind; [by apply keeps_emit|]. intros _ _. apply keeps_saveState.
Qed.

End Keeping.

Section Confinement.
Context (env : Environment).
Context {json_minions : Json (list MinionConfig.t)}.
Context {json_channels : Json (list Channel.t)}.
Context {json_messages : Json (gmap string (list ChatMessageData.t))}.
Context {json_apiKeys : Json (list ApiKey.t)}.

(** X20.  [handleUserMessage], whether it returns or throws: every request it
    has made to the model carries a secret of the pool that is not
    empty; every message and chunk it has handed to a callback is
    addressed to the channel of the batch; and the channels, the pool,
    the ids, names, models, personas, temperatures and pins of the
    minions, and the histories of all other channels are as before. *)
Theorem handleUserMessage_confined (w : World) (channelId : string)
    (userMessage : ChatMessageData.t) :
  let w' := (handleUserMessage env channelId userMessage w).2 in
  (∃ events, observed w' = observed w ++ events ∧
             Forall (permitted (apiKeys (this w)) channelId) events) ∧
  channels (this w') = channels (this w) ∧
  apiKeys (this w') = apiKeys (this w) ∧
  identity_of <$> minionConfigs (this w') = identity_of <$> minionConfigs (this w) ∧
  (∀ c, c ≠ channelId → messages_of (this w') c = messages_of (this w) c).
Proof.
  destruct (keeps_handleUserMessage env (λ _ _, True) (apiKeys (this w)) channelId userMessage
              ltac:(done) w eq_refl)
    as [[(Hchannels & Hkeys & Hminions & Hothers) Htrace] _].
  cbn zeta. split; [exact Htrace|]. do 2 (split; [done|]).
  split; [by eapply diary_updates_identity|].
  intros c Hc. unfold messages_of. by rewrite Hothers.
Qed.

(** X21.  [triggerNextAutoChatTurn], whether it returns or throws: the same
    confinement as for the batch of the commander. *)
Theorem triggerNextAutoChatTurn_confined (w : World) (channelId : string) :
  let w' := (triggerNextAutoChatTurn env channelId w).2 in
  (∃ events, observed w' = observed w ++ events ∧
             Forall (permitted (apiKeys (this w)) channelId) events) ∧
  channels (this w') = channels (this w) ∧
  apiKeys (this w') = apiKeys (this w) ∧
  identity_of <$> minionConfigs (this w') = identity_of <$> minionConfigs (this w) ∧
  (∀ c, c ≠ channelId → messages_of (this w') c = messages_of (this w) c).
Proof.
  destruct (keeps_triggerNextAutoChatTurn env (λ _ _, True) (apiKeys (this w)) channelId
              ltac:(done) w eq_refl)
    as [[(Hchannels & Hkeys & Hminions & Hothers) Htrace] _].
  cbn zeta. split; [exact Htrace|]. do 2 (split; [done|]).
  split; [by eapply diary_updates_identity|].
  intros c Hc. unfold messages_of. by rewrite Hothers.
Qed.

End Confinement.

(** ** The plans a batch of the commander stores *)

Lemma find_findIndex {A} (p : A → bool) (xs : list A) :
  List.find p xs = findIndex p xs ≫= (xs !!.).
Proof.
  induction xs as [|x xs IH]; cbn [List.find findIndex]; [done|].
  destruct (p x); [done|]. rewrite IH. by destruct (findIndex p xs).
Qed.

Lemma findIndex_alter {A} (p : A → bool) (f : A → A) (i : nat) (xs : list A) :
  (∀ x, p (f x) = p x) → findIndex p (alter f i xs) = findIndex p xs.
Proof.
  intros Hf. revert i. induction xs as [|x xs IH]; intros i; [done|].
  destruct i as [|i]; cbn.
  - by rewrite Hf.
  - by rewrite IH.
Qed.

Lemma findIndex_updated_minions (minionId other : string) (plan : PerceptionPlan.t)
    (minions : list MinionConfig.t) :
  findIndex (λ m, bool_decide (MinionConfig.id m = minionId)) (updated_minions other plan minions)
  = findIndex (λ m, bool_decide (MinionConfig.id m = minionId)) minions.
Proof.
  unfold updated_minions.
  destruct (findIndex (λ m, bool_decide (MinionConfig.id m = other)) minions) as [i|];
    [|done].
  by apply findIndex_alter.
Qed.

Lemma updated_minions_stores (minionId : string) (plan : PerceptionPlan.t)
    (minions : list MinionConfig.t) (m : MinionConfig.t) :
  m ∈ minions → MinionConfig.id m = minionId →
  diary_stored minionId plan (updated_minions minionId plan minions).
Proof.
  intros Hin Hid. unfold diary_stored.
  rewrite find_findIndex, findIndex_updated_minions. unfold updated_minions.
  destruct (findIndex_is_Some (λ m, bool_decide (MinionConfig.id m = minionId)) minions m Hin)
    as [i Hi]; [by apply bool_decide_eq_true|].
  rewrite Hi. destruct (findIndex_Some _ _ _ Hi) as (x & Hx & _).
  cbn. rewrite list_lookup_alter_eq, Hx. cbn. by eexists.
Qed.

Lemma updated_minions_keeps (minionId other : string) (plan plan' : PerceptionPlan.t)
    (minions : list MinionConfig.t) :
  (other = minionId → plan' = plan) →
  diary_stored minionId plan minions →
  diary_stored minionId plan (updated_minions other plan' minions).
Proof.
  intros Hsame (m & Hfind & Hdiary & Hscores). unfold diary_stored.
  rewrite find_findIndex in Hfind. rewrite find_findIndex, findIndex_updated_minions.
  destruct (findIndex _ minions) as [j|] eqn:Hj; [|done]. cbn in Hfind |- *.
  destruct (findIndex_Some _ _ _ Hj) as (x & Hx & Hxid & _).
  apply bool_decide_eq_true in Hxid. assert (x = m) as -> by congruence.
  unfold updated_minions.
  destruct (findIndex (λ m, bool_decide (MinionConfig.id m = other)) minions) as [i|] eqn:Hi.
  - destruct (findIndex_Some _ _ _ Hi) as (y & Hy & Hyid & _).
    apply bool_decide_eq_true in Hyid.
    destruct (decide (j = i)) as [->|Hne].
    + assert (y = m) as -> by congruence.
      rewrite list_lookup_alter_eq, Hx. cbn. eexists. split; [done|].
      rewrite Hsame by congruence. done.
    + rewrite list_lookup_alter_ne by done. by exists m.
  - by exists m.
Qed.

Lemma diary_updates_keeps (S : string → PerceptionPlan.t → Prop) (minionId : string)
    (plan : PerceptionPlan.t) (ms ms' : list MinionConfig.t) :
  (∀ plan', S minionId plan' → plan' = plan) →
  diary_updates S ms ms' → diary_stored minionId plan ms → diary_stored minionId plan ms'.
Proof.
  intros Hsame Hupdates Hstored. induction Hupdates as [|ms' other plan' _ IH HS]; [done|].
  apply updated_minions_keeps; [|done]. intros ->. by apply Hsame.
Qed.

Lemma diary_updates_findIndex (S : string → PerceptionPlan.t → Prop) (minionId : string)
    (ms ms' : list MinionConfig.t) :
  diary_updates S ms ms' →
  findIndex (λ m, bool_decide (MinionConfig.id m = minionId)) ms'
  = findIndex (λ m, bool_decide (MinionConfig.id m = minionId)) ms.
Proof. intros H. induction H; [done|]. by rewrite findIndex_updated_minions. Qed.

Section Plans.
Context (env : Environment).
Context {json_minions : Json (list MinionConfig.t)}.
Context {json_channels : Json (list Channel.t)}.
Context {json_messages : Json (gmap string (list ChatMessageData.t))}.
Context {json_apiKeys : Json (list ApiKey.t)}.

(** One outcome of the loop: it returns, and the minions are those
    after the update with its plan when it has a usable one. *)
Lemma handleUserMessage_outcome_minions (channelId : string)
    (speakers : list (MinionConfig.t * PerceptionPlan.t)) (r : PerceptionOutcome.t)
    (w : World) :
  ∃ speakers' w',
    handleUserMessage_outcome env channelId speakers r w = (Ok speakers', w') ∧
    minionConfigs (this w')
      = match usable_plan r with
        | Some plan =>
          updated_minions (MinionConfig.id (PerceptionOutcome.minion r)) plan
            (minionConfigs (this w))
        | None => minionConfigs (this w)
        end.
Proof.
  unfold handleUserMessage_outcome. destruct (usable_plan r) as [plan|].
  - rewrite bind_run, updateMinionState_run.
    destruct (PerceptionPlan.action plan); by eexists _, _.
  - by eexists _, _.
Qed.

Lemma keeps_outcomes (S : string → PerceptionPlan.t → Prop) (pool : list ApiKey.t)
    (channelId : string) (results : list PerceptionOutcome.t)
    (speakers : list (MinionConfig.t * PerceptionPlan.t)) :
  (∀ r, r ∈ results → ∀ plan, usable_plan r = Some plan →
        S (MinionConfig.id (PerceptionOutcome.minion r)) plan) →
  keeps S pool channelId (λ _, True)
    (foldM (handleUserMessage_outcome env channelId) speakers results).
Proof.
  intros HS. apply (keeps_foldM S pool channelId (λ _, True)); [done|].
  intros acc r Hr _. unfold handleUserMessage_outcome.
  destruct (usable_plan r) as [plan|] eqn:Hplan.
  - eapply (keeps_bind _ _ _ (λ _, True)); [by apply keeps_updateMinionState, HS|].
    intros _ _. destruct (PerceptionPlan.action plan); [by apply keeps_ret|].
    eapply keeps_bind; [apply keeps_system_notice|]. intros notice Hnotice.
    eapply keeps_bind; [by apply keeps_emit|]. intros _ _. by apply keeps_ret.
  - eapply keeps_bind; [apply keeps_system_notice|]. intros notice Hnotice.
    eapply keeps_bind; [by apply keeps_emit|]. intros _ _. by apply keeps_ret.
Qed.

(** The loop over the outcomes: once it has run, the plan of every
    outcome that has a usable one is stored with the minion of that
    outcome, provided no two outcomes are for the same minion id. *)
Lemma outcomes_store (channelId : string) (results : list PerceptionOutcome.t)
    (speakers : list (MinionConfig.t * PerceptionPlan.t)) (w : World)
    (r : PerceptionOutcome.t) (plan : PerceptionPlan.t) (m : MinionConfig.t) :
  NoDup ((λ r, MinionConfig.id (PerceptionOutcome.minion r)) <$> results) →
  r ∈ results → usable_plan r = Some plan →
  m ∈ minionConfigs (this w) →
  MinionConfig.id m = MinionConfig.id (PerceptionOutcome.minion r) →
  diary_stored (MinionConfig.id (PerceptionOutcome.minion r)) plan
    (minionConfigs (this (foldM (handleUserMessage_outcome env channelId) speakers results w).2)).
Proof.
  revert speakers w m.
  induction results as [|r0 results IH]; intros speakers w m Hnodup Hr Hplan Hm Hid.
  { by apply elem_of_nil in Hr. }
  cbn [foldM]. rewrite bind_run.
  destruct (handleUserMessage_outcome_minions channelId speakers r0 w)
    as (speakers' & w1 & Hrun & Hminions).
  rewrite Hrun. rewrite fmap_cons in Hnodup. apply NoDup_cons in Hnodup as [Hfresh Hnodup].
  apply elem_of_cons in Hr as [<-|Hr].
  - rewrite Hplan in Hminions.
    assert (diary_stored (MinionConfig.id (PerceptionOutcome.minion r)) plan
              (minionConfigs (this w1))) as Hstored.
    { rewrite Hminions. by eapply updated_minions_stores. }
    set (S := λ (minionId : string) (_ : PerceptionPlan.t),
                minionId ≠ MinionConfig.id (PerceptionOutcome.minion r)).
    assert (keeps S (apiKeys (this w1)) channelId (λ _, True)
              (foldM (handleUserMessage_outcome env channelId) speakers' results)) as Hrest.
    { apply keeps_outcomes. intros r' Hr' plan' _ Heq. apply Hfresh. rewrite <- Heq.
      apply list_elem_of_fmap. by exists r'. }
    destruct (Hrest w1 eq_refl) as [[(_ & _ & Hupdates & _) _] _].
    eapply diary_updates_keeps; [|exact Hupdates|exact Hstored].
    intros plan' Hne. by destruct Hne.
  - assert (∃ m1, m1 ∈ minionConfigs (this w1) ∧
                  MinionConfig.id m1 = MinionConfig.id (PerceptionOutcome.minion r))
      as (m1 & Hm1 & Hid1).
    { assert (is_Some (findIndex (λ x, bool_decide
                (MinionConfig.id x = MinionConfig.id (PerceptionOutcome.minion r)))
                (minionConfigs (this w1)))) as [i Hi].
      { rewrite Hminions. destruct (usable_plan r0).
        - rewrite findIndex_updated_minions.
          eapply findIndex_is_Some; [exact Hm|]. by apply bool_decide_eq_true.
        - eapply findIndex_is_Some; [exact Hm|]. by apply bool_decide_eq_true. }
      destruct (findIndex_Some _ _ _ Hi) as (x & Hx & Hxid & _).
      exists x. split; [by eapply list_elem_of_lookup_2|]. by apply bool_decide_eq_true in Hxid. }
    by eapply IH.
Qed.

(** What the batch does once the speakers are known (lines 267-292). *)
Lemma keeps_speakers (S : string → PerceptionPlan.t → Prop) (pool : list ApiKey.t)
    (channelId initialChatHistory : string) (minionsInChannel : list MinionConfig.t)
    (minionsWhoWillSpeak : list (MinionConfig.t * PerceptionPlan.t)) :
  Forall (λ speaker, S (MinionConfig.id speaker.1) speaker.2) minionsWhoWillSpeak →
  keeps S pool channelId (λ _, True)
    (_ ← forEach (λ m,
            if existsb (λ speaker : MinionConfig.t * PerceptionPlan.t,
                          bool_decide (MinionConfig.id speaker.1 = MinionConfig.id m))
                       minionsWhoWillSpeak
            then mret tt
            else emit (onMinionProcessingUpdate (MinionConfig.name m) false))
          minionsInChannel;
     _ ← foldM (handleUserMessage_speaker env channelId) initialChatHistory
           (Array_sort by_predictedResponseTime minionsWhoWillSpeak);
     saveState).
Proof.
  intros Hspeakers.
  eapply keeps_bind.
  { apply keeps_forEach. intros m. destruct (existsb _ _); [by apply keeps_ret|].
    by apply keeps_emit. }
  intros _ _.
  eapply keeps_bind; [|intros _ _; apply keeps_saveState].
  apply (keeps_foldM S pool channelId (λ _, True)); [done|].
  intros dynamicChatHistory speaker Hspeaker _.
  apply keeps_handleUserMessage_speaker.
  rewrite Forall_forall in Hspeakers. apply Hspeakers.
  by rewrite <- (Array_sort_Permutation by_predictedResponseTime).
Qed.

Lemma speaking_usable_plans (results : list PerceptionOutcome.t) :
  Forall (λ speaker, plan_of_outcome results (MinionConfig.id speaker.1) speaker.2)
         (speaking_usable results).
Proof.
  apply Forall_forall. intros [minion plan] Hin.
  apply list_elem_of_omap in Hin as (r & Hr & Hsome).
  exists r. split; [done|].
  destruct (usable_plan r) as [p|]; [|done].
  destruct (PerceptionPlan.action p); [|done]. by injection Hsome as <- <-.
Qed.

(** X22.  What [handleUserMessage] does with the settled perceptions, whether
    it then returns or throws: if no two outcomes are for the same
    minion id, the plan of every outcome that has a usable one is the
    diary of the stored minion with that id afterwards, and its final
    opinions are that minion's opinions. *)
Theorem handleUserMessage_schedule_stores_plans (w : World)
    (channelId initialChatHistory : string) (minionsInChannel : list MinionConfig.t)
    (perceptionResults : list PerceptionOutcome.t) (r : PerceptionOutcome.t)
    (plan : PerceptionPlan.t) (m : MinionConfig.t) :
  NoDup ((λ r, MinionConfig.id (PerceptionOutcome.minion r)) <$> perceptionResults) →
  r ∈ perceptionResults →
  usable_plan r = Some plan →
  m ∈ minionConfigs (this w) →
  MinionConfig.id m = MinionConfig.id (PerceptionOutcome.minion r) →
  diary_stored (MinionConfig.id (PerceptionOutcome.minion r)) plan
    (minionConfigs
       (this (handleUserMessage_schedule env channelId initialChatHistory minionsInChannel
                perceptionResults w).2)).
Proof.
  intros Hnodup Hr Hplan Hm Hid.
  pose proof (outcomes_store channelId perceptionResults [] w r plan m Hnodup Hr Hplan Hm Hid)
    as Hstored.
  unfold handleUserMessage_schedule. rewrite bind_run.
  destruct (outcomes_run env channelId perceptionResults [] w) as (w1 & Hrun & _).
  rewrite Hrun in Hstored |- *. cbn [snd app] in Hstored |- *.
  destruct (keeps_speakers (plan_of_outcome perceptionResults) (apiKeys (this w1)) channelId
              initialChatHistory minionsInChannel (speaking_usable perceptionResults)
              (speaking_usable_plans perceptionResults) w1 eq_refl)
    as [[(_ & _ & Hupdates & _) _] _].
  eapply diary_updates_keeps; [|exact Hupdates|exact Hstored].
  intros plan' (r' & Hr' & Hplan' & Hid').
  assert (r' = r) as ->; [|congruence].
  apply list_elem_of_lookup in Hr as [i Hi]. apply list_elem_of_lookup in Hr' as [j Hj].
  assert (i = j) as ->; [|congruence].
  eapply NoDup_lookup; [exact Hnodup| |].
  - by rewrite list_lookup_fmap, Hi.
  - rewrite list_lookup_fmap, Hj. cbn. by rewrite Hid'.
Qed.

End Plans.

Lemma handleUserMessage_schedule_stores_plans_witness :
  diary_stored "id-Bravo" silent_plan
    (minionConfigs
       (this (run_handleUserMessage_schedule env_talkative "general" "history"
                [minion_named "Alpha" None; minion_named "Bravo" None] pair_results
                (world_of service_pair)).2)).
Proof.
  apply (@handleUserMessage_schedule_stores_plans env_talkative (json_blank _) (json_blank _)
           (json_blank _) (json_blank _) (world_of service_pair) "general" "history"
           [minion_named "Alpha" None; minion_named "Bravo" None] pair_results
           (PerceptionOutcome.mk (minion_named "Bravo" None) (Some silent_plan) None)
           silent_plan (minion_named "Bravo" None)).
  - apply NoDup_cons. split; [|apply NoDup_singleton].
    intros Hin%list_elem_of_singleton. discriminate.
  - apply list_elem_of_further, list_elem_of_here.
  - reflexivity.
  - apply list_elem_of_further, list_elem_of_here.
  - reflexivity.
Defined.

(** ** The single speaker of an autonomous batch *)

Lemma head_sorted_fastest (speakers : list (MinionConfig.t * PerceptionPlan.t))
    (first : MinionConfig.t * PerceptionPlan.t) :
  head (Array_sort by_predictedResponseTime speakers) = Some first →
  first ∈ speakers ∧ ∀ other, other ∈ speakers → no_slower first other.
Proof.
  intros Hhead. pose proof (Array_sort_sorted speakers) as Hsorted.
  pose proof (Array_sort_Permutation by_predictedResponseTime speakers) as Hperm.
  destruct (Array_sort by_predictedResponseTime speakers) as [|x sorted]; [done|].
  injection Hhead as ->. split.
  - rewrite <- Hperm. apply list_elem_of_here.
  - intros other Hother. rewrite <- Hperm in Hother.
    apply StronglySorted_inv in Hsorted as [_ Hfirst].
    apply elem_of_cons in Hother as [->|Hother].
    + unfold no_slower. lia.
    + rewrite Forall_forall in Hfirst. by apply Hfirst.
Qed.

Lemma head_sorted_none {A} (compareFn : A → A → Z) (xs : list A) :
  head (Array_sort compareFn xs) = None → xs = [].
Proof.
  intros Hhead. apply Permutation_nil. rewrite <- (Array_sort_Permutation compareFn xs).
  by destruct (Array_sort compareFn xs).
Qed.

Section Fastest.
Context (env : Environment).
Context {json_minions : Json (list MinionConfig.t)}.
Context {json_channels : Json (list Channel.t)}.
Context {json_messages : Json (gmap string (list ChatMessageData.t))}.
Context {json_apiKeys : Json (list ApiKey.t)}.

(** X23.  What [triggerNextAutoChatTurn] does with the settled perceptions,
    whether it then returns or throws.  When no outcome carries a plan
    to speak, no message is handed to [onMinionResponse] and the
    histories are as before.  Otherwise exactly one minion takes the
    turn: one whose plan is to speak and whose predicted response time
    no other such plan undercuts.  Its placeholder is the first message
    handed to [onMinionResponse]; at most one more follows, under the
    same id and name; and the only plan a delivered message can carry
    is the plan of that minion.  The other minions that planned to
    speak are passed over. *)
Theorem triggerNextAutoChatTurn_schedule_fastest (w : World) (channelId chatHistory : string)
    (minionsInChannel : list MinionConfig.t) (results : list PerceptionOutcome.t) :
  let w' := (triggerNextAutoChatTurn_schedule env channelId chatHistory minionsInChannel
               results w).2 in
  ∃ events,
    observed w' = observed w ++ events ∧
    (speaking results = [] →
     delivered events = [] ∧ messages (this w') = messages (this w)) ∧
    (speaking results ≠ [] →
     ∃ minion plan placeholder,
       (minion, plan) ∈ speaking results ∧
       (∀ other, other ∈ speaking results → no_slower (minion, plan) other) ∧
       head (delivered events) = Some placeholder ∧
       ChatMessageData.isProcessing placeholder = Some true ∧
       (length (delivered events) ≤ 2)%nat ∧
       Forall (λ m, ChatMessageData.id m = ChatMessageData.id placeholder ∧
                    ChatMessageData.senderName m = MinionConfig.name minion)
              (delivered events) ∧
       finalized_plans events `sublist_of` [plan]).
Proof.
  cbn zeta. unfold triggerNextAutoChatTurn_schedule. rewrite bind_run, forEach_emit.
  set (updates := (λ m, onMinionProcessingUpdate (MinionConfig.name m) false)
                    <$> minionsInChannel).
  assert (delivered updates = []) as Hupdates.
  { apply delivered_undelivered, Forall_fmap, Forall_true. by intros m. }
  destruct (head (Array_sort by_predictedResponseTime (speaking results)))
    as [[minion plan]|] eqn:Hhead.
  - destruct (head_sorted_fastest _ _ Hhead) as [Hin Hfastest].
    mrun.
    set (tempMessageId := "ai-" +:+ MinionConfig.id minion +:+ "-" +:+ pretty _).
    set (p := ChatMessageData.mk tempMessageId _ _ _ _ _ _ _ _ _ _).
    set (wa := mkWorld _ _ _ _ _).
    destruct (selectApiKey_moves_cursor (Some minion) wa) as [i Hmoved].
    destruct (_selectApiKey (Some minion) wa) as [[keyInfo|e] wb]; cbn [fst snd] in *; subst wb.
    + unfold _createApiKeyLogMessage. mrun.
      match goal with
      | |- context [runStreamingResponse _ _ _ _ _ ?prompt _ ?w0] =>
        set (wc := w0);
        destruct (runStreamingResponse_spec env channelId tempMessageId minion plan prompt
                    keyInfo wc)
          as (m & streamed & wd & Hrun & Hobs & Hdelivered & Hid & Hproc & Hname & _ & Hcases)
      end.
      rewrite Hrun. cbn beta iota. rewrite saveState_saved.
      set (log := onSystemMessage _) in wc.
      exists (updates ++ [onMinionProcessingUpdate (MinionConfig.name minion) true;
                          onMinionResponse p; log] ++ streamed ++
              [onMinionProcessingUpdate (MinionConfig.name minion) false]).
      split.
      { cbn [snd saved observed]. rewrite Hobs. subst wc wa.
        cbn [observed set_cursor record]. by rewrite <- !app_assoc. }
      assert (delivered (updates ++ [onMinionProcessingUpdate (MinionConfig.name minion) true;
                                     onMinionResponse p; log] ++ streamed ++
                         [onMinionProcessingUpdate (MinionConfig.name minion) false])
              = [p; m]) as Hall.
      { rewrite !delivered_app, Hupdates, Hdelivered. reflexivity. }
      split.
      { intros Hnone. rewrite Hnone in Hin. by apply elem_of_nil in Hin. }
      intros _. exists minion, plan, p. rewrite Hall.
      do 2 (split; [done|]). split; [done|]. split; [done|]. split; [cbn; lia|].
      split; [by repeat constructor|].
      unfold finalized_plans. rewrite Hall. cbn.
      destruct Hcases as [(_ & _ & -> & _)|(_ & -> & _)]; cbn; [done|].
      apply sublist_nil_l.
    + exists (updates ++ [onMinionProcessingUpdate (MinionConfig.name minion) true;
                          onMinionResponse p]).
      split.
      { subst wa. cbn [snd observed set_cursor record]. by rewrite <- !app_assoc. }
      assert (delivered (updates ++ [onMinionProcessingUpdate (MinionConfig.name minion) true;
                                     onMinionResponse p]) = [p]) as Hall.
      { rewrite !delivered_app, Hupdates. reflexivity. }
      split.
      { intros Hnone. rewrite Hnone in Hin. by apply elem_of_nil in Hin. }
      intros _. exists minion, plan, p. rewrite Hall.
      do 2 (split; [done|]). split; [done|]. split; [done|]. split; [cbn; lia|].
      split; [by repeat constructor|].
      unfold finalized_plans. rewrite Hall. cbn. apply sublist_nil_l.
  - apply head_sorted_none in Hhead.
    rewrite bind_run, system_notice_run, bind_run. cbn [emit]. rewrite saveState_saved.
    eexists (updates ++ [_]). split.
    { cbn [snd saved observed record]. by rewrite <- app_assoc. }
    split; [|done]. intros _. split; [|done].
    rewrite delivered_app, Hupdates. reflexivity.
Qed.

End Fastest.

(** * The component that shows the messages *)

Lemma App_channelMessages_of_insert (st : gmap string (list ChatMessageData.t))
    (channelId c : string) (l : list ChatMessageData.t) :
  App.channelMessages_of (<[channelId := l]> st) c
  = if decide (channelId = c) then l else App.channelMessages_of st c.
Proof.
  unfold App.channelMessages_of. case_decide as Hc.
  - subst. by rewrite lookup_insert_eq.
  - by rewrite lookup_insert_ne.
Qed.

Lemma findIndex_None_inv {A} (p : A → bool) (xs : list A) :
  findIndex p xs = None → ∀ x, x ∈ xs → p x = false.
Proof.
  induction xs as [|y xs IH]; intros Hnone x Hx; [by apply elem_of_nil in Hx|].
  cbn [findIndex] in Hnone. destruct (p y) eqn:Hy; [done|].
  destruct (findIndex p xs); [done|].
  apply elem_of_cons in Hx as [->|Hx]; [done|by apply IH].
Qed.

Lemma existsb_false_inv {A} (p : A → bool) (xs : list A) :
  existsb p xs = false → ∀ x, x ∈ xs → p x = false.
Proof.
  induction xs as [|y xs IH]; intros Hnone x Hx; [by apply elem_of_nil in Hx|].
  cbn in Hnone. apply orb_false_iff in Hnone as [Hy Hrest].
  apply elem_of_cons in Hx as [->|Hx]; [done|by apply IH].
Qed.

Lemma NoDup_ids_snoc (l : list ChatMessageData.t) (message : ChatMessageData.t) :
  NoDup (ChatMessageData.id <$> l) →
  (∀ x, x ∈ l → bool_decide (ChatMessageData.id x = ChatMessageData.id message) = false) →
  NoDup (ChatMessageData.id <$> l ++ [message]).
Proof.
  intros Hnodup Hnew. rewrite fmap_app. apply NoDup_app. split; [done|]. split.
  - intros i (x & -> & Hx)%list_elem_of_fmap Hi. cbn in Hi.
    apply list_elem_of_singleton in Hi. specialize (Hnew x Hx).
    by apply bool_decide_eq_false in Hnew.
  - apply NoDup_singleton.
Qed.

Lemma ids_alter_same (f : ChatMessageData.t → ChatMessageData.t) (i : nat)
    (l : list ChatMessageData.t) :
  (∀ x, l !! i = Some x → ChatMessageData.id (f x) = ChatMessageData.id x) →
  ChatMessageData.id <$> alter f i l = ChatMessageData.id <$> l.
Proof.
  intros Hf. apply list_eq. intros j. rewrite !list_lookup_fmap.
  destruct (decide (j = i)) as [->|Hne].
  - rewrite list_lookup_alter_eq. destruct (l !! i) as [x|] eqn:Hx; [|done].
    cbn. by rewrite Hf.
  - by rewrite list_lookup_alter_ne.
Qed.

(** One callback keeps the ids of every channel distinct. *)
Lemma App_on_event_unique_ids (e : Event) (st : gmap string (list ChatMessageData.t)) :
  App.unique_ids st → App.unique_ids (App.on_event e st).
Proof.
  intros Hunique c. destruct e as [message|channelId messageId chunk| |message| |];
    cbn [App.on_event]; try apply Hunique.
  - unfold App.handleMessageUpsert.
    destruct (findIndex _ _) as [i|] eqn:Hi; rewrite App_channelMessages_of_insert;
      case_decide as Hc; try apply Hunique; subst c.
    + rewrite ids_alter_same; [apply Hunique|].
      intros x Hx. destruct (findIndex_Some _ _ _ Hi) as (y & Hy & Hyid & _).
      apply bool_decide_eq_true in Hyid. cbn. congruence.
    + apply NoDup_ids_snoc; [apply Hunique|]. by apply findIndex_None_inv.
  - unfold App.handleMessageChunk. rewrite App_channelMessages_of_insert.
    case_decide as Hc; [|apply Hunique]. subst c.
    rewrite <- list_fmap_compose.
    erewrite list_fmap_ext; [apply (Hunique channelId)|].
    intros i x _. cbn. by case_bool_decide.
  - unfold App.handleMessageAdd. destruct (existsb _ _) eqn:Hexists; [apply Hunique|].
    rewrite App_channelMessages_of_insert. case_decide as Hc; [|apply Hunique]. subst c.
    apply NoDup_ids_snoc; [apply Hunique|]. by apply existsb_false_inv.
Qed.

(** X24.  The callbacks of [handleSendMessage] and [runAutoChatTurn], applied
    in any number and order to a state in which no channel shows two
    messages under one id, lead to such a state: [handleMessageAdd]
    skips an id that is shown, [handleMessageUpsert] replaces the
    message that has the id, and [handleMessageChunk] keeps the ids. *)
Theorem App_replay_unique_ids (events : list Event)
    (prevMessages : gmap string (list ChatMessageData.t)) :
  App.unique_ids prevMessages → App.unique_ids (App.replay events prevMessages).
Proof.
  revert prevMessages. induction events as [|e events IH]; intros st Hunique; [done|].
  cbn [App.replay foldl]. apply IH. by apply App_on_event_unique_ids.
Qed.

Lemma App_replay_unique_ids_witness :
  App.unique_ids
    (App.replay [onMinionResponse processing_message; onSystemMessage hello_message;
                 onMinionResponse processing_message]
                {[ "general" := [hello_message] ]}).
Proof.
  apply App_replay_unique_ids. intros c. unfold App.channelMessages_of.
  destruct (decide (c = "general")) as [->|Hc].
  - rewrite lookup_singleton_eq. cbn. apply NoDup_singleton.
  - rewrite lookup_singleton_ne by done. cbn. apply NoDup_nil_2.
Defined.

Lemma spread_twice {A} (old new : option A) : spread (spread old new) new = spread old new.
Proof. by destruct new. Qed.

Lemma spread_message_twice (old message : ChatMessageData.t) :
  App.spread_message (App.spread_message old message) message
  = App.spread_message old message.
Proof. unfold App.spread_message. cbn. by rewrite !spread_twice. Qed.

Lemma spread_message_self (message : ChatMessageData.t) :
  App.spread_message message message = message.
Proof. destruct message as [? ? ? ? ? ? [] [] [] [] []]; reflexivity. Qed.

Lemma findIndex_alter_found {A} (p : A → bool) (f : A → A) (i : nat) (xs : list A) :
  findIndex p xs = Some i → (∀ x, p (f x) = true) → findIndex p (alter f i xs) = Some i.
Proof.
  intros Hfound Hf. revert i Hfound. induction xs as [|x xs IH]; intros i; cbn [findIndex]; [done|].
  destruct (p x) eqn:Hx.
  - intros [= <-]. cbn. by rewrite Hf.
  - destruct (findIndex p xs) as [k|]; [|done]. cbn. intros [= <-].
    cbn. rewrite Hx. by rewrite (IH k eq_refl).
Qed.

Lemma findIndex_snoc_new {A} (p : A → bool) (xs : list A) (x : A) :
  findIndex p xs = None → p x = true → findIndex p (xs ++ [x]) = Some (length xs).
Proof.
  intros Hnone Hx. induction xs as [|y xs IH]; cbn [findIndex app length].
  - by rewrite Hx.
  - cbn [findIndex] in Hnone. destruct (p y); [done|].
    destruct (findIndex p xs); [done|]. by rewrite IH.
Qed.

Lemma existsb_snoc_found {A} (p : A → bool) (xs : list A) (x : A) :
  p x = true → existsb p (xs ++ [x]) = true.
Proof. intros Hx. rewrite existsb_app. cbn. rewrite Hx. by rewrite orb_true_r, orb_true_l || rewrite orb_true_r. Qed.

(** X25.  A callback that comes twice changes nothing the second time:
    [handleMessageAdd] skips a message whose id is shown, and
    [handleMessageUpsert] merges a message into itself. *)
Theorem App_repeated_callback (channelId : string) (message : ChatMessageData.t)
    (prevMessages : gmap string (list ChatMessageData.t)) :
  App.handleMessageAdd channelId message (App.handleMessageAdd channelId message prevMessages)
    = App.handleMessageAdd channelId message prevMessages ∧
  App.handleMessageUpsert message (App.handleMessageUpsert message prevMessages)
    = App.handleMessageUpsert message prevMessages.
Proof.
  split.
  - unfold App.handleMessageAdd at 2 3.
    destruct (existsb _ (App.channelMessages_of prevMessages channelId)) eqn:Hexists.
    + unfold App.handleMessageAdd. by rewrite Hexists.
    + unfold App.handleMessageAdd. rewrite App_channelMessages_of_insert, decide_True by done.
      rewrite existsb_snoc_found; [done|]. by apply bool_decide_eq_true.
  - unfold App.handleMessageUpsert at 2 3.
    destruct (findIndex _ (App.channelMessages_of prevMessages
                             (ChatMessageData.channelId message))) as [i|] eqn:Hi.
    + unfold App.handleMessageUpsert.
      rewrite App_channelMessages_of_insert, decide_True by done.
      rewrite (findIndex_alter_found _ _ _ _ Hi) by (intros x; by apply bool_decide_eq_true).
      rewrite insert_insert_eq. f_equal.
      apply list_eq. intros j. destruct (decide (j = i)) as [->|Hne].
      * rewrite !list_lookup_alter_eq. destruct (_ !! i); [|done]. cbn.
        by rewrite spread_message_twice.
      * by rewrite !list_lookup_alter_ne.
    + unfold App.handleMessageUpsert.
      rewrite App_channelMessages_of_insert, decide_True by done.
      rewrite (findIndex_snoc_new _ _ _ Hi) by (by apply bool_decide_eq_true).
      rewrite insert_insert_eq. f_equal.
      apply list_eq. intros j. destruct (decide (j = length (App.channelMessages_of prevMessages
                                                     (ChatMessageData.channelId message))))
        as [->|Hne].
      * rewrite list_lookup_alter_eq, lookup_app_r, Nat.sub_diag by lia. cbn.
        by rewrite spread_message_self.
      * by rewrite list_lookup_alter_ne.
Qed.

(** X26.  The chunks of a stream, handed to [handleMessageChunk] one by one:
    the content of every message shown under the id in the channel is
    its content before followed by the chunks in their order, which is
    how the service accumulates them; the other messages are as
    before. *)
Theorem App_chunks_accumulate (channelId messageId : string) (chunks : list string)
    (prevMessages : gmap string (list ChatMessageData.t)) :
  chunks ≠ [] →
  App.replay (onMinionResponseChunk channelId messageId <$> chunks) prevMessages
  = <[channelId :=
        (λ m, if bool_decide (ChatMessageData.id m = messageId)
              then ChatMessageData.with_content
                     (foldl (λ accumulatedContent chunk, accumulatedContent +:+ chunk)
                            (ChatMessageData.content m) chunks) m
              else m) <$> App.channelMessages_of prevMessages channelId]> prevMessages.
Proof.
  revert prevMessages. induction chunks as [|chunk chunks IH]; intros st Hsome; [done|].
  cbn [fmap list_fmap App.replay foldl App.on_event].
  destruct chunks as [|chunk' chunks]; [done|].
  change (foldl _ (App.handleMessageChunk channelId messageId chunk st) _)
    with (App.replay (onMinionResponseChunk channelId messageId <$> chunk' :: chunks)
            (App.handleMessageChunk channelId messageId chunk st)).
  rewrite IH by done. unfold App.handleMessageChunk.
  rewrite App_channelMessages_of_insert, decide_True by done.
  rewrite insert_insert_eq. f_equal.
  rewrite <- list_fmap_compose. apply list_fmap_ext. intros i m _. cbn.
  destruct (bool_decide (ChatMessageData.id m = messageId)) eqn:Hid;
    cbn [ChatMessageData.id ChatMessageData.with_content ChatMessageData.content];
    by rewrite Hid.
Qed.

Lemma App_chunks_accumulate_witness :
  App.channelMessages_of
    (App.replay (onMinionResponseChunk "general" "ai-1" <$> ["Hello "; "there. "])
                {[ "general" := [processing_message] ]}) "general"
  = [ChatMessageData.with_content "Hello there. " processing_message].
Proof.
  rewrite (App_chunks_accumulate "general" "ai-1" ["Hello "; "there. "]
             {[ "general" := [processing_message] ]}) by done.
  rewrite App_channelMessages_of_insert, decide_True by done.
  unfold App.channelMessages_of. rewrite lookup_singleton_eq. reflexivity.
Defined.

(** ** A batch seen through the component *)

Lemma App_on_event_permitted (pool : list ApiKey.t) (channelId c : string) (e : Event)
    (st : gmap string (list ChatMessageData.t)) :
  permitted pool channelId e → c ≠ channelId → App.on_event e st !! c = st !! c.
Proof.
  intros He Hc. destruct e as [message|channelId' messageId chunk| |message| |];
    cbn [App.on_event permitted] in *; try done.
  - destruct He as [Hchannel _]. unfold App.handleMessageUpsert. rewrite Hchannel.
    destruct (findIndex _ _); by rewrite lookup_insert_ne.
  - subst channelId'. unfold App.handleMessageChunk. by rewrite lookup_insert_ne.
  - destruct He as [Hchannel _]. unfold App.handleMessageAdd. rewrite Hchannel.
    destruct (existsb _ _); [done|]. by rewrite lookup_insert_ne.
Qed.

Lemma App_replay_permitted (pool : list ApiKey.t) (channelId c : string) (events : list Event)
    (st : gmap string (list ChatMessageData.t)) :
  Forall (permitted pool channelId) events → c ≠ channelId →
  App.replay events st !! c = st !! c.
Proof.
  intros Hevents Hc. revert st.
  induction Hevents as [|e events He _ IH]; intros st; [done|].
  cbn [App.replay foldl]. change (foldl _ ?s events) with (App.replay events s).
  rewrite IH. by eapply App_on_event_permitted.
Qed.

Lemma shown_since_grows (P : Event → Prop) (w w' : World) :
  trace_grows P w w' → Forall P (shown_since w w').
Proof.
  intros (events & Hobs & HP). unfold shown_since. by rewrite Hobs, drop_app_length.
Qed.

Section Shown.
Context (env : Environment).
Context {json_minions : Json (list MinionConfig.t)}.
Context {json_channels : Json (list Channel.t)}.
Context {json_messages : Json (gmap string (list ChatMessageData.t))}.
Context {json_apiKeys : Json (list ApiKey.t)}.

(** X27.  The callbacks of a batch, of the commander or autonomous, applied
    to the messages the component shows: whatever the batch did, what
    is shown in every channel other than the channel of the batch is as
    before. *)
Theorem App_batch_stays_in_channel (w : World) (channelId : string)
    (userMessage : ChatMessageData.t) (prevMessages : gmap string (list ChatMessageData.t))
    (c : string) :
  c ≠ channelId →
  App.replay (shown_since w (handleUserMessage env channelId userMessage w).2) prevMessages !! c
    = prevMessages !! c ∧
  App.replay (shown_since w (triggerNextAutoChatTurn env channelId w).2) prevMessages !! c
    = prevMessages !! c.
Proof.
  intros Hc. split.
  - destruct (keeps_handleUserMessage env (λ _ _, True) (apiKeys (this w)) channelId
                userMessage ltac:(done) w eq_refl) as [[_ Htrace] _].
    eapply App_replay_permitted; [|done]. by apply shown_since_grows.
  - destruct (keeps_triggerNextAutoChatTurn env (λ _ _, True) (apiKeys (this w)) channelId
                ltac:(done) w eq_refl) as [[_ Htrace] _].
    eapply App_replay_permitted; [|done]. by apply shown_since_grows.
Qed.

End Shown.

Lemma App_batch_stays_in_channel_witness :
  App.replay (shown_since (world_of service_swarm)
                (run_triggerNextAutoChatTurn env_talkative "swarm" (world_of service_swarm)).2)
             {[ "general" := [hello_message] ]} !! "general"
  = Some [hello_message].
Proof.
  unfold run_triggerNextAutoChatTurn.
  rewrite (proj2 (@App_batch_stays_in_channel env_talkative (json_blank _) (json_blank _)
                    (json_blank _) (json_blank _) (world_of service_swarm) "swarm"
                    hello_message {[ "general" := [hello_message] ]} "general"
                    ltac:(discriminate))).
  apply lookup_singleton_eq.
Defined.

(** * The forms *)

Lemma Array_from_Set_elem (xs : list string) (x : string) :
  x ∈ ChannelForm.Array_from_Set xs ↔ x ∈ xs.
Proof.
  induction xs as [|y xs IH]; cbn [ChannelForm.Array_from_Set]; [done|].
  rewrite !elem_of_cons, list_elem_of_filter, IH.
  destruct (decide (x = y)); tauto.
Qed.

Lemma Array_from_Set_NoDup (xs : list string) : NoDup (ChannelForm.Array_from_Set xs).
Proof.
  induction xs as [|y xs IH]; cbn [ChannelForm.Array_from_Set]; [apply NoDup_nil_2|].
  apply NoDup_cons. split.
  - rewrite list_elem_of_filter. tauto.
  - by apply NoDup_filter.
Qed.

(** X28.  [handleMemberToggle]: the toggled name is selected afterwards
    exactly if it was not before; every other name is selected exactly
    if it was; a selection without repetitions stays one; and toggling
    a name that was not selected twice gives the selection back. *)
Theorem ChannelForm_handleMemberToggle_flips (memberName : string) (prev : list string) :
  (memberName ∈ ChannelForm.handleMemberToggle memberName prev ↔ memberName ∉ prev) ∧
  (∀ other, other ≠ memberName →
     (other ∈ ChannelForm.handleMemberToggle memberName prev ↔ other ∈ prev)) ∧
  (NoDup prev → NoDup (ChannelForm.handleMemberToggle memberName prev)) ∧
  (memberName ∉ prev →
   ChannelForm.handleMemberToggle memberName (ChannelForm.handleMemberToggle memberName prev)
     = prev).
Proof.
  unfold ChannelForm.handleMemberToggle at 1 2 3. case_bool_decide as Hin.
  - split; [|split; [|split]].
    + rewrite list_elem_of_filter. tauto.
    + intros other Hother. rewrite list_elem_of_filter. tauto.
    + apply NoDup_filter.
    + done.
  - split; [|split; [|split]].
    + rewrite elem_of_app, list_elem_of_singleton. tauto.
    + intros other Hother. rewrite elem_of_app, list_elem_of_singleton. tauto.
    + intros Hnodup. apply NoDup_app. split; [done|]. split; [|apply NoDup_singleton].
      intros x Hx Hx'. apply list_elem_of_singleton in Hx'. by subst.
    + intros _. unfold ChannelForm.handleMemberToggle.
      rewrite (bool_decide_eq_false_2 (memberName ∈ prev)) by done.
      rewrite (bool_decide_eq_true_2 (memberName ∈ prev ++ [memberName]))
        by (rewrite elem_of_app, list_elem_of_singleton; by right).
      rewrite filter_app, filter_all by (intros x Hx ->; done).
      rewrite filter_cons_False by (intros Hne; by apply Hne). by rewrite app_nil_r.
Qed.

(** X29.  [handleSubmit]: a name that is empty or ASCII white space only
    saves nothing.  For a name of ASCII characters that is not so, one
    payload is saved: its name begins with [#], being the name typed or
    [#] and the name typed; its members are the selected names, each
    once, and none at all for a system log; its id is that of the
    channel being edited, if any. *)
Theorem ChannelForm_handleSubmit_payload (initialChannel : option Channel.t)
    (st : ChannelForm.State) :
  (blank (ChannelForm.name st) = true → ChannelForm.handleSubmit initialChannel st = None) ∧
  (ascii_only (ChannelForm.name st) = true → blank (ChannelForm.name st) = false →
   ∃ payload,
     ChannelForm.handleSubmit initialChannel st = Some payload ∧
     ChannelForm.startsWith_hash (ChannelForm.payload_name payload) = true ∧
     (ChannelForm.payload_name payload = ChannelForm.name st ∨
      ChannelForm.payload_name payload = "#" +:+ ChannelForm.name st) ∧
     NoDup (ChannelForm.payload_members payload) ∧
     (∀ x, x ∈ ChannelForm.payload_members payload ↔
           ChannelForm.type st ≠ Channel.system_log ∧ x ∈ ChannelForm.selectedMembers st) ∧
     ChannelForm.payload_id payload = Channel.id <$> initialChannel ∧
     ChannelForm.payload_type payload = ChannelForm.type st ∧
     ChannelForm.payload_description payload = ChannelForm.description st).
Proof.
  unfold ChannelForm.handleSubmit. rewrite truthy_trim, negb_involutive. split.
  - by intros ->.
  - intros _ ->. eexists. split; [reflexivity|]. cbn. split; [|split].
    + by destruct (ChannelForm.startsWith_hash (ChannelForm.name st)) eqn:Hhash.
    + destruct (ChannelForm.startsWith_hash (ChannelForm.name st)); [by left|by right].
    + split; [destruct (ChannelForm.type st);
              first [apply Array_from_Set_NoDup | apply NoDup_nil_2]|].
      split; [|done]. intros x.
      destruct (ChannelForm.type st); rewrite ?Array_from_Set_elem, ?elem_of_nil;
        (split; [intros Hx; try done; by split|intros [Htype Hx]; try done; congruence]).
Qed.

Lemma ChannelForm_handleSubmit_payload_witness :
  ChannelForm.handleSubmit None
    (ChannelForm.mkState "strategy" EmptyString Channel.user_minion_group
       ["Steven"; "Alpha"; "Steven"])
  = Some (ChannelForm.mkPayload None "#strategy" EmptyString Channel.user_minion_group
            ["Steven"; "Alpha"]) ∧
  ChannelForm.handleSubmit None
    (ChannelForm.mkState "  " EmptyString Channel.user_minion_group ["Steven"]) = None.
Proof.
  split.
  - destruct (proj2 (ChannelForm_handleSubmit_payload None
                       (ChannelForm.mkState "strategy" EmptyString Channel.user_minion_group
                          ["Steven"; "Alpha"; "Steven"])) eq_refl eq_refl)
      as (payload & Hrun & _).
    rewrite Hrun. vm_compute in Hrun. by injection Hrun as <-.
  - apply (proj1 (ChannelForm_handleSubmit_payload None
                    (ChannelForm.mkState "  " EmptyString Channel.user_minion_group
                       ["Steven"]))).
    reflexivity.
Defined.

Lemma substring_prefix (a b : string) : String.substring 0 (String.length a) (a +:+ b) = a.
Proof. induction a as [|c a IH]; simpl; [by destruct b|by rewrite IH]. Qed.

Lemma substring_all (s : string) : String.substring 0 (String.length s) s = s.
Proof. induction s as [|c s IH]; simpl; [done|by rewrite IH]. Qed.

Lemma substring_skip (a b : string) (n m : nat) :
  String.substring (String.length a + n) m (a +:+ b) = String.substring n m b.
Proof. induction a as [|c a IH]; simpl; [done|apply IH]. Qed.

(** X30.  [maskApiKey]: a secret of fewer than eight characters is shown as
    three stars; of any other secret exactly the first four and the
    last four characters are shown, whatever lies between them, so a
    secret of eight characters is shown in full. *)
Theorem ApiKeyManager_maskApiKey_shows_ends (key first middle last : string) :
  ((String.length key < 8)%nat → ApiKeyManager.maskApiKey key = "***") ∧
  (String.length first = 4%nat → String.length last = 4%nat →
   ApiKeyManager.maskApiKey (first +:+ middle +:+ last) = first +:+ "..." +:+ last).
Proof.
  unfold ApiKeyManager.maskApiKey. split.
  - intros Hshort. by rewrite (proj2 (Nat.ltb_lt _ _) Hshort).
  - intros Hfirst Hlast.
    rewrite !string_length_append, Hfirst, Hlast.
    rewrite (proj2 (Nat.ltb_ge _ _)) by lia.
    rewrite <- Hfirst at 1. rewrite substring_prefix.
    replace (4 + (String.length middle + 4) - 4)%nat
      with (String.length first + (String.length middle + 0))%nat by lia.
    rewrite !substring_skip. rewrite <- Hlast. by rewrite substring_all.
Qed.

Lemma ApiKeyManager_maskApiKey_shows_ends_witness :
  ApiKeyManager.maskApiKey "AIzaSECRETKEY1234" = "AIza...1234" ∧
  ApiKeyManager.maskApiKey "12345678" = "1234...5678" ∧
  ApiKeyManager.maskApiKey "short" = "***".
Proof.
  split; [|split].
  - exact (proj2 (ApiKeyManager_maskApiKey_shows_ends EmptyString "AIza" "SECRETKEY" "1234")
             eq_refl eq_refl).
  - exact (proj2 (ApiKeyManager_maskApiKey_shows_ends EmptyString "1234" EmptyString "5678")
             eq_refl eq_refl).
  - apply (proj1 (ApiKeyManager_maskApiKey_shows_ends "short" EmptyString EmptyString
                    EmptyString)).
    cbn. lia.
Defined.

(** * The rotation of the pool *)

Lemma rotate_Permutation {A} (n : nat) (l : list A) : rotate n l ≡ₚ l.
Proof. unfold rotate. rewrite Permutation_app_comm. by rewrite take_drop. Qed.

(** X1.  [_selectApiKey] without a pin, called as many times as the pool has
    keys, from a cursor that lies within the pool: every call returns,
    the keys handed out are the keys of the pool, each handed out
    once, beginning with the key under the cursor and in the order of
    the pool, all of them as load balanced; and the cursor is back
    where it was. *)
Theorem selectApiKey_serves_every_key_once (w : World) :
  (apiKeyRoundRobinIndex (this w) < length (apiKeys (this w)))%nat →
  ∃ selected,
    select_times (length (apiKeys (this w))) w = (Ok selected, w) ∧
    selected ≡ₚ load_balanced <$> apiKeys (this w) ∧
    selected
      = load_balanced <$> (drop (apiKeyRoundRobinIndex (this w)) (apiKeys (this w)) ++
                           take (apiKeyRoundRobinIndex (this w)) (apiKeys (this w))) ∧
    Forall (λ keyInfo, SelectedKeyInfo.method keyInfo = SelectedKeyInfo.Load_Balanced) selected.
Proof.
  intros Hcursor. eexists. split; [by apply round_robin_in_range|].
  split; [by rewrite rotate_Permutation|]. split.
  - unfold rotate. by rewrite Nat.mod_small.
  - apply Forall_fmap, Forall_true. by intros k.
Qed.

Lemma selectApiKey_serves_every_key_once_witness :
  select_times 3 world_pool
    = (Ok [load_balanced key_b; load_balanced key_c; load_balanced key_a], world_pool).
Proof.
  destruct (selectApiKey_serves_every_key_once world_pool ltac:(cbn; lia))
    as (selected & Hrun & _ & -> & _).
  exact Hrun.
Defined.
